(** * WaRAG document processor: the chunking pipeline

    A shallow embedding of [rag-system/document_processor.py]
    ([extract_text_from_pdf], [extract_text_from_docx],
    [create_document_chunks], [process_document_from_bytes],
    [process_pdf_from_bytes]) and of the text splitter it instantiates,
    followed by the properties of the chunking pipeline.

    Conventions of the embedding:
    - a Python [str] is a list of 8-bit code points ([list ascii], the
      Latin-1 range); on that range [\s] and [str.isspace] agree, and [\d]
      is the ten ASCII digits;
    - a Python [int] is a [Z]; a [bytes] is a [list Byte.byte];
    - a [dict] with string keys is a [gmap string value];
    - an exception is a value of [exn], and a computation that may raise
      returns a [result];
    - the file system, the name of the next temporary file and the two
      document parsers ([fitz], [docx]) form the [World] a call runs in;
      creating the temporary file fails when its suffix cannot be part of
      a file name, writing and removing it do not fail, and log output is
      not modelled;
    - [str(n)] is modelled for the integers that CPython formats, those of
      at most 4300 digits: the page numbers that the extractors assign are
      positions in a list, and a statement about a page number that a
      caller chooses carries that bound;
    - an optional argument of an entry point is an [option], [None] when
      the caller leaves it out. *)

From Stdlib Require Import Ascii String ZArith QArith Lia.
From Stdlib Require Import DecimalString DecimalZ DecimalPos DecimalFacts.
From Equations Require Import Equations.
From stdpp Require Import base option list gmap strings sorting.

Open Scope Z_scope.

(** ** Strings *)

Abbreviation str := (list ascii).

(** A string literal of the source. *)
Definition lit (s : string) : str := list_ascii_of_string s.

Definition code (c : ascii) : N := N_of_ascii c.

(** [str.isspace] and the regular-expression class [\s] on one character. *)
Definition isspace (c : ascii) : bool :=
  let n := code c in
  ((9 <=? n) && (n <=? 13) || (28 <=? n) && (n <=? 32)
   || (n =? 133) || (n =? 160))%N.

(** The regular-expression class [\d]. *)
Definition isdigit (c : ascii) : bool :=
  let n := code c in ((48 <=? n) && (n <=? 57))%N.

Definition lower_char (c : ascii) : ascii :=
  let n := code c in
  if ((65 <=? n) && (n <=? 90)
      || (192 <=? n) && (n <=? 222) && negb (n =? 215))%N
  then ascii_of_N (n + 32) else c.

(** [s.lower()] *)
Definition lower (s : str) : str := map lower_char s.

Definition ascii_eqb (a b : ascii) : bool := Ascii.eqb a b.

Fixpoint str_eqb (a b : str) : bool :=
  match a, b with
  | [], [] => true
  | x :: a', y :: b' => ascii_eqb x y && str_eqb a' b'
  | _, _ => false
  end.

(** [len(s)] *)
Definition len (s : str) : Z := Z.of_nat (length s).

Fixpoint lstrip (s : str) : str :=
  match s with
  | c :: r => if isspace c then lstrip r else s
  | [] => []
  end.

Definition rstrip (s : str) : str := reverse (lstrip (reverse s)).

(** [s.strip()] *)
Definition strip (s : str) : str := rstrip (lstrip s).

(** [text.startswith(p)], returning the rest of [text] after [p]. *)
Fixpoint strip_prefix (p text : str) : option str :=
  match p, text with
  | [], _ => Some text
  | a :: p', b :: t' => if ascii_eqb a b then strip_prefix p' t' else None
  | _ :: _, [] => None
  end.

(** [p in text], also [re.search(re.escape(p), text)] for a literal [p]. *)
Fixpoint contains (p text : str) : bool :=
  match strip_prefix p text with
  | Some _ => true
  | None => match text with
            | [] => false
            | _ :: t' => contains p t'
            end
  end.

(** [sep.join(parts)] *)
Fixpoint join (sep : str) (parts : list str) : str :=
  match parts with
  | [] => []
  | [p] => p
  | p :: rest => p ++ sep ++ join sep rest
  end.

(** The longest prefix of characters of a class, and what follows it. *)
Fixpoint span (f : ascii -> bool) (s : str) : str * str :=
  match s with
  | c :: r => if f c then let '(a, b) := span f r in (c :: a, b) else ([], s)
  | [] => ([], [])
  end.

(** [str(n)] for an [int] of at most 4300 digits.  For a longer one
    CPython raises [ValueError] instead of formatting it
    ([sys.int_info.default_max_str_digits]): see [formats]. *)
Definition str_of_int (n : Z) : str :=
  list_ascii_of_string (NilZero.string_of_int (Z.to_int n)).

(** ** Exceptions and results *)

Inductive exn : Type :=
| FileNotFoundError (msg : str)
| ValueError (msg : str)
| IndexError (msg : str)
| KeyError (key : string)
| OSError (errno : Z) (strerror : str)
| ParserError (msg : str).

Inductive result (A : Type) : Type :=
| Ok (a : A)
| Raise (e : exn).
Arguments Ok {A} a.
Arguments Raise {A} e.

#[global] Instance result_ret : MRet result := fun A a => Ok a.
#[global] Instance result_bind : MBind result := fun A B f m =>
  match m with
  | Ok a => f a
  | Raise e => Raise e
  end.

Definition fmap_result {A B : Type} (f : A -> B) (r : result A) : result B :=
  match r with
  | Ok a => Ok (f a)
  | Raise e => Raise e
  end.

(** CPython refuses to convert more than 4300 digits
    ([sys.int_info.default_max_str_digits]). *)
Definition max_str_digits : nat := 4300.

(** [int(ds)] for a run [ds] of decimal digits, as [(\d+)] captures it. *)
Definition int_of_digits (ds : str) : result Z :=
  if (max_str_digits <? length ds)%nat
  then Raise (ValueError (lit "Exceeds the limit (4300 digits) for integer string conversion"))
  else match NilEmpty.uint_of_string (string_of_list_ascii ds) with
       | Some u => Ok (Z.of_uint u)
       | None => Raise (ValueError (lit "invalid literal for int() with base 10"))
       end.

(** ** Values and documents *)

Inductive value : Type :=
| VNone
| VInt (n : Z)
| VStr (s : str).

(** [langchain.docstore.document.Document] *)
Record Document : Type := mkDocument {
  page_content : str;
  metadata : gmap string value
}.

(** One entry of [all_text]: [{"page": n, "text": t}]. *)
Record PageInfo : Type := mkPageInfo {
  pi_page : Z;
  pi_text : str
}.

(** ** Regular expressions of the source *)

(** The text after a leading match of [Page \d+: ], the pattern that
    [create_document_chunks] deletes. *)
Definition marker_at (text : str) : option str :=
  match strip_prefix (lit "Page ") text with
  | Some rest =>
      match span isdigit rest with
      | (_ :: _, rest') => strip_prefix (lit ": ") rest'
      | ([], _) => None
      end
  | None => None
  end.

(** The leftmost match of [Page \d+: ]: what precedes it and what follows. *)
Fixpoint find_marker (text : str) : option (str * str) :=
  match marker_at text with
  | Some rest => Some ([], rest)
  | None =>
      match text with
      | [] => None
      | c :: t' =>
          match find_marker t' with
          | Some (a, b) => Some (c :: a, b)
          | None => None
          end
      end
  end.

(** The first occurrence of a literal: what precedes it and what follows. *)
Fixpoint partition (sep text : str) : option (str * str) :=
  match strip_prefix sep text with
  | Some rest => Some ([], rest)
  | None =>
      match text with
      | [] => None
      | c :: t' =>
          match partition sep t' with
          | Some (a, b) => Some (c :: a, b)
          | None => None
          end
      end
  end.

Lemma strip_prefix_length (p text rest : str) :
  strip_prefix p text = Some rest -> length text = (length p + length rest)%nat.
Proof.
  revert text; induction p as [|a p IH]; intros text H; simpl in *.
  - congruence.
  - destruct text as [|b t]; [congruence|].
    destruct (ascii_eqb a b); [|congruence].
    apply IH in H. simpl. lia.
Qed.

Lemma span_length (f : ascii -> bool) (s a b : str) :
  span f s = (a, b) -> length s = (length a + length b)%nat.
Proof.
  revert a b; induction s as [|c r IH]; intros a b H; simpl in *.
  - inversion H; reflexivity.
  - destruct (f c).
    + destruct (span f r) as [a' b'] eqn:E. inversion H; subst.
      simpl. rewrite (IH a' b); auto.
    + inversion H; subst. reflexivity.
Qed.

Lemma marker_at_length (text rest : str) :
  marker_at text = Some rest -> (length rest < length text)%nat.
Proof.
  unfold marker_at. intros H.
  destruct (strip_prefix (lit "Page ") text) as [r1|] eqn:E1; [|congruence].
  destruct (span isdigit r1) as [ds r2] eqn:E2.
  destruct ds as [|d ds]; [congruence|].
  apply strip_prefix_length in E1, H. apply span_length in E2.
  simpl in *. lia.
Qed.

Lemma find_marker_length (text a b : str) :
  find_marker text = Some (a, b) -> (length b < length text)%nat.
Proof.
  revert a b; induction text as [|c t IH]; intros a b H; simpl in H.
  - destruct (marker_at []) eqn:E; [|congruence].
    apply marker_at_length in E. simpl in E. lia.
  - destruct (marker_at (c :: t)) as [r|] eqn:E.
    + inversion H; subst. apply marker_at_length in E. exact E.
    + destruct (find_marker t) as [[a' b']|] eqn:F; [|congruence].
      inversion H; subst. specialize (IH _ _ eq_refl). simpl. lia.
Qed.

Lemma partition_length (sep text a b : str) :
  partition sep text = Some (a, b) ->
  length text = (length a + length sep + length b)%nat.
Proof.
  revert a b; induction text as [|c t IH]; intros a b H; simpl in H.
  - destruct (strip_prefix sep []) eqn:E; [|congruence].
    inversion H; subst. apply strip_prefix_length in E. simpl in *. lia.
  - destruct (strip_prefix sep (c :: t)) as [r|] eqn:E.
    + inversion H; subst. apply strip_prefix_length in E. simpl in *. lia.
    + destruct (partition sep t) as [[a' b']|] eqn:F; [|congruence].
      inversion H; subst. specialize (IH _ _ eq_refl). simpl. lia.
Qed.

(** A value together with the equation that says what it is. *)
Definition inspect {A : Type} (a : A) : {b : A | a = b} := exist _ a eq_refl.

(** [re.sub(r'Page \d+: ', '', text)] *)
Equations? sub_page_markers (text : str) : str by wf (length text) lt :=
  sub_page_markers text with inspect (find_marker text) := {
    | exist _ (Some (a, b)) _ => a ++ sub_page_markers b;
    | exist _ None _ => text }.
Proof. eapply find_marker_length; eauto. Qed.

(** [re.split("(" + re.escape(sep) + ")", text)] for the non-empty literal
    [sep = s0 :: s']: the pieces between the occurrences of [sep],
    with [sep] itself between two pieces. *)
Equations? re_split (s0 : ascii) (s' : str) (text : str) : list str
  by wf (length text) lt :=
  re_split s0 s' text with inspect (partition (s0 :: s') text) := {
    | exist _ (Some (a, b)) _ => a :: (s0 :: s') :: re_split s0 s' b;
    | exist _ None _ => [text] }.
Proof.
  match goal with H : _ = Some _ |- _ => apply partition_length in H end.
  simpl in *. lia.
Qed.

(** [re.sub(r'\s+', ' ', text)]: every maximal run of whitespace becomes
    one space, written when the last character of the run is reached. *)
Fixpoint collapse_whitespace (text : str) : str :=
  match text with
  | [] => []
  | c :: r =>
      if isspace c then
        match r with
        | c' :: _ => if isspace c' then collapse_whitespace r
                     else " "%char :: collapse_whitespace r
        | [] => [" "%char]
        end
      else c :: collapse_whitespace r
  end.

(** [re.match(r'Page (\d+):', chunk)]: group 1 of the match, if any. *)
Definition match_page_number (chunk : str) : option str :=
  match strip_prefix (lit "Page ") chunk with
  | Some rest =>
      match span isdigit rest with
      | (d :: ds, c :: _) => if ascii_eqb c ":"%char then Some (d :: ds) else None
      | _ => None
      end
  | None => None
  end.

(** ** The text splitter

    [create_document_chunks] instantiates the library class
    [RecursiveCharacterTextSplitter] (module [langchain.text_splitter],
    package [langchain_text_splitters], base class [TextSplitter]) with
    [chunk_size], [chunk_overlap], [length_function=len] and a list of
    separators, and calls [split_text].  The methods that this call runs
    are embedded here one for one, with the defaults the call leaves in
    place: [keep_separator=True], [is_separator_regex=False],
    [strip_whitespace=True]. *)

Definition NL : ascii := ascii_of_N 10.

Record TextSplitter : Type := mkTextSplitter {
  _chunk_size : Z;
  _chunk_overlap : Z;
  _separators : list str
}.

(** [TextSplitter.__init__] *)
Definition RecursiveCharacterTextSplitter
    (chunk_size chunk_overlap : Z) (separators : list str) : result TextSplitter :=
  if chunk_size <=? 0 then
    Raise (ValueError (lit "chunk_size must be > 0, got " ++ str_of_int chunk_size))
  else if chunk_overlap <? 0 then
    Raise (ValueError (lit "chunk_overlap must be >= 0, got "
                       ++ str_of_int chunk_overlap))
  else if chunk_size <? chunk_overlap then
    Raise (ValueError (lit "Got a larger chunk overlap (" ++ str_of_int chunk_overlap
                       ++ lit ") than chunk size (" ++ str_of_int chunk_size
                       ++ lit "), should be smaller."))
  else Ok (mkTextSplitter chunk_size chunk_overlap separators).

(** [TextSplitter._join_docs] *)
Definition _join_docs (docs : list str) (separator : str) : option str :=
  match strip (join separator docs) with
  | [] => None
  | text => Some text
  end.

Section Merge.
Variable ts : TextSplitter.
Variable separator : str.

(** [separator_len if len(current_doc) > n else 0] *)
Definition sep_if_longer (n : nat) (current_doc : list str) : Z :=
  if (n <? length current_doc)%nat then len separator else 0.

(** The [while] loop of [_merge_splits]: drops splits from the front of
    [current_doc] until what stays fits the overlap and leaves room for
    the next split, of length [_len]. *)
Fixpoint pop_front (_len : Z) (current_doc : list str) (total : Z)
    : result (list str * Z) :=
  if (_chunk_overlap ts <? total)
     || ((_chunk_size ts <? total + _len + sep_if_longer 0 current_doc)
         && (0 <? total))
  then
    match current_doc with
    | [] => Raise (IndexError (lit "list index out of range"))
    | first :: rest =>
        pop_front _len rest (total - (len first + sep_if_longer 1 current_doc))
    end
  else Ok (current_doc, total).

(** The state of the [for] loop of [_merge_splits]. *)
Record MergeState : Type := mkMergeState {
  docs : list str;
  current_doc : list str;
  total : Z
}.

Definition append_split (st : MergeState) (d : str) : MergeState :=
  let current_doc' := current_doc st ++ [d] in
  mkMergeState (docs st) current_doc'
               (total st + (len d + sep_if_longer 1 current_doc')).

(** One iteration of the [for] loop of [_merge_splits]. *)
Definition merge_step (st : MergeState) (d : str) : result MergeState :=
  let _len := len d in
  if _chunk_size ts <? total st + _len + sep_if_longer 0 (current_doc st) then
    if (0 <? length (current_doc st))%nat then
      let docs' :=
        match _join_docs (current_doc st) separator with
        | Some doc => docs st ++ [doc]
        | None => docs st
        end in
      '(current_doc', total') ← pop_front _len (current_doc st) (total st);
      Ok (append_split (mkMergeState docs' current_doc' total') d)
    else Ok (append_split st d)
  else Ok (append_split st d).

Fixpoint merge_loop (st : MergeState) (splits : list str) : result MergeState :=
  match splits with
  | [] => Ok st
  | d :: rest => st' ← merge_step st d; merge_loop st' rest
  end.

(** [TextSplitter._merge_splits] *)
Definition _merge_splits (splits : list str) : result (list str) :=
  st ← merge_loop (mkMergeState [] [] 0) splits;
  match _join_docs (current_doc st) separator with
  | Some doc => Ok (docs st ++ [doc])
  | None => Ok (docs st)
  end.
End Merge.

(** [[_splits[i] + _splits[i + 1] for i in range(1, len(_splits), 2)]],
    given [_splits[1:]]. *)
Fixpoint pairs_from_1 (l : list str) : result (list str) :=
  match l with
  | [] => Ok []
  | [_] => Raise (IndexError (lit "list index out of range"))
  | x :: y :: r => rest ← pairs_from_1 r; Ok ((x ++ y) :: rest)
  end.

Definition nonempty (s : str) : bool :=
  match s with [] => false | _ => true end.

(** [_split_text_with_regex(text, re.escape(separator), keep_separator=True)] *)
Definition _split_text_with_regex (text separator : str) : result (list str) :=
  match separator with
  | s0 :: s' =>
      let _splits := re_split s0 s' text in
      splits ← pairs_from_1 (tail _splits);
      let splits :=
        if Nat.even (length _splits)
        then splits ++ option_list (last _splits) else splits in
      Ok (filter (fun s => nonempty s = true) (option_list (head _splits) ++ splits))
  | [] => Ok (filter (fun s => nonempty s = true) (map (fun c => [c]) text))
  end.

(** The [for] loop of [_split_text] that looks for the separator to use:
    [Some] when it leaves by [break], with [separator] and
    [new_separators]. *)
Fixpoint find_separator (text : str) (separators : list str)
    : option (str * list str) :=
  match separators with
  | [] => None
  | _s :: rest =>
      match _s with
      | [] => Some (_s, [])
      | _ => if contains _s text then Some (_s, rest)
             else find_separator text rest
      end
  end.

(** [separator] and [new_separators] as [_split_text] computes them. *)
Definition choose_separator (text : str) (separators : list str)
    : result (str * list str) :=
  match last separators with
  | None => Raise (IndexError (lit "list index out of range"))
  | Some dflt =>
      match find_separator text separators with
      | Some r => Ok r
      | None => Ok (dflt, [])
      end
  end.

Section SplitLoop.
Variable ts : TextSplitter.
(** [None] when [new_separators] is empty, else the recursive call. *)
Variable recurse : option (str -> result (list str)).
Variable _separator : str.

Definition flush (final_chunks _good_splits : list str) : result (list str) :=
  match _good_splits with
  | [] => Ok final_chunks
  | _ => merged_text ← _merge_splits ts _separator _good_splits;
         Ok (final_chunks ++ merged_text)
  end.

(** The [for s in splits] loop of [_split_text] and what follows it. *)
Fixpoint split_loop (splits final_chunks _good_splits : list str)
    : result (list str) :=
  match splits with
  | [] => flush final_chunks _good_splits
  | s :: rest =>
      if len s <? _chunk_size ts then
        split_loop rest final_chunks (_good_splits ++ [s])
      else
        final_chunks ← flush final_chunks _good_splits;
        other_info ← match recurse with
                     | None => Ok [s]
                     | Some f => f s
                     end;
        split_loop rest (final_chunks ++ other_info) []
  end.
End SplitLoop.

Lemma find_separator_shorter (text : str) (separators : list str) sep new :
  find_separator text separators = Some (sep, new) ->
  new = [] \/ (length new < length separators)%nat.
Proof.
  induction separators as [|s rest IH]; simpl; [congruence|].
  destruct s as [|c s].
  - intros H; inversion H; auto.
  - destruct (contains (c :: s) text).
    + intros H; inversion H; subst. right; lia.
    + intros H. destruct (IH H); [auto | right; lia].
Qed.

(** [RecursiveCharacterTextSplitter._split_text] *)
Equations? _split_text (ts : TextSplitter) (text : str) (separators : list str)
    : result (list str) by wf (length separators) lt :=
  _split_text ts text separators with inspect (choose_separator text separators) := {
    | exist _ (Raise e) _ => Raise e;
    | exist _ (Ok (separator, [])) _ =>
        splits ← _split_text_with_regex text separator;
        split_loop ts None [] splits [] [];
    | exist _ (Ok (separator, n :: ns)) _ =>
        splits ← _split_text_with_regex text separator;
        split_loop ts (Some (fun s => _split_text ts s (n :: ns))) [] splits [] [] }.
Proof.
  unfold choose_separator in *.
  destruct (last separators); [|congruence].
  destruct (find_separator text separators) as [[s' new']|] eqn:F; [|congruence].
  match goal with H : Ok _ = Ok _ |- _ => inversion H; subst end.
  apply find_separator_shorter in F. destruct F; [congruence | assumption].
Qed.

(** [RecursiveCharacterTextSplitter.split_text] *)
Definition split_text (ts : TextSplitter) (text : str) : result (list str) :=
  _split_text ts text (_separators ts).

(** ** Common chunking logic *)

(** The separators that [create_document_chunks] passes to the splitter:
    blank line, newline, sentence end, space, and the empty string. *)
Definition chunk_separators : list str :=
  [[NL; NL]; [NL]; lit ". "; lit " "; []].

(** [f"Page {page_info['page']}: {page_info['text']}"] *)
Definition page_line (page_info : PageInfo) : str :=
  lit "Page " ++ str_of_int (pi_page page_info) ++ lit ": " ++ pi_text page_info.

(** [combined_text] *)
Definition combined_text (all_text : list PageInfo) : str :=
  join [NL; NL] (map page_line all_text).

(** [int(page_match.group(1)) if page_match else 0] *)
Definition page_num_of (chunk : str) : result Z :=
  match match_page_number chunk with
  | Some g => int_of_digits g
  | None => Ok 0
  end.

(** [metadata[key]] *)
Definition getitem (metadata : gmap string value) (key : string) : result value :=
  match metadata !! key with
  | Some v => Ok v
  | None => Raise (KeyError key)
  end.

(** The body of the loop over [enumerate(chunks)], for index [i]. *)
Definition make_document (metadata : gmap string value) (i : Z) (chunk : str)
    : result Document :=
  page_num ← page_num_of chunk;
  let clean_chunk := sub_page_markers chunk in
  source ← getitem metadata "file_name";
  Ok (mkDocument clean_chunk
        (metadata ∪ <["page"%string := VInt page_num]>
                     (<["chunk"%string := VInt (i + 1)]>
                        (<["source"%string := source]> ∅)))).

Fixpoint make_documents (metadata : gmap string value) (i : Z) (chunks : list str)
    : result (list Document) :=
  match chunks with
  | [] => Ok []
  | chunk :: rest =>
      doc ← make_document metadata i chunk;
      documents ← make_documents metadata (i + 1) rest;
      Ok (doc :: documents)
  end.

Definition create_document_chunks (all_text : list PageInfo)
    (metadata : gmap string value) (chunk_size chunk_overlap : Z)
    : result (list Document) :=
  text_splitter ← RecursiveCharacterTextSplitter chunk_size chunk_overlap
                     chunk_separators;
  chunks ← split_text text_splitter (combined_text all_text);
  make_documents metadata 0 chunks.

(** ** Paths *)

Fixpoint rfind_from (c : ascii) (p : str) (i found : Z) : Z :=
  match p with
  | [] => found
  | x :: r => rfind_from c r (i + 1) (if ascii_eqb x c then i else found)
  end.

(** [p.rfind(c)] *)
Definition rfind (c : ascii) (p : str) : Z := rfind_from c p 0 (-1).

(** [p[i:j]] for [0 <= i] *)
Definition slice (p : str) (i j : Z) : str :=
  take (Z.to_nat (j - i)) (drop (Z.to_nat i) p).

(** [os.path.splitext]: the extension starts at the last dot of the last
    path component, unless only dots precede it there. *)
Definition splitext (p : str) : str * str :=
  let sepIndex := rfind "/"%char p in
  let dotIndex := rfind "."%char p in
  if (sepIndex <? dotIndex)
     && existsb (fun c => negb (ascii_eqb c "."%char)) (slice p (sepIndex + 1) dotIndex)
  then (take (Z.to_nat dotIndex) p, drop (Z.to_nat dotIndex) p)
  else (p, []).

(** [os.path.basename] *)
Definition basename (p : str) : str :=
  drop (Z.to_nat (rfind "/"%char p + 1)) p.

(** ** Parsed documents *)

(** One block of [page.get_text("blocks")]: [block[1]], the vertical
    position, and [block[4]], the content. *)
Record Block : Type := mkBlock {
  block_1 : Q;
  block_4 : value
}.

(** What [fitz.open] gives: the metadata dictionary and, for every page in
    order, its blocks. *)
Record PdfDocument : Type := mkPdfDocument {
  pdf_metadata : gmap string value;
  pdf_pages : list (list Block)
}.

(** What [docx.Document] gives: the core properties read, the text of the
    body paragraphs, and the text of the cells of the rows of the tables. *)
Record DocxDocument : Type := mkDocxDocument {
  core_title : option str;
  core_author : option str;
  core_subject : option str;
  docx_paragraphs : list str;
  docx_tables : list (list (list str))
}.

(** ** The world a call runs in *)

Inductive parser_call : Type :=
| FitzOpen (path : str)
| DocxOpen (path : str).

Record World : Type := mkWorld {
  files : gmap str (list Byte.byte);
  (** the name [tempfile.NamedTemporaryFile] picks next, without suffix *)
  next_tmp : str;
  fitz_parse : list Byte.byte -> result PdfDocument;
  docx_parse : list Byte.byte -> result DocxDocument;
  (** the parser calls made so far, oldest first *)
  parser_calls : list parser_call
}.

(** A computation in a world. *)
Definition M (A : Type) : Type := World -> result A * World.

Definition path_exists (w : World) (path : str) : bool :=
  bool_decide (is_Some (files w !! path)).

Definition write_file (path : str) (data : list Byte.byte) (w : World) : World :=
  mkWorld (<[path := data]> (files w)) (next_tmp w) (fitz_parse w) (docx_parse w)
          (parser_calls w).

Definition remove_file (path : str) (w : World) : World :=
  mkWorld (delete path (files w)) (next_tmp w) (fitz_parse w) (docx_parse w)
          (parser_calls w).

Definition log_call (c : parser_call) (w : World) : World :=
  mkWorld (files w) (next_tmp w) (fitz_parse w) (docx_parse w)
          (parser_calls w ++ [c]).

Definition NUL : ascii := ascii_of_N 0.

(** The bytes of a name in the encoding of the file system, UTF-8: one for
    a code point below 128, two for the others of the range. *)
Definition utf8_len (s : str) : Z :=
  foldr (fun c n => (if (code c <? 128)%N then 1 else 2) + n) 0 s.

(** [NAME_MAX]: the most bytes a file name can have. *)
Definition name_max : Z := 255.

(** The length of the name that [tempfile] builds before the suffix: the
    prefix [tmp] and eight characters. *)
Definition tmp_name_len : Z := 11.

Definition ENAMETOOLONG : Z := 36.

(** What [os.open] raises for a new file whose name ends in [suffix]: no
    file name holds a NUL character, nor more than [name_max] bytes.  Of
    the [OSError] the number and its text are kept. *)
Definition create_error (suffix : str) : option exn :=
  if existsb (fun c => ascii_eqb c NUL) suffix then
    Some (ValueError (lit "embedded null byte"))
  else if name_max <? tmp_name_len + utf8_len suffix then
    Some (OSError ENAMETOOLONG (lit "File name too long"))
  else None.

(** [tempfile.NamedTemporaryFile(suffix=suffix, delete=False)]: the name of
    the file it has created, empty. *)
Definition NamedTemporaryFile (suffix : str) : M str := fun w =>
  match create_error suffix with
  | Some e => (Raise e, w)
  | None => let name := next_tmp w ++ suffix in (Ok name, write_file name [] w)
  end.

(** [fitz.open(path)] *)
Definition fitz_open (path : str) : M PdfDocument := fun w =>
  let w' := log_call (FitzOpen path) w in
  match files w !! path with
  | Some data => (fitz_parse w data, w')
  | None => (Raise (ParserError (lit "no such file")), w')
  end.

(** [docx.Document(path)] *)
Definition docx_Document (path : str) : M DocxDocument := fun w =>
  let w' := log_call (DocxOpen path) w in
  match files w !! path with
  | Some data => (docx_parse w data, w')
  | None => (Raise (ParserError (lit "Package not found")), w')
  end.

(** ** PDF extraction *)

(** [len(doc)] *)
Definition len_pages (doc : PdfDocument) : Z := Z.of_nat (length (pdf_pages doc)).

(** [text_blocks.sort(key=lambda b: b[1])]: a stable sort by [block[1]]. *)
Fixpoint insert_block (b : Block) (l : list Block) : list Block :=
  match l with
  | [] => [b]
  | x :: r => if Qle_bool (block_1 b) (block_1 x) then b :: l
              else x :: insert_block b r
  end.

Definition sort_blocks (l : list Block) : list Block := foldr insert_block [] l.

(** [block[4]] when [isinstance(block[4], str)] *)
Definition block_str (b : Block) : option str :=
  match block_4 b with
  | VStr s => Some s
  | _ => None
  end.

(** The text of one page: the blocks in reading order joined by newlines,
    whitespace collapsed, stripped. *)
Definition page_text_of (text_blocks : list Block) : str :=
  strip (collapse_whitespace (join [NL] (omap block_str (sort_blocks text_blocks)))).

(** The loop over [enumerate(doc)], from index [page_num] on. *)
Fixpoint pdf_all_text (page_num : Z) (pages : list (list Block)) : list PageInfo :=
  match pages with
  | [] => []
  | page :: rest =>
      let page_text := page_text_of page in
      (if nonempty page_text then [mkPageInfo (page_num + 1) page_text] else [])
      ++ pdf_all_text (page_num + 1) rest
  end.

(** [doc.metadata.get(key, "")] *)
Definition get_or_empty (m : gmap string value) (key : string) : value :=
  default (VStr []) (m !! key).

Definition pdf_metadata_dict (doc : PdfDocument) (pdf_path : str) : gmap string value :=
  <["title"%string := get_or_empty (pdf_metadata doc) "title"]>
  (<["author"%string := get_or_empty (pdf_metadata doc) "author"]>
  (<["subject"%string := get_or_empty (pdf_metadata doc) "subject"]>
  (<["creator"%string := get_or_empty (pdf_metadata doc) "creator"]>
  (<["producer"%string := get_or_empty (pdf_metadata doc) "producer"]>
  (<["total_pages"%string := VInt (len_pages doc)]>
  (<["file_name"%string := VStr (basename pdf_path)]>
  (<["file_type"%string := VStr (lit "pdf")]> ∅))))))).

Definition extract_text_from_pdf (pdf_path : str) (chunk_size chunk_overlap : Z)
    : M (list Document) := fun w =>
  if negb (path_exists w pdf_path) then
    (Raise (FileNotFoundError (lit "PDF file not found: " ++ pdf_path)), w)
  else
    match fitz_open pdf_path w with
    | (Raise e, w') => (Raise e, w')
    | (Ok doc, w') =>
        let metadata := pdf_metadata_dict doc pdf_path in
        let all_text := pdf_all_text 0 (pdf_pages doc) in
        match all_text with
        | [] => (Ok [], w')
        | _ => (create_document_chunks all_text metadata chunk_size chunk_overlap, w')
        end
    end.

(** ** DOCX extraction *)

(** [x or ""] *)
Definition or_empty (x : option str) : str :=
  match x with
  | Some (c :: s) => c :: s
  | _ => []
  end.

Definition docx_metadata_dict (doc : DocxDocument) (docx_path : str)
    : gmap string value :=
  <["title"%string := VStr (or_empty (core_title doc))]>
  (<["author"%string := VStr (or_empty (core_author doc))]>
  (<["subject"%string := VStr (or_empty (core_subject doc))]>
  (<["file_name"%string := VStr (basename docx_path)]>
  (<["file_type"%string := VStr (lit "docx")]> ∅)))).

(** [[t.strip() for t in texts if t.strip()]] *)
Definition stripped_texts (texts : list str) : list str :=
  filter (fun t => nonempty t = true) (map strip texts).

(** [paragraphs_text]: the body paragraphs, then the cells of the tables. *)
Definition paragraphs_text_of (doc : DocxDocument) : list str :=
  stripped_texts (docx_paragraphs doc)
  ++ stripped_texts (concat (concat (docx_tables doc))).

(** The constant of the comparison [len(current_page_text) > 3000].  The
    compiled source keeps the high byte [0x0b] of this constant and not its
    low byte, which is [0x80] or more: the value lies between 2944 and 3071,
    and the statements that depend on it are proved for that whole range. *)
Definition page_threshold : Z := 3000.


(** The loop over [paragraphs_text] that cuts synthetic pages, and the
    final page after it. *)
Fixpoint docx_all_text (threshold : Z) (paragraphs_text : list str)
    (all_text : list PageInfo) (current_page_text : str) (current_page : Z)
    : list PageInfo :=
  match paragraphs_text with
  | [] =>
      if nonempty (strip current_page_text)
      then all_text ++ [mkPageInfo current_page (strip current_page_text)]
      else all_text
  | text :: rest =>
      let current_page_text := current_page_text ++ (text ++ [NL; NL]) in
      if threshold <? len current_page_text then
        docx_all_text threshold rest
          (all_text ++ [mkPageInfo current_page (strip current_page_text)])
          [] (current_page + 1)
      else docx_all_text threshold rest all_text current_page_text current_page
  end.

Definition extract_text_from_docx (docx_path : str) (chunk_size chunk_overlap : Z)
    : M (list Document) := fun w =>
  if negb (path_exists w docx_path) then
    (Raise (FileNotFoundError (lit "DOCX file not found: " ++ docx_path)), w)
  else
    match docx_Document docx_path w with
    | (Raise e, w') => (Raise e, w')
    | (Ok doc, w') =>
        let metadata := docx_metadata_dict doc docx_path in
        match paragraphs_text_of doc with
        | [] => (Ok [], w')
        | paragraphs_text =>
            let all_text := docx_all_text page_threshold paragraphs_text [] [] 1 in
            (create_document_chunks all_text metadata chunk_size chunk_overlap, w')
        end
    end.

(** ** Entry points *)

Definition default_chunk_size : Z := 1000.
Definition default_chunk_overlap : Z := 100.
Definition default_filename : str := lit "document.pdf".

(** [doc.metadata['source'] = filename; doc.metadata['file_name'] = filename] *)
Definition set_provenance (filename : str) (doc : Document) : Document :=
  mkDocument (page_content doc)
    (<["file_name"%string := VStr filename]>
       (<["source"%string := VStr filename]> (metadata doc))).

(** [process_document_from_bytes(doc_bytes, filename, chunk_size=1000,
    chunk_overlap=100)]; an optional argument left out is [None].  The
    temporary file is created and written in the [with] block, before the
    [try] statement: an exception of [NamedTemporaryFile] leaves the call
    at once.  After it the [finally] clause removes the file on every way
    out. *)
Definition process_document_from_bytes (doc_bytes : list Byte.byte)
    (filename : str) (chunk_size chunk_overlap : option Z) : M (list Document) :=
  fun w =>
  let chunk_size := default default_chunk_size chunk_size in
  let chunk_overlap := default default_chunk_overlap chunk_overlap in
  let file_ext := (splitext (lower filename)).2 in
  match NamedTemporaryFile file_ext w with
  | (Raise e, w) => (Raise e, w)
  | (Ok temp_path, w) =>
      let w := write_file temp_path doc_bytes w in
      let '(documents, w) :=
        if str_eqb file_ext (lit ".pdf") then
          extract_text_from_pdf temp_path chunk_size chunk_overlap w
        else if str_eqb file_ext (lit ".docx") || str_eqb file_ext (lit ".doc") then
          extract_text_from_docx temp_path chunk_size chunk_overlap w
        else (Raise (ValueError (lit "Unsupported document type: " ++ file_ext)), w) in
      let w := if path_exists w temp_path then remove_file temp_path w else w in
      (fmap_result (map (set_provenance filename)) documents, w)
  end.

(** [process_pdf_from_bytes(pdf_bytes, filename="document.pdf",
    chunk_size=1000, chunk_overlap=100)] *)
Definition process_pdf_from_bytes (pdf_bytes : list Byte.byte)
    (filename : option str) (chunk_size chunk_overlap : option Z)
    : M (list Document) :=
  process_document_from_bytes pdf_bytes (default default_filename filename)
    (Some (default default_chunk_size chunk_size))
    (Some (default default_chunk_overlap chunk_overlap)).

(** ** What the pipeline returns *)

(** [docs] is a chunk sequence that one of the entry points returns, for
    the sizes [chunk_size] and [chunk_overlap] in force. *)
Inductive pipeline_returns (chunk_size chunk_overlap : Z) (docs : list Document)
    : Prop :=
| returns_from_pdf (pdf_path : str) (w w' : World) :
    extract_text_from_pdf pdf_path chunk_size chunk_overlap w = (Ok docs, w') ->
    pipeline_returns chunk_size chunk_overlap docs
| returns_from_docx (docx_path : str) (w w' : World) :
    extract_text_from_docx docx_path chunk_size chunk_overlap w = (Ok docs, w') ->
    pipeline_returns chunk_size chunk_overlap docs
| returns_from_bytes (doc_bytes : list Byte.byte) (filename : str)
    (cs co : option Z) (w w' : World) :
    chunk_size = default default_chunk_size cs ->
    chunk_overlap = default default_chunk_overlap co ->
    process_document_from_bytes doc_bytes filename cs co w = (Ok docs, w') ->
    pipeline_returns chunk_size chunk_overlap docs.

(** [metadata['chunk']] and [metadata['page']] of a returned chunk. *)
Definition chunk_index (d : Document) : option value := metadata d !! "chunk"%string.
Definition page_of (d : Document) : option value := metadata d !! "page"%string.

(** A PDF none of whose pages has text, and a DOCX none of whose paragraphs
    or table cells has. *)
Definition pdf_has_no_text (doc : PdfDocument) : Prop :=
  Forall (fun page => page_text_of page = []) (pdf_pages doc).

Definition docx_has_no_text (doc : DocxDocument) : Prop :=
  Forall (fun t => strip t = []) (docx_paragraphs doc)
  /\ Forall (Forall (Forall (fun t => strip t = []))) (docx_tables doc).

(** * Vocabulary of the properties *)

(** The extension [process_document_from_bytes] dispatches on. *)
Definition file_ext_of (filename : str) : str := (splitext (lower filename)).2.

(** The metadata dictionaries the extractors build: they name the file and
    have no entry under the keys that [create_document_chunks] adds. *)
Definition extractor_metadata (md : gmap string value) : Prop :=
  is_Some (md !! "file_name"%string)
  /\ md !! "page"%string = None /\ md !! "chunk"%string = None.

(** What [process_document_from_bytes] does to a chunk leaves its text,
    its index and its page as they are. *)
Definition keeps_chunk_fields (post : Document -> Document) : Prop :=
  forall d, page_content (post d) = page_content d
            /\ chunk_index (post d) = chunk_index d
            /\ page_of (post d) = page_of d.

(** Two metadata dictionaries that agree except on the file name. *)
Definition same_but_file_name (md1 md2 : gmap string value) : Prop :=
  (forall k : string, k <> "file_name"%string -> md1 !! k = md2 !! k)
  /\ is_Some (md1 !! "file_name"%string) /\ is_Some (md2 !! "file_name"%string).

(** What [process_document_from_bytes] returns, as a function of what the
    two parsers make of the bytes: no file name of the world occurs in it. *)
Definition processed (doc_bytes : list Byte.byte) (filename : str)
    (chunk_size chunk_overlap : Z)
    (fitz : list Byte.byte -> result PdfDocument)
    (docx : list Byte.byte -> result DocxDocument) : result (list Document) :=
  let file_ext := file_ext_of filename in
  if create_error file_ext is Some e then Raise e
  else if str_eqb file_ext (lit ".pdf") then
    doc ← fitz doc_bytes;
    match pdf_all_text 0 (pdf_pages doc) with
    | [] => Ok []
    | all_text =>
        fmap_result (map (set_provenance filename))
          (create_document_chunks all_text (pdf_metadata_dict doc [])
             chunk_size chunk_overlap)
    end
  else if str_eqb file_ext (lit ".docx") || str_eqb file_ext (lit ".doc") then
    doc ← docx doc_bytes;
    match paragraphs_text_of doc with
    | [] => Ok []
    | paragraphs_text =>
        fmap_result (map (set_provenance filename))
          (create_document_chunks
             (docx_all_text page_threshold paragraphs_text [] [] 1)
             (docx_metadata_dict doc []) chunk_size chunk_overlap)
    end
  else Raise (ValueError (lit "Unsupported document type: " ++ file_ext)).

(** A temporary file whose name ends in [suffix] can be created. *)
Definition creatable (suffix : str) : Prop :=
  (NUL ∉ suffix) /\ tmp_name_len + utf8_len suffix <= name_max.

(** [str(n)] formats the integer [n]: it has at most 4300 digits. *)
Definition formats (n : Z) : Prop :=
  (length (str_of_int (Z.abs n)) <= max_str_digits)%nat.

Definition blank (s : str) : Prop := Forall (fun c => isspace c = true) s.

(** A string that neither begins nor ends with whitespace. *)
Definition trimmed (s : str) : Prop :=
  (forall c r, s = c :: r -> isspace c = false)
  /\ (forall x c, s = x ++ [c] -> isspace c = false).

(** What the loop of [_merge_splits] maintains, for the splits [seen] so
    far and the windows [ws] joined so far. *)
Record merge_inv (ts : TextSplitter) (seen : list str) (st : MergeState)
    (ws : list (list str))
    : Prop := mkMergeInv {
  inv_total : total st = len (concat (current_doc st));
  inv_fits : total st <= _chunk_size ts;
  inv_docs : docs st = omap (fun w => _join_docs w []) ws;
  inv_windows :
    Forall (fun w => w <> [] /\ len (concat w) <= _chunk_size ts
                     /\ sublist w seen) ws;
  inv_heads : sublist (omap head ws ++ current_doc st) seen;
  inv_cover :
    forall s, s ∈ seen -> s ∈ current_doc st \/ exists w, w ∈ ws /\ s ∈ w
}.

(** [sep], then a piece, for every piece. *)
Definition alternate (sep : str) (pieces : list str) : list str :=
  concat (map (fun p => [sep; p]) pieces).

(** What holds of a piece [p] that [split_text] makes of [text]: it fits
    the chunk size, is not empty, has no whitespace at either end, and is
    not longer than the text. *)
Definition piece_ok (ts : TextSplitter) (text p : str) : Prop :=
  len p <= _chunk_size ts /\ p <> [] /\ trimmed p /\ len p <= len text.

(** What an entry point returned, the empty list if it raised. *)
Definition returned {A : Type} (r : result (list A) * World) : list A :=
  match r.1 with
  | Ok l => l
  | Raise _ => []
  end.

(** The ['page'] values of a chunk sequence, in order. *)
Definition page_numbers (docs : list Document) : list Z :=
  omap (fun d => match page_of d with Some (VInt n) => Some n | _ => None end) docs.

(** The page values never go down along the sequence. *)
Definition pages_non_decreasing (docs : list Document) : Prop :=
  forall (i j : nat) (p q : Z),
    (i < j)%nat -> page_numbers docs !! i = Some p ->
    page_numbers docs !! j = Some q -> p <= q.

(** The running buffer after all of [paragraphs_text]: every paragraph
    followed by a blank line. *)
Definition docx_buffer (paragraphs_text : list str) : str :=
  concat (map (fun text => text ++ [NL; NL]) paragraphs_text).

(** A test for [trimmed]. *)
Definition trimmedb (s : str) : bool :=
  match head s, last s with
  | Some c, Some d => negb (isspace c) && negb (isspace d)
  | _, _ => true
  end.


(** The page texts of a document, one after the other. *)
Definition source_text (all_text : list PageInfo) : str :=
  concat (map pi_text all_text).


(** A split [carries] a page when it is the marked line of the page, with
    or without the blank line that separates it from the page before. *)
Definition carries (p : PageInfo) (s : str) : Prop :=
  s = page_line p \/ s = [NL; NL] ++ page_line p.

(** A page whose marked line, with the blank line before it, is shorter
    than a chunk, and whose text is on one line. *)
Definition line_fits (chunk_size : Z) (p : PageInfo) : Prop :=
  0 <= pi_page p /\ (NL ∉ pi_text p) /\ len (page_line p) + 2 < chunk_size.

(** The splits that carry the pages: the marked lines, each but the first
    with the blank line before it. *)
Definition page_splits (all_text : list PageInfo) : list str :=
  match map page_line all_text with
  | [] => []
  | l :: ls => l :: map (app [NL; NL]) ls
  end.

(** Every marked page line of the PDF, with the blank line before it, is
    shorter than a chunk. *)
Definition pdf_lines_fit (chunk_size : Z) (doc : PdfDocument) : Prop :=
  Forall (fun p => len (page_line p) + 2 < chunk_size)
         (pdf_all_text 0 (pdf_pages doc)).

(** The pages that runs of paragraphs make, numbered from [first]: the
    paragraphs of a run with a blank line between two of them. *)
Definition docx_pages_of (first : Z) (groups : list (list str)) : list PageInfo :=
  imap (fun i g => mkPageInfo (first + Z.of_nat i) (join [NL; NL] g)) groups.

(** [p] is a stretch of consecutive characters of [text]. *)
Definition substring (p text : str) : Prop := exists a b, text = a ++ p ++ b.

(** The windows that the loop of [_merge_splits] has joined are runs of
    consecutive splits, and the window it is filling is the last of the
    splits seen. *)
Definition runs_inv (seen : list str) (st : MergeState) : Prop :=
  (exists a, seen = a ++ current_doc st)
  /\ Forall (fun doc => exists a w b, seen = a ++ w ++ b /\ doc = strip (concat w))
            (docs st).






(** A page marker as [page_line] writes it, which is also a match of the
    pattern [Page \d+: ]. *)
Definition is_marker (m : str) : Prop :=
  exists ds, ds <> [] /\ Forall (fun c => isdigit c = true) ds
             /\ m = lit "Page " ++ ds ++ lit ": ".

(** [s] is a piece of the combined text that holds the text [c] of a page,
    or a part of it: whitespace, then a page marker or none, then [c],
    which has no match of the pattern; after a marker [c] starts with a
    character that is not whitespace. *)
Definition block (s c : str) : Prop :=
  exists pre m,
    s = pre ++ m ++ c /\ blank pre
    /\ (m = [] \/ (is_marker m /\ exists x r, c = x :: r /\ isspace x = false))
    /\ find_marker c = None.





(** * Documents and worlds to run the pipeline on *)

Definition empty_world : World :=
  mkWorld ∅ (lit "/tmp/tmpk3v9x_2a")
          (fun _ => Raise (ParserError (lit "not a PDF")))
          (fun _ => Raise (ParserError (lit "not a DOCX"))) [].

(** A one-page PDF whose page holds an image block and a blank text block. *)
Definition scanned_pdf : PdfDocument :=
  mkPdfDocument ∅ [[mkBlock 10 VNone; mkBlock 20 (VStr (lit "   "))]].

Definition scanned_world : World :=
  mkWorld ∅ (lit "/tmp/tmp8k2m_q1z") (fun _ => Ok scanned_pdf)
          (fun _ => Raise (ParserError (lit "not a DOCX"))) [].

(** A PDF of two pages, the second longer than a chunk of 16 characters. *)
Definition two_page_pdf : PdfDocument :=
  mkPdfDocument ∅
    [[mkBlock 72 (VStr (lit "Intro"))];
     [mkBlock 72 (VStr (lit "alpha beta gamma delta"))]].

Definition two_page_world : World :=
  mkWorld ∅ (lit "/tmp/tmpw4c1x9_e") (fun _ => Ok two_page_pdf)
          (fun _ => Raise (ParserError (lit "not a DOCX"))) [].

Definition two_page_run : result (list Document) * World :=
  process_document_from_bytes [] (lit "report.pdf") (Some 16) (Some 2)
    two_page_world.

(** The same world with another name for the scratch file. *)
Definition two_page_world' : World :=
  mkWorld ∅ (lit "/tmp/tmp0qz7hd3b") (fun _ => Ok two_page_pdf)
          (fun _ => Raise (ParserError (lit "not a DOCX"))) [].

(** A DOCX with 2500 characters of text: as five paragraphs of 500
    characters, and as a single paragraph. *)
Definition docx_five_paragraphs : DocxDocument :=
  mkDocxDocument None None None (replicate 5 (replicate 500 "a"%char)) [].


(** A DOCX with seven paragraphs of 500 characters: the sixth takes the
    buffer past the threshold. *)
Definition docx_seven_paragraphs : DocxDocument :=
  mkDocxDocument None None None (replicate 7 (replicate 500 "a"%char)) [].

Definition docx_world (doc : DocxDocument) : World :=
  mkWorld (<[lit "/srv/in.docx" := []]> ∅) (lit "/tmp/tmpu2n6r0_y")
          (fun _ => Raise (ParserError (lit "not a PDF"))) (fun _ => Ok doc) [].

(** A one-page PDF whose text has the shape of a page marker in it. *)
Definition marker_pdf : PdfDocument :=
  mkPdfDocument ∅ [[mkBlock 72 (VStr (lit "see Page 3: intro"))]].

Definition marker_world : World :=
  mkWorld ∅ (lit "/tmp/tmpj5t0b2ks") (fun _ => Ok marker_pdf)
          (fun _ => Raise (ParserError (lit "not a DOCX"))) [].

Definition marker_run : result (list Document) * World :=
  process_document_from_bytes [] (lit "notes.pdf") None None marker_world.

Definition two_page_fitting_run : result (list Document) * World :=
  process_document_from_bytes [] (lit "report.pdf") (Some 40) (Some 5)
    two_page_world.


(** A metadata dictionary that has a ['page'] of its own, and the chunks
    of a one-page text made with it. *)
Definition tagged_metadata : gmap string value :=
  {[ "file_name"%string := VStr (lit "a.pdf"); "page"%string := VInt 7 ]}.

Definition tagged_chunks : result (list Document) :=
  create_document_chunks [mkPageInfo 1 (lit "alpha beta")] tagged_metadata 16 2.

Definition tagged_docs : list Document :=
  match tagged_chunks with
  | Ok docs => docs
  | Raise _ => []
  end.

(** A world with the two-page PDF on disk. *)
Definition pdf_world : World :=
  mkWorld (<[lit "/srv/in.pdf" := []]> ∅) (lit "/tmp/tmpd7s3e_5h")
          (fun _ => Ok two_page_pdf)
          (fun _ => Raise (ParserError (lit "not a DOCX"))) [].

(** * Properties *)

(** ** Strings and paths *)

Lemma str_eqb_eq (a b : str) : str_eqb a b = true <-> a = b.
Proof.
  revert b; induction a as [|x a IH]; intros [|y b]; simpl; split;
    try congruence; try done.
  - intros H. apply andb_true_iff in H as [H1 H2].
    apply Ascii.eqb_eq in H1. apply IH in H2. congruence.
  - intros H; inversion H; subst. apply andb_true_iff; split.
    + apply Ascii.eqb_refl.
    + by apply IH.
Qed.

Lemma str_eqb_neq (a b : str) : a <> b -> str_eqb a b = false.
Proof.
  intros H. destruct (str_eqb a b) eqn:E; [|done].
  apply str_eqb_eq in E. contradiction.
Qed.

(** ** The compatibility entry point *)

(** C10: [process_pdf_from_bytes] returns, in every world and for every
    choice of arguments given or left out, what
    [process_document_from_bytes] returns on the same arguments, the
    file name left out being ["document.pdf"]. *)
Theorem process_pdf_from_bytes_alias (pdf_bytes : list Byte.byte)
    (filename : option str) (chunk_size chunk_overlap : option Z) (w : World) :
  process_pdf_from_bytes pdf_bytes filename chunk_size chunk_overlap w
  = process_document_from_bytes pdf_bytes (default (lit "document.pdf") filename)
      chunk_size chunk_overlap w.
Proof.
  unfold process_pdf_from_bytes, process_document_from_bytes.
  destruct chunk_size, chunk_overlap; reflexivity.
Qed.

(** ** Unsupported formats *)

Lemma path_exists_write (path : str) (data : list Byte.byte) (w : World) :
  path_exists (write_file path data w) path = true.
Proof.
  unfold path_exists, write_file; simpl.
  apply bool_decide_eq_true. rewrite lookup_insert_eq. by eexists.
Qed.

Lemma write_file_twice (path : str) (data0 data : list Byte.byte) (w : World) :
  write_file path data (write_file path data0 w) = write_file path data w.
Proof. unfold write_file; simpl. by rewrite insert_insert_eq. Qed.

Lemma create_error_creatable (suffix : str) :
  create_error suffix = None <-> creatable suffix.
Proof.
  unfold create_error, creatable.
  destruct (existsb _ suffix) eqn:E.
  - split; [done|]. intros [Hn _]. exfalso. apply Hn.
    apply existsb_exists in E as (c & Hc & Hx).
    apply Ascii.eqb_eq in Hx. subst c. by apply list_elem_of_In.
  - destruct (Z.ltb_spec name_max (tmp_name_len + utf8_len suffix)).
    + split; [done|]. intros [_ Hl]. lia.
    + split; [|done]. intros _. split; [|lia].
      intros Hn. apply list_elem_of_In in Hn.
      assert (existsb (fun c => ascii_eqb c NUL) suffix = true); [|congruence].
      apply existsb_exists. exists NUL. split; [done|]. apply Ascii.eqb_refl.
Qed.

(** The call once the temporary file has been created. *)
Lemma process_document_from_bytes_created (doc_bytes : list Byte.byte)
    (filename : str) (chunk_size chunk_overlap : option Z) (w : World) :
  create_error (file_ext_of filename) = None ->
  process_document_from_bytes doc_bytes filename chunk_size chunk_overlap w
  = let chunk_size := default default_chunk_size chunk_size in
    let chunk_overlap := default default_chunk_overlap chunk_overlap in
    let file_ext := file_ext_of filename in
    let temp_path := next_tmp w ++ file_ext in
    let w := write_file temp_path doc_bytes w in
    let '(documents, w) :=
      if str_eqb file_ext (lit ".pdf") then
        extract_text_from_pdf temp_path chunk_size chunk_overlap w
      else if str_eqb file_ext (lit ".docx") || str_eqb file_ext (lit ".doc") then
        extract_text_from_docx temp_path chunk_size chunk_overlap w
      else (Raise (ValueError (lit "Unsupported document type: " ++ file_ext)), w) in
    let w := if path_exists w temp_path then remove_file temp_path w else w in
    (fmap_result (map (set_provenance filename)) documents, w).
Proof.
  intros H. unfold process_document_from_bytes, NamedTemporaryFile.
  fold (file_ext_of filename). rewrite H. cbv zeta.
  by rewrite write_file_twice.
Qed.

(** The call when the temporary file cannot be created. *)
Lemma process_document_from_bytes_not_created (doc_bytes : list Byte.byte)
    (filename : str) (chunk_size chunk_overlap : option Z) (w : World) (e : exn) :
  create_error (file_ext_of filename) = Some e ->
  process_document_from_bytes doc_bytes filename chunk_size chunk_overlap w
  = (Raise e, w).
Proof.
  intros H. unfold process_document_from_bytes, NamedTemporaryFile.
  fold (file_ext_of filename). by rewrite H.
Qed.

Lemma supported_is_created (file_ext : str) :
  file_ext = lit ".pdf" \/ file_ext = lit ".docx" \/ file_ext = lit ".doc" ->
  create_error file_ext = None.
Proof. intros [-> | [-> | ->]]; reflexivity. Qed.

Lemma not_created_is_unsupported (file_ext : str) (e : exn) :
  create_error file_ext = Some e ->
  str_eqb file_ext (lit ".pdf") = false
  /\ str_eqb file_ext (lit ".docx") || str_eqb file_ext (lit ".doc") = false.
Proof.
  intros H. split.
  - destruct (str_eqb file_ext (lit ".pdf")) eqn:E; [|done].
    apply str_eqb_eq in E. subst. discriminate H.
  - apply orb_false_iff. split.
    + destruct (str_eqb file_ext (lit ".docx")) eqn:E; [|done].
      apply str_eqb_eq in E. subst. discriminate H.
    + destruct (str_eqb file_ext (lit ".doc")) eqn:E; [|done].
      apply str_eqb_eq in E. subst. discriminate H.
Qed.

(** C6, as stated, fails: the extension [.t] followed by a NUL character
    is none of [.pdf], [.docx] and [.doc], and the call raises the
    [ValueError] of the temporary file that cannot be created, which is
    not the "Unsupported document type" error. *)
Lemma nul_extension_counterexample :
  let filename := lit "notes.t" ++ [NUL] in
  let file_ext := (splitext (lower filename)).2 in
  (file_ext <> lit ".pdf" /\ file_ext <> lit ".docx" /\ file_ext <> lit ".doc")
  /\ (process_document_from_bytes [] filename None None empty_world).1
     = Raise (ValueError (lit "embedded null byte"))
  /\ (process_document_from_bytes [] filename None None empty_world).1
     <> Raise (ValueError (lit "Unsupported document type: " ++ file_ext)).
Proof.
  intros filename file_ext.
  assert (Hr : (process_document_from_bytes [] filename None None empty_world).1
               = Raise (ValueError (lit "embedded null byte")))
    by (vm_compute; reflexivity).
  split; [repeat split; vm_compute; congruence|].
  split; [exact Hr|]. rewrite Hr. vm_compute. congruence.
Qed.

(** C6, amended: when the extension of the lower-cased file name is none of
    [.pdf], [.docx] and [.doc], [process_document_from_bytes] raises an
    exception and no parser call has been made when it does.  The
    exception is the "Unsupported document type" error when a temporary
    file with that extension can be created, that is when the extension
    has no NUL character and the file name stays within 255 bytes;
    otherwise it is the error of the creation, the [ValueError] of the NUL
    character or else the [OSError] of the name too long. *)
Theorem unsupported_extension_raises (doc_bytes : list Byte.byte)
    (filename : str) (chunk_size chunk_overlap : option Z) (w : World) :
  let file_ext := (splitext (lower filename)).2 in
  file_ext <> lit ".pdf" -> file_ext <> lit ".docx" -> file_ext <> lit ".doc" ->
  let r := process_document_from_bytes doc_bytes filename chunk_size chunk_overlap w in
  (creatable file_ext ->
   r.1 = Raise (ValueError (lit "Unsupported document type: " ++ file_ext)))
  /\ (NUL ∈ file_ext -> r.1 = Raise (ValueError (lit "embedded null byte")))
  /\ ((NUL ∉ file_ext) -> name_max < tmp_name_len + utf8_len file_ext ->
      r.1 = Raise (OSError ENAMETOOLONG (lit "File name too long")))
  /\ (exists e, r.1 = Raise e)
  /\ parser_calls r.2 = parser_calls w.
Proof.
  intros file_ext Hpdf Hdocx Hdoc r.
  assert (Hc : create_error file_ext = None ->
               r = (Raise (ValueError (lit "Unsupported document type: "
                                       ++ file_ext)),
                    remove_file (next_tmp w ++ file_ext)
                      (write_file (next_tmp w ++ file_ext) doc_bytes w))).
  { intros Hc. subst r. unfold file_ext in *.
    rewrite process_document_from_bytes_created by exact Hc.
    unfold file_ext_of. cbv zeta.
    rewrite (str_eqb_neq _ _ Hpdf), (str_eqb_neq _ _ Hdocx),
      (str_eqb_neq _ _ Hdoc).
    simpl. by rewrite path_exists_write. }
  assert (Hn : forall e, create_error file_ext = Some e -> r = (Raise e, w)).
  { intros e He. apply process_document_from_bytes_not_created. exact He. }
  repeat split.
  - intros Hcr. apply create_error_creatable in Hcr. by rewrite (Hc Hcr).
  - intros Hnul. rewrite (Hn (ValueError (lit "embedded null byte"))); [done|].
    unfold create_error.
    assert (existsb (fun c => ascii_eqb c NUL) file_ext = true) as ->; [|done].
    apply existsb_exists. exists NUL. split; [by apply list_elem_of_In|].
    apply Ascii.eqb_refl.
  - intros Hnul Hlong.
    rewrite (Hn (OSError ENAMETOOLONG (lit "File name too long"))); [done|].
    unfold create_error.
    destruct (existsb _ file_ext) eqn:E.
    + exfalso. apply Hnul. apply existsb_exists in E as (c & Hin & Hx).
      apply Ascii.eqb_eq in Hx. subst c. by apply list_elem_of_In.
    + destruct (Z.ltb_spec name_max (tmp_name_len + utf8_len file_ext)); [done|lia].
  - destruct (create_error file_ext) as [e|] eqn:E.
    + exists e. by rewrite (Hn e).
    + eexists. by rewrite Hc.
  - destruct (create_error file_ext) as [e|] eqn:E.
    + by rewrite (Hn e).
    + by rewrite Hc.
Qed.

Lemma unsupported_extension_raises_witness :
  (process_document_from_bytes [] (lit "Notes.TXT") None None empty_world).1
  = Raise (ValueError (lit "Unsupported document type: .txt"))
  /\ parser_calls
       (process_document_from_bytes [] (lit "Notes.TXT") None None empty_world).2
     = [].
Proof.
  destruct (unsupported_extension_raises [] (lit "Notes.TXT") None None empty_world)
    as (H & _ & _ & _ & Hp); try (vm_compute; congruence).
  split; [|exact Hp]. apply H. apply create_error_creatable. reflexivity.
Defined.

(** ** Documents without text *)

Lemma pdf_all_text_no_text (page_num : Z) (pages : list (list Block)) :
  Forall (fun page => page_text_of page = []) pages ->
  pdf_all_text page_num pages = [].
Proof.
  intros H; revert page_num; induction H as [|page rest Hp _ IH]; intros n; simpl.
  - reflexivity.
  - rewrite Hp. simpl. apply IH.
Qed.

Lemma stripped_texts_no_text (texts : list str) :
  Forall (fun t => strip t = []) texts -> stripped_texts texts = [].
Proof.
  unfold stripped_texts. induction 1 as [|t rest Ht _ IH]; simpl.
  - reflexivity.
  - rewrite Ht. rewrite filter_cons_False by (simpl; congruence). exact IH.
Qed.

Lemma paragraphs_text_no_text (doc : DocxDocument) :
  docx_has_no_text doc -> paragraphs_text_of doc = [].
Proof.
  intros [Hp Ht]. unfold paragraphs_text_of.
  rewrite (stripped_texts_no_text _ Hp). simpl.
  apply stripped_texts_no_text.
  do 2 apply Forall_concat. exact Ht.
Qed.

Lemma extract_pdf_no_text (pdf_path : str) (chunk_size chunk_overlap : Z)
    (w : World) (data : list Byte.byte) (doc : PdfDocument) :
  files w !! pdf_path = Some data -> fitz_parse w data = Ok doc ->
  pdf_has_no_text doc ->
  (extract_text_from_pdf pdf_path chunk_size chunk_overlap w).1 = Ok [].
Proof.
  intros Hfile Hparse Hno. unfold extract_text_from_pdf, path_exists.
  rewrite bool_decide_eq_true_2 by (rewrite Hfile; by eexists). simpl.
  unfold fitz_open. rewrite Hfile, Hparse.
  by rewrite (pdf_all_text_no_text 0 _ Hno).
Qed.

Lemma extract_docx_no_text (docx_path : str) (chunk_size chunk_overlap : Z)
    (w : World) (data : list Byte.byte) (doc : DocxDocument) :
  files w !! docx_path = Some data -> docx_parse w data = Ok doc ->
  docx_has_no_text doc ->
  (extract_text_from_docx docx_path chunk_size chunk_overlap w).1 = Ok [].
Proof.
  intros Hfile Hparse Hno. unfold extract_text_from_docx, path_exists.
  rewrite bool_decide_eq_true_2 by (rewrite Hfile; by eexists). simpl.
  unfold docx_Document. rewrite Hfile, Hparse.
  by rewrite (paragraphs_text_no_text _ Hno).
Qed.

(** C5: a document that parses and has no text gives the empty chunk
    sequence as a normal return, from [extract_text_from_pdf], from
    [extract_text_from_docx], and from [process_document_from_bytes] for
    either format. *)
Theorem no_text_is_empty_success :
  (forall pdf_path chunk_size chunk_overlap w data doc,
      files w !! pdf_path = Some data -> fitz_parse w data = Ok doc ->
      pdf_has_no_text doc ->
      (extract_text_from_pdf pdf_path chunk_size chunk_overlap w).1 = Ok [])
  /\ (forall docx_path chunk_size chunk_overlap w data doc,
      files w !! docx_path = Some data -> docx_parse w data = Ok doc ->
      docx_has_no_text doc ->
      (extract_text_from_docx docx_path chunk_size chunk_overlap w).1 = Ok [])
  /\ (forall doc_bytes filename chunk_size chunk_overlap w doc,
      file_ext_of filename = lit ".pdf" ->
      fitz_parse w doc_bytes = Ok doc -> pdf_has_no_text doc ->
      (process_document_from_bytes doc_bytes filename chunk_size chunk_overlap w).1
      = Ok [])
  /\ (forall doc_bytes filename chunk_size chunk_overlap w doc,
      file_ext_of filename = lit ".docx" \/ file_ext_of filename = lit ".doc" ->
      docx_parse w doc_bytes = Ok doc -> docx_has_no_text doc ->
      (process_document_from_bytes doc_bytes filename chunk_size chunk_overlap w).1
      = Ok []).
Proof.
  split; [exact extract_pdf_no_text|].
  split; [exact extract_docx_no_text|].
  split.
  - intros doc_bytes filename cs co w doc Hext Hparse Hno.
    rewrite process_document_from_bytes_created
      by (apply supported_is_created; auto).
    cbv zeta. rewrite Hext. simpl str_eqb. cbv iota.
    set (w1 := write_file _ _ w).
    pose proof (extract_pdf_no_text (next_tmp w ++ lit ".pdf")
                  (default default_chunk_size cs) (default default_chunk_overlap co)
                  w1 doc_bytes doc) as H.
    destruct (extract_text_from_pdf _ _ _ w1) as [r w2]. simpl in *.
    rewrite H; [reflexivity| |exact Hparse|exact Hno].
    subst w1; simpl. apply lookup_insert_eq.
  - intros doc_bytes filename cs co w doc Hext Hparse Hno.
    rewrite process_document_from_bytes_created
      by (apply supported_is_created; tauto).
    cbv zeta.
    set (w1 := write_file _ _ w).
    pose proof (extract_docx_no_text (next_tmp w ++ file_ext_of filename)
                  (default default_chunk_size cs) (default default_chunk_overlap co)
                  w1 doc_bytes doc) as H.
    assert (Hsel : str_eqb (file_ext_of filename) (lit ".pdf") = false
                   /\ str_eqb (file_ext_of filename) (lit ".docx")
                      || str_eqb (file_ext_of filename) (lit ".doc") = true).
    { destruct Hext as [-> | ->]; split; reflexivity. }
    destruct Hsel as [-> ->].
    destruct (extract_text_from_docx _ _ _ w1) as [r w2]. simpl in *.
    rewrite H; [reflexivity| |exact Hparse|exact Hno].
    subst w1; simpl. apply lookup_insert_eq.
Qed.

Lemma no_text_is_empty_success_witness :
  (process_document_from_bytes [] (lit "scan.pdf") None None scanned_world).1 = Ok [].
Proof.
  destruct no_text_is_empty_success as (_ & _ & H & _).
  apply (H [] (lit "scan.pdf") None None scanned_world scanned_pdf).
  - reflexivity.
  - reflexivity.
  - repeat constructor.
Defined.

(** ** From the entry points back to [create_document_chunks] *)

Lemma fmap_result_ok {A B : Type} (f : A -> B) (r : result A) (b : B) :
  fmap_result f r = Ok b -> exists a, r = Ok a /\ b = f a.
Proof. destruct r; simpl; intros H; inversion H; eauto. Qed.

Lemma extract_pdf_inv (pdf_path : str) (chunk_size chunk_overlap : Z)
    (w w' : World) (docs : list Document) :
  extract_text_from_pdf pdf_path chunk_size chunk_overlap w = (Ok docs, w') ->
  docs = [] \/
  exists doc, pdf_all_text 0 (pdf_pages doc) <> [] /\
    create_document_chunks (pdf_all_text 0 (pdf_pages doc))
      (pdf_metadata_dict doc pdf_path) chunk_size chunk_overlap = Ok docs.
Proof.
  unfold extract_text_from_pdf.
  destruct (path_exists w pdf_path); simpl; [|congruence].
  destruct (fitz_open pdf_path w) as [[doc|e] w1]; [|congruence].
  destruct (pdf_all_text 0 (pdf_pages doc)) as [|p ps] eqn:E.
  - intros H; inversion H; auto.
  - intros H; inversion H. right. exists doc. rewrite E. split; [done|].
    reflexivity.
Qed.

Lemma extract_docx_inv (docx_path : str) (chunk_size chunk_overlap : Z)
    (w w' : World) (docs : list Document) :
  extract_text_from_docx docx_path chunk_size chunk_overlap w = (Ok docs, w') ->
  docs = [] \/
  exists doc, paragraphs_text_of doc <> [] /\
    create_document_chunks
      (docx_all_text page_threshold (paragraphs_text_of doc) [] [] 1)
      (docx_metadata_dict doc docx_path) chunk_size chunk_overlap = Ok docs.
Proof.
  unfold extract_text_from_docx.
  destruct (path_exists w docx_path); simpl; [|congruence].
  destruct (docx_Document docx_path w) as [[doc|e] w1]; [|congruence].
  destruct (paragraphs_text_of doc) as [|p ps] eqn:E.
  - intros H; inversion H; auto.
  - intros H; inversion H. right. exists doc. rewrite E. split; [done|].
    reflexivity.
Qed.

Lemma pdf_metadata_dict_ok (doc : PdfDocument) (pdf_path : str) :
  extractor_metadata (pdf_metadata_dict doc pdf_path).
Proof. unfold extractor_metadata, pdf_metadata_dict. by simplify_map_eq. Qed.

Lemma docx_metadata_dict_ok (doc : DocxDocument) (docx_path : str) :
  extractor_metadata (docx_metadata_dict doc docx_path).
Proof. unfold extractor_metadata, docx_metadata_dict. by simplify_map_eq. Qed.

Lemma set_provenance_keeps (filename : str) :
  keeps_chunk_fields (set_provenance filename).
Proof.
  intros d. unfold set_provenance, chunk_index, page_of; simpl.
  by rewrite !lookup_insert_ne.
Qed.

Lemma pipeline_returns_inv (chunk_size chunk_overlap : Z) (docs : list Document) :
  pipeline_returns chunk_size chunk_overlap docs ->
  docs = [] \/
  exists all_text md docs0 post,
    create_document_chunks all_text md chunk_size chunk_overlap = Ok docs0
    /\ docs = map post docs0 /\ keeps_chunk_fields post /\ extractor_metadata md.
Proof.
  assert (Hid : keeps_chunk_fields id) by (intros d; auto).
  intros [pdf_path w w' H | docx_path w w' H | doc_bytes filename cs co w w' -> -> H].
  - apply extract_pdf_inv in H as [->|(doc & _ & H)]; [auto|right].
    exists (pdf_all_text 0 (pdf_pages doc)), (pdf_metadata_dict doc pdf_path), docs, id.
    rewrite map_id. auto using pdf_metadata_dict_ok.
  - apply extract_docx_inv in H as [->|(doc & _ & H)]; [auto|right].
    exists (docx_all_text page_threshold (paragraphs_text_of doc) [] [] 1),
      (docx_metadata_dict doc docx_path), docs, id.
    rewrite map_id. auto using docx_metadata_dict_ok.
  - destruct (create_error (file_ext_of filename)) as [e|] eqn:Hc;
      [by rewrite (process_document_from_bytes_not_created _ _ _ _ _ _ Hc) in H|].
    rewrite (process_document_from_bytes_created _ _ _ _ _ Hc) in H.
    cbv zeta in H.
    set (tp := next_tmp w ++ _) in H. set (w1 := write_file tp doc_bytes w) in H.
    destruct (str_eqb _ (lit ".pdf")).
    + destruct (extract_text_from_pdf tp _ _ w1) as [r w2] eqn:E.
      inversion H as [[Hr Hw]]. apply fmap_result_ok in Hr as (docs0 & -> & ->).
      apply extract_pdf_inv in E as [->|(doc & _ & E)]; [auto|right].
      exists (pdf_all_text 0 (pdf_pages doc)), (pdf_metadata_dict doc tp), docs0,
        (set_provenance filename).
      auto using pdf_metadata_dict_ok, set_provenance_keeps.
    + destruct (_ || _).
      * destruct (extract_text_from_docx tp _ _ w1) as [r w2] eqn:E.
        inversion H as [[Hr Hw]]. apply fmap_result_ok in Hr as (docs0 & -> & ->).
        apply extract_docx_inv in E as [->|(doc & _ & E)]; [auto|right].
        exists (docx_all_text page_threshold (paragraphs_text_of doc) [] [] 1),
          (docx_metadata_dict doc tp), docs0, (set_provenance filename).
        auto using docx_metadata_dict_ok, set_provenance_keeps.
      * inversion H.
Qed.

(** ** Chunk indices *)

Lemma make_document_fields (md : gmap string value) (i : Z) (chunk : str)
    (doc : Document) :
  make_document md i chunk = Ok doc ->
  page_content doc = sub_page_markers chunk
  /\ (md !! "chunk"%string = None -> chunk_index doc = Some (VInt (i + 1)))
  /\ (md !! "page"%string = None ->
      exists n, page_num_of chunk = Ok n /\ page_of doc = Some (VInt n)).
Proof.
  unfold make_document. destruct (page_num_of chunk) as [n|e]; simpl; [|congruence].
  destruct (getitem md "file_name") as [src|e]; simpl; [|congruence].
  intros H; inversion H; subst; clear H. simpl. split; [reflexivity|].
  unfold chunk_index, page_of; simpl. split.
  - intros Hmd. rewrite lookup_union_r by done. by simplify_map_eq.
  - intros Hmd. exists n. split; [done|].
    rewrite lookup_union_r by done. by simplify_map_eq.
Qed.

Lemma make_documents_cons_inv (md : gmap string value) (i : Z) (chunk : str)
    (rest : list str) (docs : list Document) :
  make_documents md i (chunk :: rest) = Ok docs ->
  exists doc docs', make_document md i chunk = Ok doc
    /\ make_documents md (i + 1) rest = Ok docs' /\ docs = doc :: docs'.
Proof.
  simpl. destruct (make_document md i chunk) as [doc|e]; simpl; [|congruence].
  destruct (make_documents md (i + 1) rest) as [docs'|e]; simpl; [|congruence].
  intros H; inversion H; eauto.
Qed.

Lemma make_documents_indices (md : gmap string value) (chunks : list str) :
  md !! "chunk"%string = None ->
  forall (i : Z) (docs : list Document),
    make_documents md i chunks = Ok docs ->
    length docs = length chunks
    /\ map chunk_index docs
       = map (fun k => Some (VInt k)) (seqZ (i + 1) (Z.of_nat (length docs))).
Proof.
  intros Hmd. induction chunks as [|chunk rest IH]; intros i docs H.
  - simpl in H. inversion H; subst. split; reflexivity.
  - apply make_documents_cons_inv in H as (doc & docs' & Hd & Hr & ->).
    destruct (IH _ _ Hr) as [Hlen Hidx].
    apply make_document_fields in Hd as (_ & Hc & _).
    split; [simpl; lia|].
    rewrite length_cons, Nat2Z.inj_succ, seqZ_cons by lia. simpl.
    rewrite Hc by done. f_equal.
    rewrite Z.pred_succ. replace (Z.succ (i + 1)) with (i + 1 + 1) by lia.
    exact Hidx.
Qed.

Lemma create_document_chunks_inv (all_text : list PageInfo)
    (md : gmap string value) (chunk_size chunk_overlap : Z) (docs : list Document) :
  create_document_chunks all_text md chunk_size chunk_overlap = Ok docs ->
  exists ts chunks,
    RecursiveCharacterTextSplitter chunk_size chunk_overlap chunk_separators = Ok ts
    /\ split_text ts (combined_text all_text) = Ok chunks
    /\ make_documents md 0 chunks = Ok docs.
Proof.
  unfold create_document_chunks.
  destruct (RecursiveCharacterTextSplitter _ _ _) as [ts|e]; simpl; [|congruence].
  destruct (split_text ts _) as [chunks|e] eqn:E; simpl; [|congruence].
  intros H. exists ts, chunks. auto.
Qed.

(** C2: in a chunk sequence that the pipeline returns, the ['chunk']
    metadata values are 1, 2, ..., N in this order, N being the number of
    chunks returned. *)
Theorem chunk_indices_are_1_to_N (chunk_size chunk_overlap : Z)
    (docs : list Document) :
  pipeline_returns chunk_size chunk_overlap docs ->
  map chunk_index docs
  = map (fun k => Some (VInt k)) (seqZ 1 (Z.of_nat (length docs))).
Proof.
  intros H. apply pipeline_returns_inv in H
    as [->|(all_text & md & docs0 & post & Hc & -> & Hpost & _ & _ & Hmd)];
    [reflexivity|].
  apply create_document_chunks_inv in Hc as (ts & chunks & _ & _ & Hm).
  apply (make_documents_indices md chunks Hmd) in Hm as [_ Hidx].
  change (0 + 1) with 1 in Hidx.
  rewrite length_map, <- Hidx, map_map.
  apply map_ext. intros d. apply Hpost.
Qed.

(** ** Independence from the scratch-file name *)

Lemma make_document_provenance (md1 md2 : gmap string value) (filename : str)
    (i : Z) (chunk : str) :
  same_but_file_name md1 md2 ->
  fmap_result (set_provenance filename) (make_document md1 i chunk)
  = fmap_result (set_provenance filename) (make_document md2 i chunk).
Proof.
  intros (Hk & [v1 H1] & [v2 H2]). unfold make_document, getitem.
  rewrite H1, H2. destruct (page_num_of chunk) as [n|e]; simpl; [|reflexivity].
  unfold set_provenance; simpl. do 2 f_equal.
  apply map_eq; intros k.
  destruct (decide (k = "file_name"%string)) as [->|Hfn];
    [by rewrite !lookup_insert_eq|].
  rewrite !(lookup_insert_ne _ "file_name"%string) by done.
  destruct (decide (k = "source"%string)) as [->|Hsrc];
    [by rewrite !lookup_insert_eq|].
  rewrite !(lookup_insert_ne _ "source"%string) by done.
  rewrite !lookup_union, (Hk k Hfn). f_equal.
  rewrite !lookup_insert. repeat case_decide; done.
Qed.

Lemma make_documents_provenance (md1 md2 : gmap string value) (filename : str)
    (chunks : list str) :
  same_but_file_name md1 md2 ->
  forall i : Z,
    fmap_result (map (set_provenance filename)) (make_documents md1 i chunks)
    = fmap_result (map (set_provenance filename)) (make_documents md2 i chunks).
Proof.
  intros Hmd. induction chunks as [|chunk rest IH]; intros i; simpl; [reflexivity|].
  pose proof (make_document_provenance md1 md2 filename i chunk Hmd) as Hd.
  specialize (IH (i + 1)).
  destruct (make_document md1 i chunk) as [d1|e1],
           (make_document md2 i chunk) as [d2|e2]; simpl in *; try congruence.
  destruct (make_documents md1 (i + 1) rest) as [r1|e1],
           (make_documents md2 (i + 1) rest) as [r2|e2]; simpl in *; try congruence.
Qed.

Lemma create_document_chunks_provenance (md1 md2 : gmap string value)
    (filename : str) (all_text : list PageInfo) (chunk_size chunk_overlap : Z) :
  same_but_file_name md1 md2 ->
  fmap_result (map (set_provenance filename))
    (create_document_chunks all_text md1 chunk_size chunk_overlap)
  = fmap_result (map (set_provenance filename))
      (create_document_chunks all_text md2 chunk_size chunk_overlap).
Proof.
  intros Hmd. unfold create_document_chunks.
  destruct (RecursiveCharacterTextSplitter _ _ _) as [ts|e]; simpl; [|reflexivity].
  destruct (split_text ts _) as [chunks|e]; simpl; [|reflexivity].
  by apply make_documents_provenance.
Qed.

Lemma pdf_metadata_dict_same (doc : PdfDocument) (path1 path2 : str) :
  same_but_file_name (pdf_metadata_dict doc path1) (pdf_metadata_dict doc path2).
Proof.
  unfold same_but_file_name, pdf_metadata_dict. split; [|by simplify_map_eq].
  intros k Hk. rewrite !lookup_insert. repeat case_decide; done.
Qed.

Lemma docx_metadata_dict_same (doc : DocxDocument) (path1 path2 : str) :
  same_but_file_name (docx_metadata_dict doc path1) (docx_metadata_dict doc path2).
Proof.
  unfold same_but_file_name, docx_metadata_dict. split; [|by simplify_map_eq].
  intros k Hk. rewrite !lookup_insert. repeat case_decide; done.
Qed.

Lemma process_document_from_bytes_processed (doc_bytes : list Byte.byte)
    (filename : str) (chunk_size chunk_overlap : option Z) (w : World) :
  (process_document_from_bytes doc_bytes filename chunk_size chunk_overlap w).1
  = processed doc_bytes filename (default default_chunk_size chunk_size)
      (default default_chunk_overlap chunk_overlap) (fitz_parse w) (docx_parse w).
Proof.
  unfold processed. cbv zeta.
  destruct (create_error (file_ext_of filename)) as [e|] eqn:Hc;
    [by rewrite (process_document_from_bytes_not_created _ _ _ _ _ _ Hc)|].
  rewrite (process_document_from_bytes_created _ _ _ _ _ Hc). cbv zeta.
  set (tp := next_tmp w ++ _). set (w1 := write_file tp doc_bytes w).
  assert (Hfile : files w1 !! tp = Some doc_bytes) by apply lookup_insert_eq.
  assert (Hex : path_exists w1 tp = true) by apply path_exists_write.
  destruct (str_eqb _ (lit ".pdf")).
  - unfold extract_text_from_pdf, fitz_open. rewrite Hex, Hfile. simpl.
    destruct (fitz_parse w doc_bytes) as [doc|e]; simpl; [|reflexivity].
    destruct (pdf_all_text 0 (pdf_pages doc)) as [|p ps]; simpl; [reflexivity|].
    apply create_document_chunks_provenance, pdf_metadata_dict_same.
  - destruct (_ || _); [|reflexivity].
    unfold extract_text_from_docx, docx_Document. rewrite Hex, Hfile. simpl.
    destruct (docx_parse w doc_bytes) as [doc|e]; simpl; [|reflexivity].
    destruct (paragraphs_text_of doc) as [|p ps]; simpl; [reflexivity|].
    apply create_document_chunks_provenance, docx_metadata_dict_same.
Qed.

(** C9: two runs of [process_document_from_bytes] on the same bytes, file
    name and sizes, in worlds with the same parsers, return the same
    result, chunk texts and metadata alike, whatever names the two worlds
    give to the scratch file and whatever files they hold. *)
Theorem two_runs_agree (doc_bytes : list Byte.byte) (filename : str)
    (chunk_size chunk_overlap : option Z) (w1 w2 : World) :
  fitz_parse w1 = fitz_parse w2 -> docx_parse w1 = docx_parse w2 ->
  (process_document_from_bytes doc_bytes filename chunk_size chunk_overlap w1).1
  = (process_document_from_bytes doc_bytes filename chunk_size chunk_overlap w2).1.
Proof.
  intros Hf Hd. rewrite !process_document_from_bytes_processed.
  by rewrite Hf, Hd.
Qed.

Lemma sub_page_markers_eq (text : str) :
  sub_page_markers text
  = match find_marker text with
    | Some (a, b) => a ++ sub_page_markers b
    | None => text
    end.
Proof.
  rewrite sub_page_markers_equation_1.
  enough (H : forall o (e : find_marker text = o),
             sub_page_markers_unfold_clause_1 text (exist _ o e)
             = match o with
               | Some (a, b) => a ++ sub_page_markers b
               | None => text
               end) by apply H.
  intros [[a b]|] e; reflexivity.
Qed.

Lemma re_split_eq (s0 : ascii) (s' text : str) :
  re_split s0 s' text
  = match partition (s0 :: s') text with
    | Some (a, b) => a :: (s0 :: s') :: re_split s0 s' b
    | None => [text]
    end.
Proof.
  rewrite re_split_equation_1.
  enough (H : forall o (e : partition (s0 :: s') text = o),
             re_split_unfold_clause_1 s0 s' text (exist _ o e)
             = match o with
               | Some (a, b) => a :: (s0 :: s') :: re_split s0 s' b
               | None => [text]
               end) by apply H.
  intros [[a b]|] e; reflexivity.
Qed.

Lemma _split_text_eq (ts : TextSplitter) (text : str) (separators : list str) :
  _split_text ts text separators
  = match choose_separator text separators with
    | Raise e => Raise e
    | Ok (separator, new_separators) =>
        splits ← _split_text_with_regex text separator;
        split_loop ts
          (match new_separators with
           | [] => None
           | _ => Some (fun s => _split_text ts s new_separators)
           end) [] splits [] []
    end.
Proof.
  rewrite _split_text_equation_1.
  enough (H : forall o (e : choose_separator text separators = o),
             _split_text_unfold_clause_1 ts text separators (exist _ o e)
             = match o with
               | Raise e => Raise e
               | Ok (separator, new_separators) =>
                   splits ← _split_text_with_regex text separator;
                   split_loop ts
                     (match new_separators with
                      | [] => None
                      | _ => Some (fun s => _split_text ts s new_separators)
                      end) [] splits [] []
               end) by apply H.
  intros [[sep [|n ns]]|e] Heq; reflexivity.
Qed.

(** ** Lengths, stripping *)

Lemma len_app (a b : str) : len (a ++ b) = len a + len b.
Proof. unfold len. rewrite length_app. lia. Qed.

Lemma len_nonneg (s : str) : 0 <= len s.
Proof. unfold len. lia. Qed.

Lemma join_nil (parts : list str) : join [] parts = concat parts.
Proof.
  induction parts as [|p [|q r] IH]; simpl in *; [done| by rewrite app_nil_r |].
  by rewrite IH.
Qed.

Lemma lstrip_split (s : str) : exists p, s = p ++ lstrip s /\ blank p.
Proof.
  induction s as [|c r (p & Hp & Hb)]; simpl.
  - exists []. split; [done|constructor].
  - destruct (isspace c) eqn:E.
    + exists (c :: p). split; [simpl; congruence|by constructor].
    + exists []. split; [done|constructor].
Qed.

Lemma lstrip_head (s : str) (c : ascii) (r : str) :
  lstrip s = c :: r -> isspace c = false.
Proof.
  induction s as [|x s IH]; simpl; [done|].
  destruct (isspace x) eqn:E; [done|]. intros H; inversion H; congruence.
Qed.

Lemma lstrip_blank (s : str) : blank s -> lstrip s = [].
Proof. induction 1 as [|c r Hc _ IH]; simpl; [done|]. by rewrite Hc. Qed.

Lemma lstrip_nonspace (c : ascii) (r : str) :
  isspace c = false -> lstrip (c :: r) = c :: r.
Proof. intros H; simpl. by rewrite H. Qed.

Lemma rstrip_split (s : str) : exists q, s = rstrip s ++ q /\ blank q.
Proof.
  unfold rstrip. destruct (lstrip_split (reverse s)) as (p & Hp & Hb).
  exists (reverse p). split.
  - rewrite <- reverse_app, <- Hp. by rewrite reverse_involutive.
  - unfold blank. by apply Forall_reverse.
Qed.

Lemma rstrip_last (s x : str) (c : ascii) :
  rstrip s = x ++ [c] -> isspace c = false.
Proof.
  unfold rstrip. intros H. apply (f_equal reverse) in H.
  rewrite reverse_involutive, reverse_app in H. simpl in H.
  by apply lstrip_head in H.
Qed.

Lemma rstrip_app_nonspace (s : str) (c : ascii) :
  isspace c = false -> rstrip (s ++ [c]) = s ++ [c].
Proof.
  intros H. unfold rstrip. rewrite reverse_app. simpl. rewrite H.
  rewrite <- (reverse_involutive (s ++ [c])). by rewrite reverse_app.
Qed.

Lemma strip_length (s : str) : len (strip s) <= len s.
Proof.
  unfold strip. destruct (lstrip_split s) as (p & Hp & _).
  destruct (rstrip_split (lstrip s)) as (q & Hq & _).
  rewrite Hp at 2. rewrite Hq at 2. rewrite !len_app.
  pose proof (len_nonneg p). pose proof (len_nonneg q). lia.
Qed.

Lemma strip_nil_blank (s : str) : strip s = [] -> blank s.
Proof.
  unfold strip. intros H.
  destruct (lstrip_split s) as (p & Hp & Hb).
  destruct (rstrip_split (lstrip s)) as (q & Hq & Hbq).
  rewrite H in Hq. simpl in Hq. rewrite Hp, Hq. by apply Forall_app.
Qed.

Lemma strip_trimmed (s : str) : trimmed (strip s).
Proof.
  split.
  - intros c r H. unfold strip in H.
    destruct (rstrip_split (lstrip s)) as (q & Hq & _).
    rewrite H in Hq. simpl in Hq. by apply lstrip_head in Hq.
  - intros x c H. unfold strip in H. by apply rstrip_last in H.
Qed.

Lemma trimmed_strip (s : str) : trimmed s -> strip s = s.
Proof.
  intros [Hh Hl]. unfold strip.
  destruct s as [|c r]; [reflexivity|].
  rewrite lstrip_nonspace by eauto.
  destruct (c :: r) as [|a x _] eqn:E using rev_ind; [done|].
  apply rstrip_app_nonspace. eauto.
Qed.

(** ** Page markers *)

Lemma strip_prefix_app (p text rest : str) :
  strip_prefix p text = Some rest -> text = p ++ rest.
Proof.
  revert text; induction p as [|a p IH]; intros text H; simpl in *.
  - congruence.
  - destruct text as [|b t]; [congruence|].
    destruct (ascii_eqb a b) eqn:E; [|congruence].
    apply Ascii.eqb_eq in E. apply IH in H. congruence.
Qed.

Lemma strip_prefix_app_eq (p rest : str) : strip_prefix p (p ++ rest) = Some rest.
Proof.
  induction p as [|a p IH]; simpl; [done|].
  unfold ascii_eqb. by rewrite Ascii.eqb_refl.
Qed.

Lemma span_app (f : ascii -> bool) (s a b : str) :
  span f s = (a, b) -> s = a ++ b /\ Forall (fun c => f c = true) a.
Proof.
  revert a b; induction s as [|c r IH]; intros a b H; simpl in *.
  - inversion H; subst. split; [done|constructor].
  - destruct (f c) eqn:E.
    + destruct (span f r) as [a' b'] eqn:E'. inversion H; subst.
      destruct (IH a' b eq_refl) as [-> Hf]. split; [done|by constructor].
    + inversion H; subst. split; [done|constructor].
Qed.

Lemma marker_at_spec (text rest : str) :
  marker_at text = Some rest ->
  exists ds, ds <> [] /\ text = lit "Page " ++ ds ++ lit ": " ++ rest.
Proof.
  unfold marker_at. intros H.
  destruct (strip_prefix (lit "Page ") text) as [r1|] eqn:E1; [|congruence].
  destruct (span isdigit r1) as [ds r2] eqn:E2.
  destruct ds as [|d ds]; [congruence|].
  apply strip_prefix_app in E1, H. apply span_app in E2 as [E2 _].
  exists (d :: ds). split; [done|]. by rewrite E1, E2, H.
Qed.

(** What [find_marker] finds is a match that ends with a space. *)
Lemma find_marker_spec (text a b : str) :
  find_marker text = Some (a, b) ->
  exists m, text = a ++ (m ++ [" "%char]) ++ b.
Proof.
  revert a b; induction text as [|c t IH]; intros a b H; simpl in H.
  - destruct (marker_at []) eqn:E; [|congruence].
    apply marker_at_spec in E as (ds & _ & E). discriminate E.
  - destruct (marker_at (c :: t)) as [r|] eqn:E.
    + inversion H; subst. apply marker_at_spec in E as (ds & _ & E).
      exists (lit "Page " ++ ds ++ [":"%char]). rewrite E. simpl.
      by rewrite <- !app_assoc.
    + destruct (find_marker t) as [[a' b']|] eqn:F; [|congruence].
      inversion H; subst. destruct (IH _ _ eq_refl) as (m & ->).
      by exists m.
Qed.

Lemma sub_page_markers_length (text : str) :
  len (sub_page_markers text) <= len text.
Proof.
  remember (length text) as n eqn:Hn. revert text Hn.
  induction n as [n IH] using (well_founded_induction lt_wf).
  intros text ->. rewrite sub_page_markers_eq.
  destruct (find_marker text) as [[a b]|] eqn:F; [|lia].
  pose proof (find_marker_length _ _ _ F) as Hlt.
  apply find_marker_spec in F as (m & ->).
  specialize (IH _ Hlt b eq_refl).
  rewrite !len_app in *. pose proof (len_nonneg m).
  change (len [" "%char]) with 1. lia.
Qed.

(** Deleting the markers keeps a final character that is not a space. *)
Lemma sub_page_markers_last (s : str) (c : ascii) :
  isspace c = false -> exists x, sub_page_markers (s ++ [c]) = x ++ [c].
Proof.
  intros Hc. remember (length s) as n eqn:Hn. revert s Hn.
  induction n as [n IH] using (well_founded_induction lt_wf).
  intros s ->. rewrite sub_page_markers_eq.
  destruct (find_marker (s ++ [c])) as [[a b]|] eqn:F; [|by exists s].
  pose proof (find_marker_length _ _ _ F) as Hlt.
  apply find_marker_spec in F as (m & Hs).
  destruct b as [|y b' _] using rev_ind.
  - rewrite app_nil_r, app_assoc in Hs. apply app_inj_tail in Hs as [_ Hs].
    subst c. discriminate Hc.
  - rewrite !app_assoc in Hs. apply app_inj_tail in Hs as [Hs ->].
    rewrite length_app in Hlt. simpl in Hlt.
    destruct (IH (length b') ltac:(rewrite length_app in Hlt; simpl in Hlt; lia) b' eq_refl) as (x & ->).
    exists (a ++ x). by rewrite app_assoc.
Qed.

(** The text of a chunk that the splitter trimmed is not blank. *)
Lemma clean_chunk_not_blank (chunk : str) :
  chunk <> [] -> trimmed chunk -> strip (sub_page_markers chunk) <> [].
Proof.
  intros Hne [_ Hl]. destruct chunk as [|c s _] using rev_ind; [done|].
  specialize (Hl s c eq_refl).
  destruct (sub_page_markers_last s c Hl) as (x & ->).
  intros H. apply strip_nil_blank in H.
  apply Forall_app in H as [_ H]. inversion H; congruence.
Qed.

(** ** Merging splits *)

Section MergeFacts.
Variable ts : TextSplitter.
Hypothesis overlap_nonneg : 0 <= _chunk_overlap ts.
Hypothesis size_pos : 0 < _chunk_size ts.

Lemma sep_if_longer_nil (n : nat) (cur : list str) : sep_if_longer [] n cur = 0.
Proof. unfold sep_if_longer. by destruct (n <? length cur)%nat. Qed.

Lemma len_concat_cons (x : str) (r : list str) :
  len (concat (x :: r)) = len x + len (concat r).
Proof. simpl. apply len_app. Qed.

Lemma pop_front_cons (separator : str) (_len : Z) (x : str) (r : list str)
    (total : Z) :
  pop_front ts separator _len (x :: r) total
  = if (_chunk_overlap ts <? total)
       || ((_chunk_size ts <? total + _len + sep_if_longer separator 0 (x :: r))
           && (0 <? total))
    then pop_front ts separator _len r
           (total - (len x + sep_if_longer separator 1 (x :: r)))
    else Ok (x :: r, total).
Proof. reflexivity. Qed.

(** The [while] loop drops a prefix of the window, at least one split when
    the window with the next split is too long, and stops when what is
    left makes room for the next split. *)
Lemma pop_front_spec (_len : Z) (cur : list str) :
  Forall (fun s => 0 < len s) cur -> _len < _chunk_size ts ->
  exists dropped cur',
    pop_front ts [] _len cur (len (concat cur)) = Ok (cur', len (concat cur'))
    /\ cur = dropped ++ cur'
    /\ len (concat cur') + _len <= _chunk_size ts
    /\ (_chunk_size ts < len (concat cur) + _len -> cur <> [] -> dropped <> []).
Proof.
  intros Hpos Hlen. induction Hpos as [|x r Hx Hr IH].
  - exists [], []. simpl. rewrite sep_if_longer_nil.
    change (len []) with 0.
    replace (_chunk_overlap ts <? 0) with false by (symmetry; apply Z.ltb_ge; lia).
    rewrite andb_false_r. simpl. repeat split; try done. lia.
  - destruct IH as (dropped & cur' & Hpop & Hcur & Hfit & _).
    rewrite pop_front_cons, !sep_if_longer_nil.
    destruct ((_chunk_overlap ts <? len (concat (x :: r)))
              || (_chunk_size ts <? len (concat (x :: r)) + _len + 0)
                 && (0 <? len (concat (x :: r)))) eqn:C.
    + exists (x :: dropped), cur'.
      replace (len (concat (x :: r)) - (len x + 0)) with (len (concat r))
        by (rewrite len_concat_cons; lia).
      rewrite Hpop. repeat split; try done. by rewrite Hcur.
    + exists [], (x :: r).
      apply orb_false_iff in C as [C1 C2]. apply Z.ltb_ge in C1.
      pose proof (len_nonneg (concat r)). rewrite len_concat_cons in *.
      apply andb_false_iff in C2 as [C2|C2];
        [apply Z.ltb_ge in C2 | apply Z.ltb_ge in C2; lia].
      repeat split; try done; try lia.
Qed.

Lemma omap_snoc {A B : Type} (f : A -> option B) (l : list A) (x : A) :
  omap f (l ++ [x]) = omap f l ++ option_list (f x).
Proof. rewrite omap_app. simpl. by destruct (f x). Qed.

Lemma merge_step_inv (seen : list str) (st : MergeState) (ws : list (list str))
    (d : str) :
  merge_inv ts seen st ws -> Forall (fun s => 0 < len s) seen ->
  0 < len d < _chunk_size ts ->
  exists st' ws',
    merge_step ts [] st d = Ok st' /\ merge_inv ts (seen ++ [d]) st' ws'.
Proof.
  intros [Htot Hfit Hdocs Hwin Hheads Hcov] Hseen [Hd0 Hd].
  assert (Hcurpos : Forall (fun s => 0 < len s) (current_doc st)).
  { apply Forall_forall. intros s Hs.
    apply (proj1 (Forall_forall _ _) Hseen).
    eapply elem_of_sublist; [|exact Hheads]. apply elem_of_app; auto. }
  assert (Hkeep : merge_inv ts (seen ++ [d]) (append_split [] st d) ws
                  \/ _chunk_size ts < total st + len d).
  { destruct (Z_lt_le_dec (_chunk_size ts) (total st + len d)); [auto|left].
    unfold append_split. rewrite sep_if_longer_nil. split; simpl.
    - rewrite concat_app, len_app, Htot. simpl. rewrite app_nil_r. lia.
    - lia.
    - done.
    - eapply Forall_impl; [exact Hwin|]. intros w (? & ? & ?).
      repeat split; try done. by apply sublist_inserts_r.
    - rewrite app_assoc. by apply sublist_app.
    - intros s Hs. apply elem_of_app in Hs as [Hs|Hs].
      + destruct (Hcov s Hs) as [?|?]; [left|by right].
        apply elem_of_app; auto.
      + left. apply elem_of_app; auto. }
  unfold merge_step. rewrite sep_if_longer_nil, Z.add_0_r.
  destruct (_chunk_size ts <? total st + len d) eqn:C.
  2:{ apply Z.ltb_ge in C. destruct Hkeep as [Hkeep|?]; [|lia]. eauto. }
  apply Z.ltb_lt in C.
  destruct (current_doc st) as [|h t] eqn:Ecur.
  { simpl in Htot. change (len []) with 0 in Htot. lia. }
  replace (0 <? length (h :: t))%nat with true by done.
  destruct (pop_front_spec (len d) (h :: t) Hcurpos Hd)
    as (dropped & cur' & Hpop & Hsplit & Hroom & Hdrop).
  rewrite Htot, Hpop. simpl.
  eexists _, (ws ++ [h :: t]). split; [reflexivity|].
  destruct dropped as [|h' dropped];
    [exfalso; apply Hdrop; [lia|done|done]|].
  simpl in Hsplit. inversion Hsplit; subst h' t; clear Hsplit.
  unfold append_split; simpl. rewrite sep_if_longer_nil. split; simpl.
  - rewrite concat_app, len_app. simpl. rewrite app_nil_r. lia.
  - lia.
  - rewrite omap_snoc, Hdocs.
    destruct (_join_docs (h :: dropped ++ cur') []); simpl;
      [done | by rewrite app_nil_r].
  - apply Forall_app. split.
    + eapply Forall_impl; [exact Hwin|]. intros w (? & ? & ?).
      repeat split; try done. by apply sublist_inserts_r.
    + constructor; [|constructor]. repeat split; [done|lia|].
      apply sublist_inserts_r. eapply transitivity; [|exact Hheads].
      by apply sublist_inserts_l.
  - rewrite omap_snoc. simpl. rewrite <- !app_assoc. simpl.
    replace (omap head ws ++ h :: cur' ++ [d])
      with ((omap head ws ++ h :: cur') ++ [d]) by (by rewrite <- app_assoc).
    apply sublist_app; [|done]. eapply transitivity; [|exact Hheads].
    apply sublist_app; [done|]. apply sublist_skip. by apply sublist_inserts_l.
  - intros s Hs. apply elem_of_app in Hs as [Hs|Hs].
    + right. destruct (Hcov s Hs) as [Hin|(w & Hw & Hin)].
      * exists (h :: dropped ++ cur'). split; [|done].
        apply elem_of_app; right. by apply list_elem_of_singleton.
      * exists w. split; [|done]. apply elem_of_app; auto.
    + left. apply elem_of_app; auto.
Qed.

Lemma merge_inv_init : merge_inv ts [] (mkMergeState [] [] 0) [].
Proof.
  split; simpl.
  - reflexivity.
  - lia.
  - reflexivity.
  - constructor.
  - constructor.
  - intros s Hs. inversion Hs.
Qed.

Lemma merge_loop_inv (splits seen : list str) (st : MergeState)
    (ws : list (list str)) :
  merge_inv ts seen st ws -> Forall (fun s => 0 < len s) seen ->
  Forall (fun s => 0 < len s < _chunk_size ts) splits ->
  exists st' ws',
    merge_loop ts [] st splits = Ok st' /\ merge_inv ts (seen ++ splits) st' ws'.
Proof.
  revert seen st ws. induction splits as [|d rest IH]; intros seen st ws Hinv Hseen Hs.
  - exists st, ws. rewrite app_nil_r. by split.
  - inversion Hs as [|? ? Hd Hrest]; subst.
    destruct (merge_step_inv seen st ws d Hinv Hseen Hd) as (st1 & ws1 & Hstep & Hinv1).
    destruct (IH (seen ++ [d]) st1 ws1 Hinv1) as (st' & ws' & Hloop & Hinv');
      [apply Forall_app; split; [done|constructor; [lia|constructor]] | done |].
    exists st', ws'. simpl. rewrite Hstep. simpl. rewrite Hloop.
    split; [done|]. by rewrite <- app_assoc in Hinv'.
Qed.

(** [_merge_splits] joins windows of consecutive splits: every window fits
    the chunk size, the first splits of the windows come in the order of
    the splits, and every split is in some window. *)
Lemma _merge_splits_spec (splits : list str) :
  Forall (fun s => 0 < len s < _chunk_size ts) splits ->
  exists ws,
    _merge_splits ts [] splits = Ok (omap (fun w => _join_docs w []) ws)
    /\ Forall (fun w => w <> [] /\ len (concat w) <= _chunk_size ts
                        /\ sublist w splits) ws
    /\ sublist (omap head ws) splits
    /\ (forall s, s ∈ splits -> exists w, w ∈ ws /\ s ∈ w).
Proof.
  intros Hs.
  destruct (merge_loop_inv splits [] (mkMergeState [] [] 0) [])
    as (st & ws & Hloop & [Htot Hfit Hdocs Hwin Hheads Hcov]);
    [apply merge_inv_init | constructor | done |].
  simpl in *. unfold _merge_splits. rewrite Hloop. simpl.
  destruct (current_doc st) as [|h t] eqn:Ecur.
  - exists ws. rewrite app_nil_r in Hheads. split; [by rewrite Hdocs|].
    repeat split; try done.
    intros s Hin. destruct (Hcov s Hin) as [Hnil|?]; [inversion Hnil|done].
  - exists (ws ++ [h :: t]). rewrite omap_snoc, Hdocs. split.
    { destruct (_join_docs (h :: t) []); simpl; [done|by rewrite app_nil_r]. }
    split; [|split].
    + apply Forall_app. split; [done|]. constructor; [|constructor].
      repeat split; [done|lia|]. eapply transitivity; [|exact Hheads].
      by apply sublist_inserts_l.
    + rewrite omap_snoc. simpl. eapply transitivity; [|exact Hheads].
      apply sublist_app; [done|]. apply sublist_skip, sublist_nil_l.
    + intros s Hin. destruct (Hcov s Hin) as [Hc|(w & Hw & Hsw)].
      * exists (h :: t). split; [|done]. apply elem_of_app; right.
        by apply list_elem_of_singleton.
      * exists w. split; [|done]. apply elem_of_app; auto.
Qed.

(** Splits that fit one chunk together come back joined as one chunk. *)
Lemma merge_loop_fits (splits : list str) (st : MergeState) :
  total st + len (concat splits) <= _chunk_size ts ->
  merge_loop ts [] st splits
  = Ok (mkMergeState (docs st) (current_doc st ++ splits)
          (total st + len (concat splits))).
Proof.
  revert st. induction splits as [|d rest IH]; intros st Hfit; simpl.
  - rewrite app_nil_r. change (len []) with 0. rewrite Z.add_0_r. by destruct st.
  - rewrite len_concat_cons in Hfit.
    pose proof (len_nonneg d). pose proof (len_nonneg (concat rest)).
    unfold merge_step. rewrite sep_if_longer_nil, Z.add_0_r.
    replace (_chunk_size ts <? total st + len d) with false
      by (symmetry; apply Z.ltb_ge; lia).
    simpl. rewrite IH; unfold append_split; simpl; rewrite sep_if_longer_nil.
    + rewrite <- app_assoc. simpl. f_equal. f_equal.
      change (d ++ concat rest) with (concat (d :: rest)).
      rewrite len_concat_cons. lia.
    + lia.
Qed.

Lemma _merge_splits_fits (splits : list str) :
  len (concat splits) <= _chunk_size ts ->
  _merge_splits ts [] splits = Ok (option_list (_join_docs splits [])).
Proof.
  intros Hfit. unfold _merge_splits.
  rewrite merge_loop_fits by (simpl; lia). simpl.
  by destruct (_join_docs splits []).
Qed.
End MergeFacts.

(** ** Splitting at a separator *)

Lemma partition_spec (sep text a b : str) :
  partition sep text = Some (a, b) -> text = a ++ sep ++ b.
Proof.
  revert a b; induction text as [|c t IH]; intros a b H; simpl in H.
  - destruct (strip_prefix sep []) eqn:E; [|congruence].
    inversion H; subst. by apply strip_prefix_app in E.
  - destruct (strip_prefix sep (c :: t)) as [r|] eqn:E.
    + inversion H; subst. by apply strip_prefix_app in E.
    + destruct (partition sep t) as [[a' b']|] eqn:F; [|congruence].
      inversion H; subst. by rewrite (IH _ _ eq_refl).
Qed.

Lemma re_split_shape (s0 : ascii) (s' text : str) :
  exists first rest,
    re_split s0 s' text = first :: alternate (s0 :: s') rest
    /\ text = first ++ concat (map (app (s0 :: s')) rest).
Proof.
  remember (length text) as n eqn:Hn. revert text Hn.
  induction n as [n IH] using (well_founded_induction lt_wf).
  intros text ->. rewrite re_split_eq.
  destruct (partition (s0 :: s') text) as [[a b]|] eqn:P.
  - pose proof (partition_length _ _ _ _ P) as Hlen.
    apply partition_spec in P.
    destruct (IH (length b) ltac:(simpl in Hlen; lia) b eq_refl)
      as (first & rest & Hre & Hb).
    exists a, (first :: rest). rewrite Hre. split; [reflexivity|].
    rewrite P, Hb. simpl. by rewrite <- !app_assoc.
  - exists text, []. split; [reflexivity|]. simpl. by rewrite app_nil_r.
Qed.

Lemma pairs_from_1_alternate (sep : str) (rest : list str) :
  pairs_from_1 (alternate sep rest) = Ok (map (app sep) rest).
Proof.
  induction rest as [|p rest IH]; [reflexivity|].
  unfold alternate in *. simpl. rewrite IH. reflexivity.
Qed.

Lemma length_alternate (sep : str) (rest : list str) :
  Nat.even (length (alternate sep rest)) = true.
Proof. induction rest as [|p rest IH]; [reflexivity|]. exact IH. Qed.

Lemma concat_filter_nonempty (l : list str) :
  concat (filter (fun s => nonempty s = true) l) = concat l.
Proof.
  induction l as [|x l IH]; [reflexivity|].
  rewrite filter_cons. destruct x; simpl; [exact IH|]. by rewrite IH.
Qed.

Lemma filter_nonempty_pos (l : list str) :
  Forall (fun s => 0 < len s) (filter (fun s => nonempty s = true) l).
Proof.
  apply Forall_forall. intros s Hs. apply list_elem_of_filter in Hs as [Hs _].
  destruct s; [discriminate|]. unfold len; simpl; lia.
Qed.

Lemma _split_text_with_regex_shape (text : str) (s0 : ascii) (s' : str) :
  exists first rest,
    text = first ++ concat (map (app (s0 :: s')) rest)
    /\ re_split s0 s' text = first :: alternate (s0 :: s') rest
    /\ _split_text_with_regex text (s0 :: s')
       = Ok (filter (fun s => nonempty s = true)
               (first :: map (app (s0 :: s')) rest)).
Proof.
  destruct (re_split_shape s0 s' text) as (first & rest & Hre & Htext).
  exists first, rest. split; [done|]. split; [done|].
  assert (Hodd : Nat.even (length (first :: alternate (s0 :: s') rest)) = false).
  { rewrite length_cons, Nat.even_succ, <- Nat.negb_even, length_alternate.
    reflexivity. }
  unfold _split_text_with_regex. rewrite Hre, Hodd. simpl tail.
  rewrite pairs_from_1_alternate. reflexivity.
Qed.

Lemma concat_singletons (text : str) : concat (map (fun c => [c]) text) = text.
Proof. induction text as [|c t IH]; simpl; congruence. Qed.

(** The splits are the text cut in pieces, none of them empty. *)
Lemma _split_text_with_regex_spec (text separator : str) :
  exists splits,
    _split_text_with_regex text separator = Ok splits
    /\ concat splits = text /\ Forall (fun s => 0 < len s) splits.
Proof.
  destruct separator as [|s0 s'].
  - eexists. split; [reflexivity|]. split; [|apply filter_nonempty_pos].
    rewrite concat_filter_nonempty. apply concat_singletons.
  - destruct (_split_text_with_regex_shape text s0 s')
      as (first & rest & Htext & _ & ->).
    eexists. split; [reflexivity|]. split; [|apply filter_nonempty_pos].
    rewrite concat_filter_nonempty. simpl. by rewrite Htext.
Qed.

(** ** The pieces of [split_text] *)

Lemma _join_docs_some (w : list str) (p : str) :
  _join_docs w [] = Some p -> p = strip (concat w) /\ p <> [].
Proof.
  unfold _join_docs. rewrite join_nil.
  destruct (strip (concat w)) eqn:E; [done|]. intros H; inversion H. done.
Qed.

Lemma _join_docs_not_blank (w : list str) :
  ~ blank (concat w) -> exists p, _join_docs w [] = Some p.
Proof.
  intros Hnb. unfold _join_docs. rewrite join_nil.
  destruct (strip (concat w)) eqn:E; [|by eexists].
  exfalso. apply Hnb. by apply strip_nil_blank.
Qed.

Lemma sublist_concat_len (l k : list str) :
  sublist l k -> len (concat l) <= len (concat k).
Proof.
  induction 1 as [|x l k _ IH|x l k _ IH]; simpl; rewrite ?len_app.
  - lia.
  - lia.
  - pose proof (len_nonneg x). lia.
Qed.

Lemma elem_concat_len (s : str) (l : list str) :
  s ∈ l -> len s <= len (concat l).
Proof.
  intros H. apply list_elem_of_split in H as (l1 & l2 & ->).
  rewrite concat_app, len_app. simpl. rewrite len_app.
  pose proof (len_nonneg (concat l1)). pose proof (len_nonneg (concat l2)). lia.
Qed.

Lemma blank_concat (l : list str) :
  ~ blank (concat l) -> exists s, s ∈ l /\ ~ blank s.
Proof.
  induction l as [|x l IH]; simpl; intros H.
  - exfalso. apply H. constructor.
  - destruct (decide (blank x)) as [Hx|Hx].
    + destruct IH as (s & Hs & Hnb).
      * intros Hl. apply H. by apply Forall_app.
      * exists s. split; [by right|done].
    + exists x. split; [by left|done].
Qed.

Lemma elem_blank_concat (s : str) (l : list str) :
  s ∈ l -> blank (concat l) -> blank s.
Proof.
  intros H Hb. apply list_elem_of_split in H as (l1 & l2 & ->).
  rewrite concat_app in Hb. apply Forall_app in Hb as [_ Hb].
  simpl in Hb. by apply Forall_app in Hb as [Hb _].
Qed.

Lemma piece_ok_mono (ts : TextSplitter) (text text' p : str) :
  piece_ok ts text p -> len text <= len text' -> piece_ok ts text' p.
Proof.
  intros (H1 & H2 & H3 & H4) H. split; [done|]. split; [done|]. split; [done|]. lia.
Qed.

Section SplitFacts.
Variable ts : TextSplitter.
Hypothesis overlap_nonneg : 0 <= _chunk_overlap ts.
Hypothesis size_two : 2 <= _chunk_size ts.

Lemma merge_pieces_ok (good : list str) :
  Forall (fun s => 0 < len s < _chunk_size ts) good ->
  exists out,
    _merge_splits ts [] good = Ok out
    /\ Forall (piece_ok ts (concat good)) out
    /\ ((exists s, s ∈ good /\ ~ blank s) -> out <> []).
Proof.
  intros Hgood. assert (Hpos : 0 < _chunk_size ts) by lia.
  destruct (_merge_splits_spec ts overlap_nonneg Hpos good Hgood)
    as (ws & Hm & Hws & _ & Hcov).
  eexists. split; [exact Hm|]. split.
  - apply Forall_forall. intros p Hp.
    apply list_elem_of_omap in Hp as (w & Hw & Hj).
    apply _join_docs_some in Hj as [-> Hne].
    apply (proj1 (Forall_forall _ _) Hws) in Hw as (_ & Hfit & Hsub).
    pose proof (strip_length (concat w)).
    pose proof (sublist_concat_len _ _ Hsub).
    repeat split; [lia|done|apply strip_trimmed..|lia].
  - intros (s & Hs & Hnb). destruct (Hcov s Hs) as (w & Hw & Hsw).
    destruct (_join_docs_not_blank w) as (p & Hp).
    { intros Hb. apply Hnb. by eapply elem_blank_concat. }
    intros Hnil.
    assert (Hin : p ∈ omap (fun w => _join_docs w []) ws)
      by (apply list_elem_of_omap; eauto).
    rewrite Hnil in Hin. inversion Hin.
Qed.

Lemma flush_ok (final good : list str) :
  Forall (fun s => 0 < len s < _chunk_size ts) good ->
  exists out,
    flush ts [] final good = Ok (final ++ out)
    /\ Forall (piece_ok ts (concat good)) out
    /\ ((exists s, s ∈ good /\ ~ blank s) -> out <> []).
Proof.
  intros Hgood. destruct good as [|g good].
  - exists []. simpl. rewrite app_nil_r. split; [done|]. split; [constructor|].
    intros (s & Hs & _). inversion Hs.
  - destruct (merge_pieces_ok (g :: good) Hgood) as (out & Hm & Hok & Hne).
    exists out. unfold flush. rewrite Hm. done.
Qed.

Lemma split_loop_ok (recurse : option (str -> result (list str)))
    (splits : list str) :
  Forall (fun s => 0 < len s) splits ->
  (forall s, s ∈ splits -> _chunk_size ts <= len s ->
     exists out,
       match recurse with None => Ok [s] | Some f => f s end = Ok out
       /\ Forall (piece_ok ts s) out /\ (~ blank s -> out <> [])) ->
  forall final good : list str,
    Forall (fun s => 0 < len s < _chunk_size ts) good ->
    exists out,
      split_loop ts recurse [] splits final good = Ok (final ++ out)
      /\ Forall (piece_ok ts (concat (good ++ splits))) out
      /\ ((exists s, s ∈ good ++ splits /\ ~ blank s) -> out <> []).
Proof.
  induction splits as [|s rest IH]; intros Hpos Hbig final good Hgood.
  - rewrite app_nil_r. simpl. by apply flush_ok.
  - inversion Hpos as [|? ? Hs Hrest]; subst. simpl.
    destruct (len s <? _chunk_size ts) eqn:C.
    + apply Z.ltb_lt in C.
      destruct (IH Hrest ltac:(intros; apply Hbig; [by right|done]) final
                  (good ++ [s])) as (out & Hl & Hok & Hne).
      { apply Forall_app. split; [done|]. constructor; [lia|constructor]. }
      rewrite <- app_assoc in Hok, Hne. by exists out.
    + apply Z.ltb_ge in C.
      destruct (flush_ok final good Hgood) as (out1 & Hf & Hok1 & Hne1).
      destruct (Hbig s ltac:(by left) C) as (out2 & Hr & Hok2 & Hne2).
      destruct (IH Hrest ltac:(intros; apply Hbig; [by right|done])
                  ((final ++ out1) ++ out2) []) as (out3 & Hl & Hok3 & Hne3);
        [constructor|].
      exists (out1 ++ out2 ++ out3). rewrite Hf. simpl. rewrite Hr. simpl.
      rewrite Hl. split; [by rewrite <- !app_assoc|]. split.
      * repeat (apply Forall_app; split).
        -- eapply Forall_impl; [exact Hok1|]. intros p Hp.
           eapply piece_ok_mono; [exact Hp|].
           apply sublist_concat_len. by apply sublist_inserts_r.
        -- eapply Forall_impl; [exact Hok2|]. intros p Hp.
           eapply piece_ok_mono; [exact Hp|].
           apply elem_concat_len. apply elem_of_app; right. by left.
        -- eapply Forall_impl; [exact Hok3|]. intros p Hp.
           eapply piece_ok_mono; [exact Hp|].
           apply sublist_concat_len. simpl. by apply sublist_inserts_l, sublist_cons.
      * intros (x & Hx & Hnb). apply elem_of_app in Hx as [Hx|Hx].
        { intros H. apply app_eq_nil in H as [H _]. revert H. apply Hne1. eauto. }
        apply elem_of_cons in Hx as [->|Hx].
        { intros H. apply app_eq_nil in H as [_ H]. apply app_eq_nil in H as [H _].
          revert H. by apply Hne2. }
        intros H. apply app_eq_nil in H as [_ H]. apply app_eq_nil in H as [_ H].
        revert H. apply Hne3. eauto.
Qed.

Lemma find_separator_spec (text : str) (separators : list str) :
  [] ∈ separators ->
  exists sep new,
    find_separator text separators = Some (sep, new)
    /\ ((sep = [] /\ new = [])
        \/ (sep <> [] /\ [] ∈ new /\ (length new < length separators)%nat)).
Proof.
  induction separators as [|s rest IH]; intros Hin; [inversion Hin|].
  simpl. destruct s as [|c s].
  - exists [], []. auto.
  - apply elem_of_cons in Hin as [Hin|Hin]; [discriminate|].
    destruct (contains (c :: s) text).
    + exists (c :: s), rest. split; [done|]. right. repeat split; try done. lia.
    + destruct (IH Hin) as (sep & new & -> & [H|(H1 & H2 & H3)]).
      * exists sep, new. auto.
      * exists sep, new. split; [done|]. right. repeat split; try done. lia.
Qed.

Lemma choose_separator_spec (text : str) (separators : list str) :
  [] ∈ separators ->
  exists sep new,
    choose_separator text separators = Ok (sep, new)
    /\ ((sep = [] /\ new = [])
        \/ (sep <> [] /\ [] ∈ new /\ (length new < length separators)%nat)).
Proof.
  intros Hin. destruct (find_separator_spec text separators Hin)
    as (sep & new & Hf & Hcase).
  exists sep, new. unfold choose_separator. rewrite Hf.
  destruct (last separators) eqn:L; [done|].
  apply last_None in L. subst. inversion Hin.
Qed.

Lemma split_chars (text : str) :
  _split_text_with_regex text [] = Ok (map (fun c => [c]) text).
Proof.
  unfold _split_text_with_regex. f_equal.
  induction text as [|c t IH]; [reflexivity|].
  simpl. rewrite filter_cons_True by done. by rewrite IH.
Qed.

(** With the empty string among the separators, [_split_text] returns, and
    each piece it returns is [piece_ok]; it returns at least one piece
    unless the text is blank. *)
Lemma _split_text_ok (separators : list str) :
  [] ∈ separators ->
  forall text, exists pieces,
    _split_text ts text separators = Ok pieces
    /\ Forall (piece_ok ts text) pieces
    /\ (~ blank text -> pieces <> []).
Proof.
  remember (length separators) as n eqn:Hn. revert separators Hn.
  induction n as [n IH] using (well_founded_induction lt_wf).
  intros separators -> Hin text. rewrite _split_text_eq.
  destruct (choose_separator_spec text separators Hin)
    as (sep & new & -> & [[-> ->]|(Hsep & Hnew & Hlt)]).
  - rewrite split_chars. simpl.
    destruct (split_loop_ok None (map (fun c => [c]) text)) with (final := @nil str)
      (good := @nil str) as (out & Hl & Hok & Hne).
    + apply Forall_forall. intros s Hs. apply list_elem_of_fmap in Hs as (c & -> & _).
      done.
    + intros s Hs Hbig. apply list_elem_of_fmap in Hs as (c & -> & _).
      change (len [c]) with 1 in Hbig. lia.
    + constructor.
    + simpl in *. rewrite concat_singletons in *.
      exists out. split; [done|]. split; [done|].
      intros Hnb. apply Hne.
      destruct (blank_concat (map (fun c => [c]) text)) as (s & Hs & Hsnb);
        [by rewrite concat_singletons|eauto].
  - destruct (_split_text_with_regex_spec text sep) as (splits & -> & Hcat & Hpos).
    simpl.
    destruct (split_loop_ok
                (match new with
                 | [] => None
                 | _ => Some (fun s => _split_text ts s new)
                 end) splits Hpos) with (final := @nil str) (good := @nil str)
      as (out & Hl & Hok & Hne).
    + intros s Hs Hbig. destruct new as [|n0 new']; [inversion Hnew|].
      apply (IH _ Hlt _ eq_refl Hnew).
    + constructor.
    + simpl in *. rewrite Hcat in *.
      exists out. split; [done|]. split; [done|].
      intros Hnb. apply Hne. apply blank_concat. by rewrite Hcat.
Qed.
End SplitFacts.

(** ** Chunks and the documents made of them *)

Lemma make_documents_chunks (md : gmap string value) (chunks : list str) :
  forall (i : Z) (docs : list Document),
    make_documents md i chunks = Ok docs ->
    Forall2 (fun chunk doc =>
               page_content doc = sub_page_markers chunk
               /\ (md !! "page"%string = None ->
                   exists n, page_num_of chunk = Ok n
                             /\ page_of doc = Some (VInt n)))
            chunks docs.
Proof.
  induction chunks as [|chunk rest IH]; intros i docs H.
  - simpl in H. inversion H. constructor.
  - apply make_documents_cons_inv in H as (doc & docs' & Hd & Hr & ->).
    constructor; [|by eapply IH].
    apply make_document_fields in Hd as (Hc & _ & Hp). done.
Qed.

Lemma chunk_separators_empty : [] ∈ chunk_separators.
Proof.
  unfold chunk_separators. do 4 apply list_elem_of_further. apply list_elem_of_here.
Qed.

Lemma splitter_valid (chunk_size chunk_overlap : Z) (separators : list str) :
  0 < chunk_size -> 0 <= chunk_overlap <= chunk_size ->
  RecursiveCharacterTextSplitter chunk_size chunk_overlap separators
  = Ok (mkTextSplitter chunk_size chunk_overlap separators).
Proof.
  intros H1 H2. unfold RecursiveCharacterTextSplitter.
  replace (chunk_size <=? 0) with false by (symmetry; apply Z.leb_gt; lia).
  replace (chunk_overlap <? 0) with false by (symmetry; apply Z.ltb_ge; lia).
  replace (chunk_size <? chunk_overlap) with false by (symmetry; apply Z.ltb_ge; lia).
  reflexivity.
Qed.

(** With sizes [0 <= chunk_overlap <= chunk_size] and [2 <= chunk_size],
    the documents of [create_document_chunks] come one for one from chunks
    of the splitter that are [piece_ok]. *)
Lemma create_document_chunks_pieces (all_text : list PageInfo)
    (md : gmap string value) (chunk_size chunk_overlap : Z) (docs : list Document) :
  2 <= chunk_size -> 0 <= chunk_overlap <= chunk_size ->
  create_document_chunks all_text md chunk_size chunk_overlap = Ok docs ->
  exists chunks,
    split_text (mkTextSplitter chunk_size chunk_overlap chunk_separators)
      (combined_text all_text) = Ok chunks
    /\ Forall (piece_ok (mkTextSplitter chunk_size chunk_overlap chunk_separators)
                 (combined_text all_text)) chunks
    /\ Forall2 (fun chunk doc =>
                  page_content doc = sub_page_markers chunk
                  /\ (md !! "page"%string = None ->
                      exists n, page_num_of chunk = Ok n
                                /\ page_of doc = Some (VInt n)))
               chunks docs.
Proof.
  intros Hsize Hov H.
  apply create_document_chunks_inv in H as (ts & chunks & Hts & Hsplit & Hmake).
  rewrite splitter_valid in Hts by lia. inversion Hts; subst ts; clear Hts.
  exists chunks. split; [done|]. split; [|by eapply make_documents_chunks].
  destruct (_split_text_ok (mkTextSplitter chunk_size chunk_overlap chunk_separators))
    with (separators := chunk_separators) (text := combined_text all_text)
    as (pieces & Hp & Hok & _); simpl; try lia; [apply chunk_separators_empty|].
  unfold split_text in Hsplit. simpl in Hsplit. congruence.
Qed.

(** ** Chunk length *)

(** C1: for sizes with [0 < chunk_overlap < chunk_size], the text of every
    chunk that the pipeline returns has at most [chunk_size] characters. *)
Theorem chunk_text_within_chunk_size (chunk_size chunk_overlap : Z)
    (docs : list Document) :
  0 < chunk_overlap < chunk_size ->
  pipeline_returns chunk_size chunk_overlap docs ->
  Forall (fun d => len (page_content d) <= chunk_size) docs.
Proof.
  intros Hsizes H. apply pipeline_returns_inv in H
    as [->|(all_text & md & docs0 & post & Hc & -> & Hpost & _)]; [constructor|].
  apply create_document_chunks_pieces in Hc as (chunks & _ & Hok & Hdocs); try lia.
  apply Forall_fmap. apply Forall_forall. intros d Hd. simpl.
  destruct (Hpost d) as [-> _].
  apply list_elem_of_lookup in Hd as [i Hi].
  destruct (Forall2_lookup_r _ _ _ _ _ Hdocs Hi) as (chunk & Hchunk & Hcontent & _).
  rewrite Hcontent.
  apply (Forall_lookup_1 _ _ _ _ Hok) in Hchunk as (Hfit & _).
  pose proof (sub_page_markers_length chunk). simpl in Hfit. lia.
Qed.

(** ** Chunks are not blank *)

(** The bound on the sizes matters: with [chunk_size = 1] the splitter
    returns the text character by character, the spaces too. *)
Example chunks_at_chunk_size_one :
  fmap_result (map page_content)
    (create_document_chunks [mkPageInfo 1 (lit "a b")]
       (<["file_name"%string := VStr (lit "a.pdf")]> ∅) 1 0)
  = Ok [lit "P"; lit "a"; lit "g"; lit "e"; lit " "; lit "1"; lit ":"; lit " ";
        lit "a"; lit " "; lit "b"].
Proof. vm_compute. reflexivity. Qed.

(** C4: for sizes with [0 < chunk_overlap < chunk_size], the text of every
    chunk that the pipeline returns is non-empty after [strip]: no blank
    chunk is in the returned sequence. *)
Theorem chunk_text_not_blank (chunk_size chunk_overlap : Z) (docs : list Document) :
  0 < chunk_overlap < chunk_size ->
  pipeline_returns chunk_size chunk_overlap docs ->
  Forall (fun d => strip (page_content d) <> []) docs.
Proof.
  intros Hsizes H. apply pipeline_returns_inv in H
    as [->|(all_text & md & docs0 & post & Hc & -> & Hpost & _)]; [constructor|].
  apply create_document_chunks_pieces in Hc as (chunks & _ & Hok & Hdocs); try lia.
  apply Forall_fmap. apply Forall_forall. intros d Hd. simpl.
  destruct (Hpost d) as [-> _].
  apply list_elem_of_lookup in Hd as [i Hi].
  destruct (Forall2_lookup_r _ _ _ _ _ Hdocs Hi) as (chunk & Hchunk & Hcontent & _).
  rewrite Hcontent.
  apply (Forall_lookup_1 _ _ _ _ Hok) in Hchunk as (_ & Hne & Htrim & _).
  by apply clean_chunk_not_blank.
Qed.

(** ** Page order *)

Lemma two_page_run_returns : pipeline_returns 16 2 (returned two_page_run).
Proof.
  apply (returns_from_bytes 16 2 _ [] (lit "report.pdf") (Some 16) (Some 2)
           two_page_world two_page_run.2); [reflexivity..|].
  vm_compute. reflexivity.
Qed.

Example two_page_run_chunks :
  map (fun d => (page_content d, page_of d)) (returned two_page_run)
  = [(lit "Intro", Some (VInt 1)); (lit "alpha", Some (VInt 2));
     (lit "beta gamma", Some (VInt 0)); (lit "delta", Some (VInt 0))].
Proof. vm_compute. reflexivity. Qed.

(** C3, as stated, fails: the two-page PDF above, chunked with
    [chunk_size = 16] and [chunk_overlap = 2], comes back as four chunks
    with pages 1, 2, 0, 0. *)
Lemma page_order_counterexample :
  pipeline_returns 16 2 (returned two_page_run)
  /\ ~ pages_non_decreasing (returned two_page_run).
Proof.
  split; [exact two_page_run_returns|].
  intros H. specialize (H 1%nat 2%nat 2 0).
  assert (2 <= 0); [|lia]. apply H; [lia|vm_compute; reflexivity..].
Qed.

(** ** The properties on a run *)

Lemma chunk_text_within_chunk_size_witness :
  0 < 2 < 16 /\ pipeline_returns 16 2 (returned two_page_run)
  /\ Forall (fun d => len (page_content d) <= 16) (returned two_page_run).
Proof.
  split; [lia|]. split; [exact two_page_run_returns|].
  apply (chunk_text_within_chunk_size 16 2); [lia|exact two_page_run_returns].
Defined.

Lemma chunk_indices_are_1_to_N_witness :
  pipeline_returns 16 2 (returned two_page_run)
  /\ map chunk_index (returned two_page_run)
     = [Some (VInt 1); Some (VInt 2); Some (VInt 3); Some (VInt 4)].
Proof.
  split; [exact two_page_run_returns|].
  rewrite (chunk_indices_are_1_to_N 16 2 _ two_page_run_returns).
  vm_compute. reflexivity.
Defined.

Lemma chunk_text_not_blank_witness :
  0 < 2 < 16 /\ pipeline_returns 16 2 (returned two_page_run)
  /\ Forall (fun d => strip (page_content d) <> []) (returned two_page_run).
Proof.
  split; [lia|]. split; [exact two_page_run_returns|].
  apply (chunk_text_not_blank 16 2); [lia|exact two_page_run_returns].
Defined.

Lemma two_runs_agree_witness :
  next_tmp two_page_world <> next_tmp two_page_world'
  /\ (process_document_from_bytes [] (lit "report.pdf") (Some 16) (Some 2)
        two_page_world).1
     = (process_document_from_bytes [] (lit "report.pdf") (Some 16) (Some 2)
          two_page_world').1.
Proof.
  split; [vm_compute; congruence|].
  apply (two_runs_agree [] (lit "report.pdf") (Some 16) (Some 2)
           two_page_world two_page_world'); reflexivity.
Defined.

(** ** Page numbers read back from chunks *)

Lemma isdigit_cases (c : ascii) :
  isdigit c = true ->
  c = "0"%char \/ c = "1"%char \/ c = "2"%char \/ c = "3"%char \/ c = "4"%char
  \/ c = "5"%char \/ c = "6"%char \/ c = "7"%char \/ c = "8"%char \/ c = "9"%char.
Proof.
  destruct c as [[] [] [] [] [] [] [] []]; vm_compute; intros H;
    try discriminate H; tauto.
Qed.

Lemma uint_of_digits (ds : str) :
  Forall (fun c => isdigit c = true) ds ->
  exists u, NilEmpty.uint_of_string (string_of_list_ascii ds) = Some u.
Proof.
  induction 1 as [|c ds Hc _ (u & IH)]; simpl; [by eexists|].
  rewrite IH.
  destruct (isdigit_cases c Hc) as [->|[->|[->|[->|[->|[->|[->|[->|[->| ->]]]]]]]]];
    by eexists.
Qed.

Lemma int_of_digits_ok (ds : str) :
  Forall (fun c => isdigit c = true) ds -> (length ds <= max_str_digits)%nat ->
  exists n, int_of_digits ds = Ok n.
Proof.
  intros Hd Hlen. unfold int_of_digits.
  replace (max_str_digits <? length ds)%nat with false
    by (symmetry; apply Nat.ltb_ge; lia).
  destruct (uint_of_digits ds Hd) as (u & ->). by eexists.
Qed.

Lemma match_page_number_spec (chunk ds : str) :
  match_page_number chunk = Some ds ->
  Forall (fun c => isdigit c = true) ds /\ (length ds <= length chunk)%nat.
Proof.
  unfold match_page_number. intros H.
  destruct (strip_prefix (lit "Page ") chunk) as [r1|] eqn:E1; [|congruence].
  destruct (span isdigit r1) as [[|d ds'] [|c r2]] eqn:E2; try congruence.
  destruct (ascii_eqb c ":"); [|congruence]. inversion H; subst.
  apply strip_prefix_length in E1. pose proof (span_length _ _ _ _ E2) as Hl.
  apply span_app in E2 as [_ E2]. split; [done|]. simpl in *. lia.
Qed.

Lemma page_num_of_ok (chunk : str) :
  (length chunk <= max_str_digits)%nat -> exists n, page_num_of chunk = Ok n.
Proof.
  intros Hlen. unfold page_num_of.
  destruct (match_page_number chunk) as [ds|] eqn:E; [|by eexists].
  apply match_page_number_spec in E as [Hd Hl].
  apply int_of_digits_ok; [done|lia].
Qed.

Lemma make_documents_total (md : gmap string value) (chunks : list str) :
  is_Some (md !! "file_name"%string) ->
  Forall (fun chunk => (length chunk <= max_str_digits)%nat) chunks ->
  forall i : Z, exists docs,
    make_documents md i chunks = Ok docs /\ length docs = length chunks.
Proof.
  intros [v Hv] Hc. induction Hc as [|chunk rest Hchunk _ IH]; intros i.
  - by exists [].
  - destruct (page_num_of_ok chunk Hchunk) as (n & Hn).
    destruct (IH (i + 1)) as (docs & Hdocs & Hlen).
    eexists. simpl. unfold make_document, getitem. rewrite Hn, Hv. simpl.
    rewrite Hdocs. simpl. split; [reflexivity|]. simpl. lia.
Qed.


(** ** Synthetic pages of a DOCX *)


Lemma stripped_texts_trimmed (texts : list str) :
  Forall (fun t => t <> [] /\ trimmed t) (stripped_texts texts).
Proof.
  apply Forall_forall. intros t Ht. unfold stripped_texts in Ht.
  apply list_elem_of_filter in Ht as [Hne Ht].
  apply list_elem_of_fmap in Ht as (t0 & -> & _).
  split; [by destruct (strip t0)|apply strip_trimmed].
Qed.

Lemma paragraphs_text_trimmed (doc : DocxDocument) :
  Forall (fun t => t <> [] /\ trimmed t) (paragraphs_text_of doc).
Proof. apply Forall_app. split; apply stripped_texts_trimmed. Qed.

Lemma not_blank_head (c : ascii) (r : str) : isspace c = false -> ~ blank (c :: r).
Proof. intros Hc Hb. inversion Hb; congruence. Qed.


Lemma page_line_not_blank (p : PageInfo) : ~ blank (page_line p).
Proof. unfold page_line. simpl. by apply not_blank_head. Qed.


Lemma extract_pdf_run (pdf_path : str) (chunk_size chunk_overlap : Z)
    (w : World) (data : list Byte.byte) (doc : PdfDocument) :
  files w !! pdf_path = Some data -> fitz_parse w data = Ok doc ->
  pdf_all_text 0 (pdf_pages doc) <> [] ->
  (extract_text_from_pdf pdf_path chunk_size chunk_overlap w).1
  = create_document_chunks (pdf_all_text 0 (pdf_pages doc))
      (pdf_metadata_dict doc pdf_path) chunk_size chunk_overlap.
Proof.
  intros Hfile Hparse Hne. unfold extract_text_from_pdf, path_exists.
  rewrite bool_decide_eq_true_2 by (rewrite Hfile; by eexists).
  unfold fitz_open. rewrite Hfile, Hparse. simpl negb. cbv iota.
  by destruct (pdf_all_text 0 (pdf_pages doc)).
Qed.




(** ** A text that fits one chunk *)

Lemma split_loop_all_good (ts : TextSplitter)
    (recurse : option (str -> result (list str))) (separator : str)
    (splits : list str) :
  Forall (fun s => len s < _chunk_size ts) splits ->
  forall final good,
    split_loop ts recurse separator splits final good
    = flush ts separator final (good ++ splits).
Proof.
  induction 1 as [|s rest Hs _ IH]; intros final good; simpl.
  - by rewrite app_nil_r.
  - replace (len s <? _chunk_size ts) with true by (symmetry; by apply Z.ltb_lt).
    rewrite IH. by rewrite <- app_assoc.
Qed.

Lemma _join_docs_concat (splits : list str) (text : str) :
  concat splits = text -> _join_docs splits [] = _join_docs [text] [].
Proof. intros H. unfold _join_docs. rewrite !join_nil. simpl. by rewrite H, app_nil_r. Qed.

(** A text shorter than the chunk size comes back as one chunk, stripped,
    or as none when it is blank. *)
Lemma _split_text_short (ts : TextSplitter) (separators : list str) (text : str) :
  [] ∈ separators -> len text < _chunk_size ts ->
  _split_text ts text separators = Ok (option_list (_join_docs [text] [])).
Proof.
  intros Hin Hshort. rewrite _split_text_eq.
  destruct (choose_separator_spec text separators Hin) as (sep & new & -> & _).
  destruct (_split_text_with_regex_spec text sep) as (splits & -> & Hcat & Hpos).
  simpl. rewrite split_loop_all_good.
  2:{ apply Forall_forall. intros s Hs. apply elem_concat_len in Hs.
      rewrite Hcat in Hs. lia. }
  simpl. destruct splits as [|s rest].
  - simpl in Hcat. subst text. reflexivity.
  - unfold flush. rewrite _merge_splits_fits by (rewrite Hcat; lia).
    simpl. by rewrite (_join_docs_concat _ _ Hcat).
Qed.

(** ** Decimal page numbers *)

Lemma string_of_uint_digits (d : Decimal.uint) :
  Forall (fun c => isdigit c = true)
         (list_ascii_of_string (NilEmpty.string_of_uint d)).
Proof. induction d; simpl; constructor; done. Qed.

Lemma str_of_int_digits (n : Z) :
  0 <= n ->
  str_of_int n <> [] /\ Forall (fun c => isdigit c = true) (str_of_int n).
Proof.
  intros Hn. unfold str_of_int. destruct n as [|p|p]; [| |lia].
  - split; [done|]. repeat constructor.
  - simpl. unfold NilZero.string_of_uint.
    destruct (Pos.to_uint p) eqn:E; (split; [done|]);
      [repeat constructor | apply string_of_uint_digits ..].
Qed.

Lemma span_run (f : ascii -> bool) (run : str) (c : ascii) (rest : str) :
  Forall (fun x => f x = true) run -> f c = false ->
  span f (run ++ c :: rest) = (run, c :: rest).
Proof.
  intros Hrun Hc. induction Hrun as [|x run Hx _ IH]; simpl.
  - by rewrite Hc.
  - by rewrite Hx, IH.
Qed.

(** The marker that [page_line] writes is found at the start of the line,
    and deleting it leaves the page text. *)
Lemma marker_at_page_line (p : PageInfo) :
  0 <= pi_page p -> marker_at (page_line p) = Some (pi_text p).
Proof.
  intros Hn. destruct (str_of_int_digits _ Hn) as [Hne Hd].
  unfold marker_at, page_line. rewrite strip_prefix_app_eq.
  change (lit ": " ++ pi_text p) with (":"%char :: " "%char :: pi_text p).
  rewrite (span_run _ _ _ _ Hd) by reflexivity.
  destruct (str_of_int (pi_page p)); [done|]. reflexivity.
Qed.

Lemma find_marker_page_line (p : PageInfo) :
  0 <= pi_page p -> find_marker (page_line p) = Some ([], pi_text p).
Proof.
  intros Hn. pose proof (marker_at_page_line p Hn) as H.
  unfold page_line in *. simpl in *. by rewrite H.
Qed.

Lemma match_page_number_page_line (p : PageInfo) (rest : str) :
  0 <= pi_page p ->
  match_page_number (lit "Page " ++ str_of_int (pi_page p) ++ ":"%char :: rest)
  = Some (str_of_int (pi_page p)).
Proof.
  intros Hn. destruct (str_of_int_digits _ Hn) as [Hne Hd].
  unfold match_page_number. rewrite strip_prefix_app_eq.
  rewrite (span_run _ _ _ _ Hd) by reflexivity.
  by destruct (str_of_int (pi_page p)).
Qed.


Lemma trimmedb_trimmed (s : str) : trimmedb s = true -> trimmed s.
Proof.
  unfold trimmedb. intros H. split.
  - intros c r ->. simpl in H. destruct (last (c :: r)) eqn:E.
    + apply andb_true_iff in H as [H _]. by apply negb_true_iff in H.
    + by apply last_None in E.
  - intros x c ->. rewrite last_snoc in H.
    destruct (head (x ++ [c])) eqn:E; [|by destruct x].
    apply andb_true_iff in H as [_ H]. by apply negb_true_iff in H.
Qed.

(** ** Round trip *)


Example marker_run_chunks :
  source_text (pdf_all_text 0 (pdf_pages marker_pdf)) = lit "see Page 3: intro"
  /\ map page_content (returned marker_run) = [lit "see intro"].
Proof. split; vm_compute; reflexivity. Qed.


(** ** Pages that fit a chunk *)

Lemma int_of_digits_str_of_int (n m : Z) :
  0 <= n -> int_of_digits (str_of_int n) = Ok m -> m = n.
Proof.
  intros Hn. unfold int_of_digits, str_of_int.
  destruct (_ <? _)%nat; [discriminate|].
  rewrite string_of_list_ascii_of_string.
  destruct n as [|p|p]; [| |lia].
  - simpl. intros H; by inversion H.
  - simpl. pose proof (DecimalPos.Unsigned.of_to p) as Hof.
    assert (Hs : NilZero.string_of_uint (Pos.to_uint p)
                 = NilEmpty.string_of_uint (Pos.to_uint p)).
    { unfold NilZero.string_of_uint.
      destruct (Pos.to_uint p); [discriminate Hof|reflexivity..]. }
    rewrite Hs, NilEmpty.usu. intros H; inversion H.
    unfold Z.of_uint. by rewrite Hof.
Qed.

Lemma lstrip_keeps (u : str) (c : ascii) (v : str) :
  isspace c = false -> exists u', lstrip (u ++ c :: v) = u' ++ c :: v.
Proof.
  intros Hc. induction u as [|x u (u' & IH)]; simpl.
  - rewrite Hc. by exists [].
  - destruct (isspace x); [by exists u'|by exists (x :: u)].
Qed.

(** Stripping on the right keeps everything up to a character that is not
    whitespace. *)
Lemma rstrip_keeps (a : str) (c : ascii) (y : str) :
  isspace c = false -> exists y', rstrip (a ++ c :: y) = a ++ c :: y'.
Proof.
  intros Hc. unfold rstrip. rewrite reverse_app, reverse_cons, <- app_assoc.
  simpl. destruct (lstrip_keeps (reverse y) c (reverse a) Hc) as (u' & ->).
  exists (reverse u'). rewrite reverse_app, reverse_cons, reverse_involutive.
  by rewrite <- app_assoc.
Qed.

(** The page number read from a chunk is the one of the page that the
    first split of its window carries. *)
Lemma page_num_of_window (p : PageInfo) (h : str) (t : list str) :
  0 <= pi_page p -> carries p h ->
  page_num_of (strip (concat (h :: t))) = int_of_digits (str_of_int (pi_page p)).
Proof.
  intros Hn Hc.
  assert (Hl : lstrip (concat (h :: t)) = page_line p ++ concat t).
  { destruct Hc as [-> | ->]; reflexivity. }
  assert (Hx : page_line p ++ concat t
               = (lit "Page " ++ str_of_int (pi_page p))
                 ++ ":"%char :: (" "%char :: pi_text p ++ concat t)).
  { unfold page_line. by rewrite <- !app_assoc. }
  destruct (rstrip_keeps (lit "Page " ++ str_of_int (pi_page p)) ":"%char
              (" "%char :: pi_text p ++ concat t) eq_refl) as (y' & Hr).
  unfold strip. rewrite Hl, Hx, Hr, <- app_assoc.
  unfold page_num_of. by rewrite match_page_number_page_line.
Qed.

Lemma _split_text_with_regex_alternate (text : str) (s0 : ascii) (s' : str)
    (first : str) (rest : list str) :
  re_split s0 s' text = first :: alternate (s0 :: s') rest ->
  _split_text_with_regex text (s0 :: s')
  = Ok (filter (fun s => nonempty s = true) (first :: map (app (s0 :: s')) rest)).
Proof.
  intros Hre.
  assert (Hodd : Nat.even (length (first :: alternate (s0 :: s') rest)) = false).
  { rewrite length_cons, Nat.even_succ, <- Nat.negb_even, length_alternate.
    reflexivity. }
  unfold _split_text_with_regex. rewrite Hre, Hodd. simpl tail.
  rewrite pairs_from_1_alternate. reflexivity.
Qed.

Lemma partition_cons (sep : str) (c : ascii) (t : str) :
  partition sep (c :: t)
  = match strip_prefix sep (c :: t) with
    | Some rest => Some ([], rest)
    | None => match partition sep t with
              | Some (a, b) => Some (c :: a, b)
              | None => None
              end
    end.
Proof. reflexivity. Qed.

Lemma strip_prefix_other (a c : ascii) (t rest : str) :
  c <> a -> strip_prefix (a :: rest) (c :: t) = None.
Proof.
  intros Hc. simpl. destruct (ascii_eqb a c) eqn:E; [|done].
  apply Ascii.eqb_eq in E. congruence.
Qed.

Lemma partition_blank_line (a b : str) :
  NL ∉ a -> partition [NL; NL] (a ++ [NL; NL] ++ b) = Some (a, b).
Proof.
  induction a as [|c a IH]; intros Hnl.
  - reflexivity.
  - apply not_elem_of_cons in Hnl as [Hc Ha].
    change ((c :: a) ++ [NL; NL] ++ b) with (c :: (a ++ [NL; NL] ++ b)).
    rewrite partition_cons, strip_prefix_other by done.
    by rewrite (IH Ha).
Qed.

Lemma partition_no_newline (a : str) : NL ∉ a -> partition [NL; NL] a = None.
Proof.
  induction a as [|c a IH]; intros Hnl; [reflexivity|].
  apply not_elem_of_cons in Hnl as [Hc Ha].
  rewrite partition_cons, strip_prefix_other by done. by rewrite (IH Ha).
Qed.

Lemma contains_blank_line (a b : str) : contains [NL; NL] (a ++ [NL; NL] ++ b) = true.
Proof.
  induction a as [|c a IH]; [reflexivity|].
  change ((c :: a) ++ [NL; NL] ++ b) with (c :: (a ++ [NL; NL] ++ b)).
  change (contains [NL; NL] (c :: (a ++ [NL; NL] ++ b)))
    with (match strip_prefix [NL; NL] (c :: (a ++ [NL; NL] ++ b)) with
          | Some _ => true
          | None => contains [NL; NL] (a ++ [NL; NL] ++ b)
          end).
  by destruct (strip_prefix _ _).
Qed.

(** Lines without a newline in them, joined by blank lines, split back
    into these lines. *)
Lemma re_split_lines (ls : list str) :
  forall l : str,
    NL ∉ l -> Forall (fun x => NL ∉ x) ls ->
    re_split NL [NL] (join [NL; NL] (l :: ls)) = l :: alternate [NL; NL] ls.
Proof.
  induction ls as [|l' ls IH]; intros l Hl Hls.
  - simpl. rewrite re_split_eq, partition_no_newline by done. reflexivity.
  - inversion Hls as [|? ? Hl' Hls']; subst.
    change (join [NL; NL] (l :: l' :: ls))
      with (l ++ [NL; NL] ++ join [NL; NL] (l' :: ls)).
    rewrite re_split_eq, partition_blank_line by done.
    rewrite (IH l' Hl' Hls'). reflexivity.
Qed.

Lemma page_line_no_newline (p : PageInfo) :
  0 <= pi_page p -> NL ∉ pi_text p -> NL ∉ page_line p.
Proof.
  intros Hn Ht. unfold page_line. rewrite !not_elem_of_app.
  split; [|split; [|split]]; try done.
  - intros H. simpl in H. repeat (apply elem_of_cons in H as [H|H]; [discriminate|]).
    inversion H.
  - destruct (str_of_int_digits _ Hn) as [_ Hd]. intros H.
    apply (proj1 (Forall_forall _ _) Hd) in H. discriminate H.
  - intros H. simpl in H. repeat (apply elem_of_cons in H as [H|H]; [discriminate|]).
    inversion H.
Qed.

(** ** Sorted page numbers *)

Lemma strongly_sorted_sublist {A : Type} (R : A -> A -> Prop) (l k : list A) :
  sublist l k -> StronglySorted R k -> StronglySorted R l.
Proof.
  induction 1 as [|x l k Hs IH|x l k Hs IH]; intros Hk.
  - constructor.
  - inversion Hk as [|? ? Hk' Hall]; subst. constructor; [by apply IH|].
    apply Forall_forall. intros y Hy.
    apply (proj1 (Forall_forall _ _) Hall). by eapply elem_of_sublist.
  - inversion Hk; subst. by apply IH.
Qed.

Lemma strongly_sorted_lookup (l : list Z) :
  StronglySorted Z.le l ->
  forall (i j : nat) (p q : Z),
    (i < j)%nat -> l !! i = Some p -> l !! j = Some q -> p <= q.
Proof.
  induction 1 as [|x l Hs IH Hall]; intros i j p q Hij Hi Hj.
  - by rewrite lookup_nil in Hi.
  - destruct j as [|j]; [lia|]. simpl in Hj. destruct i as [|i].
    + simpl in Hi. inversion Hi; subst.
      apply (proj1 (Forall_forall _ _) Hall). by eapply list_elem_of_lookup_2.
    + simpl in Hi. eapply IH; [|exact Hi|exact Hj]. lia.
Qed.

Lemma sublist_Forall2_l {A B : Type} (R : A -> B -> Prop) (l : list A)
    (k k' : list B) :
  Forall2 R l k -> sublist k' k ->
  exists l', sublist l' l /\ Forall2 R l' k'.
Proof.
  intros HF. revert k'. induction HF as [|x y l k Hxy _ IH]; intros k' Hs.
  - apply sublist_nil_r in Hs as ->. exists []. split; constructor.
  - apply sublist_cons_r in Hs as [Hs|(k'' & -> & Hs)].
    + destruct (IH _ Hs) as (l' & Hl' & HF'). exists l'.
      split; [by apply sublist_cons|done].
    + destruct (IH _ Hs) as (l' & Hl' & HF'). exists (x :: l').
      split; [by apply sublist_skip|by constructor].
Qed.

(** The chunks of [_merge_splits], each with the first split of the window
    it is joined from; these first splits come in the order of the splits. *)
Lemma windows_heads (ws : list (list str)) :
  Forall (fun w => w <> []) ws ->
  exists hs,
    sublist hs (omap head ws)
    /\ Forall2 (fun h chunk => exists t, chunk = strip (concat (h :: t)))
               hs (omap (fun w => _join_docs w []) ws).
Proof.
  induction 1 as [|w ws Hw _ (hs & Hsub & HF)].
  - exists []. split; constructor.
  - destruct w as [|h t]; [done|]. simpl.
    destruct (_join_docs (h :: t) []) as [chunk|] eqn:E.
    + exists (h :: hs). split; [by apply sublist_skip|].
      constructor; [|done]. exists t. by apply _join_docs_some in E as [-> _].
    + exists hs. split; [by apply sublist_cons|done].
Qed.

Lemma Forall2_chain {A B C : Type} (R : A -> B -> Prop) (S : B -> C -> Prop)
    (T : A -> C -> Prop) (l : list A) (k : list B) (m : list C) :
  (forall x y z, R x y -> S y z -> T x z) ->
  Forall2 R l k -> Forall2 S k m -> Forall2 T l m.
Proof.
  intros HT HR. revert m. induction HR as [|x y l k Hxy _ IH]; intros m HS.
  - inversion HS. constructor.
  - inversion HS; subst. constructor; [by eapply HT|by apply IH].
Qed.

Lemma filter_nonempty_all (l : list str) :
  Forall (fun s => s <> []) l -> filter (fun s => nonempty s = true) l = l.
Proof.
  induction 1 as [|s l Hs _ IH]; [reflexivity|].
  rewrite filter_cons_True by (by destruct s). by rewrite IH.
Qed.

Lemma choose_separator_blank_line (text : str) :
  contains [NL; NL] text = true ->
  choose_separator text chunk_separators = Ok ([NL; NL], [[NL]; lit ". "; lit " "; []]).
Proof.
  intros H. unfold choose_separator, chunk_separators.
  change (find_separator text [[NL; NL]; [NL]; lit ". "; lit " "; []])
    with (if contains [NL; NL] text
          then Some ([NL; NL], [[NL]; lit ". "; lit " "; []])
          else find_separator text [[NL]; lit ". "; lit " "; []]).
  by rewrite H.
Qed.

Lemma page_splits_carry (P : PageInfo -> Prop) (all_text : list PageInfo) :
  Forall P all_text ->
  Forall2 (fun p s => P p /\ carries p s) all_text (page_splits all_text).
Proof.
  unfold page_splits. intros [|p rest Hp Hrest]; simpl; [constructor|].
  constructor; [split; [done|by left]|].
  induction Hrest as [|q rest Hq _ IH]; simpl; constructor;
    [split; [done|by right]|exact IH].
Qed.

(** When every page line fits, the chunks are joined from windows of
    whole page lines. *)
Lemma split_text_page_lines (chunk_size chunk_overlap : Z)
    (all_text : list PageInfo) :
  0 < chunk_size -> 0 <= chunk_overlap ->
  all_text <> [] -> Forall (line_fits chunk_size) all_text ->
  exists ws,
    split_text (mkTextSplitter chunk_size chunk_overlap chunk_separators)
      (combined_text all_text) = Ok (omap (fun w => _join_docs w []) ws)
    /\ Forall (fun w => w <> []) ws
    /\ sublist (omap head ws) (page_splits all_text).
Proof.
  intros Hsize Hov Hne Hfit.
  destruct all_text as [|p rest]; [done|].
  inversion Hfit as [|? ? (Hp0 & Hpnl & Hplen) Hrest]; subst.
  unfold split_text, combined_text, page_splits. simpl _separators.
  destruct rest as [|q rest].
  - exists [[page_line p]]. simpl map. simpl join.
    rewrite _split_text_short; simpl;
      [|apply chunk_separators_empty|lia].
    split; [by destruct (_join_docs [page_line p] [])|].
    split; [by repeat constructor|]. simpl. apply sublist_skip, sublist_nil.
  - change (map page_line (p :: q :: rest))
      with (page_line p :: map page_line (q :: rest)).
    assert (Hlne : page_line p <> []) by done.
    remember (page_line p) as l eqn:El.
    remember (map page_line (q :: rest)) as ls eqn:Els.
    assert (Hls : Forall (fun x => (NL ∉ x) /\ len x + 2 < chunk_size) ls).
    { subst ls. apply Forall_fmap. eapply Forall_impl; [exact Hrest|].
      intros x (Hx0 & Hxnl & Hxlen). simpl. split; [|done].
      by apply page_line_no_newline. }
    assert (Hre : re_split NL [NL] (join [NL; NL] (l :: ls))
                  = l :: alternate [NL; NL] ls).
    { apply re_split_lines; [subst l; by apply page_line_no_newline|].
      eapply Forall_impl; [exact Hls|]. by intros x [? _]. }
    assert (Hgood : Forall (fun s => 0 < len s < chunk_size)
                      (l :: map (app [NL; NL]) ls)).
    { constructor.
      - pose proof (len_nonneg l). destruct l; [done|].
        unfold len in *. simpl in *. lia.
      - apply Forall_fmap. eapply Forall_impl; [exact Hls|]. intros x [_ Hx].
        simpl. change (NL :: NL :: x) with ([NL; NL] ++ x).
        rewrite len_app. change (len [NL; NL]) with 2.
        pose proof (len_nonneg x). lia. }
    assert (Hsplits : filter (fun s => nonempty s = true)
                        (l :: map (app [NL; NL]) ls)
                      = l :: map (app [NL; NL]) ls).
    { apply filter_nonempty_all. eapply Forall_impl; [exact Hgood|].
      intros x [Hx _] ->. change (len []) with 0 in Hx. lia. }
    assert (Hcontains : contains [NL; NL] (join [NL; NL] (l :: ls)) = true).
    { subst ls. simpl map.
      change (join [NL; NL] (l :: page_line q :: map page_line rest))
        with (l ++ [NL; NL] ++ join [NL; NL] (page_line q :: map page_line rest)).
      apply contains_blank_line. }
    rewrite _split_text_eq, (choose_separator_blank_line _ Hcontains).
    rewrite (_split_text_with_regex_alternate _ _ _ _ _ Hre), Hsplits.
    cbn [mbind result_bind]. rewrite split_loop_all_good.
    2:{ eapply Forall_impl; [exact Hgood|]. by intros x [_ ?]. }
    rewrite app_nil_l. unfold flush.
    destruct (_merge_splits_spec
                (mkTextSplitter chunk_size chunk_overlap chunk_separators)
                Hov Hsize (l :: map (app [NL; NL]) ls) Hgood)
      as (ws & Hm & Hws & Hheads & _).
    exists ws. rewrite Hm. split; [reflexivity|]. split; [|exact Hheads].
    eapply Forall_impl; [exact Hws|]. by intros w [? _].
Qed.

Lemma page_numbers_of_pages (ps : list PageInfo) (docs : list Document) :
  Forall2 (fun p doc => page_of doc = Some (VInt (pi_page p))) ps docs ->
  page_numbers docs = map pi_page ps.
Proof.
  induction 1 as [|p doc ps docs Hp _ IH]; [reflexivity|].
  unfold page_numbers. simpl. rewrite Hp. simpl. f_equal. exact IH.
Qed.

(** When every page line fits a chunk and the page numbers of [all_text]
    go up, so do the page values of the chunks. *)
Lemma create_document_chunks_page_order (all_text : list PageInfo)
    (md : gmap string value) (chunk_size chunk_overlap : Z) (docs : list Document) :
  0 < chunk_overlap < chunk_size -> md !! "page"%string = None ->
  Forall (line_fits chunk_size) all_text ->
  StronglySorted (fun p q => pi_page p <= pi_page q) all_text ->
  create_document_chunks all_text md chunk_size chunk_overlap = Ok docs ->
  pages_non_decreasing docs.
Proof.
  intros Hsizes Hmd Hfit Hsorted H.
  destruct all_text as [|p0 rest0] eqn:Eall.
  { apply create_document_chunks_inv in H as (ts & chunks & Hts & Hsplit & Hmake).
    rewrite splitter_valid in Hts by lia. inversion Hts; subst ts; clear Hts.
    unfold split_text, combined_text in Hsplit. simpl in Hsplit.
    rewrite _split_text_short in Hsplit
      by (simpl; first [apply chunk_separators_empty | change (len []) with 0; lia]).
    inversion Hsplit; subst chunks. simpl in Hmake. inversion Hmake; subst.
    intros i j a b _ Hi _. inversion Hi. }
  rewrite <- Eall in *.
  assert (Hne : all_text <> []) by (by subst all_text).
  clear Eall p0 rest0.
  apply create_document_chunks_inv in H as (ts & chunks & Hts & Hsplit & Hmake).
  rewrite splitter_valid in Hts by lia. inversion Hts; subst ts; clear Hts.
  destruct (split_text_page_lines chunk_size chunk_overlap all_text)
    as (ws & Hws & Hwne & Hheads); try lia; try done.
  rewrite Hws in Hsplit. inversion Hsplit; subst chunks; clear Hsplit.
  destruct (windows_heads ws Hwne) as (hs & Hhs & Hchunks).
  destruct (sublist_Forall2_l (fun p s => line_fits chunk_size p /\ carries p s)
              all_text (page_splits all_text) hs)
    as (ps & Hps & Hcarry);
    [by apply page_splits_carry | by etransitivity |].
  apply make_documents_chunks in Hmake.
  assert (Hpages : Forall2 (fun p doc => page_of doc = Some (VInt (pi_page p)))
                     ps docs).
  { eapply Forall2_chain; [|exact (Forall2_chain _ _
      (fun p chunk => 0 <= pi_page p
         /\ page_num_of chunk = int_of_digits (str_of_int (pi_page p)))
      _ _ _ (fun p h chunk Hc Hj =>
               match Hc, Hj with
               | conj Hf Hcar, ex_intro _ t Ht =>
                   conj (proj1 Hf)
                     (eq_ind_r (fun c => page_num_of c = _)
                        (page_num_of_window p h t (proj1 Hf) Hcar) Ht)
               end) Hcarry Hchunks)|exact Hmake].
    intros p chunk doc [Hp0 Hnum] [_ Hdoc].
    destruct (Hdoc Hmd) as (n & Hn & ->). rewrite Hnum in Hn.
    by rewrite (int_of_digits_str_of_int _ _ Hp0 Hn). }
  unfold pages_non_decreasing. rewrite (page_numbers_of_pages _ _ Hpages).
  apply strongly_sorted_lookup.
  apply (StronglySorted_fmap pi_page (fun p q => pi_page p <= pi_page q));
    [done|].
  by eapply strongly_sorted_sublist.
Qed.

(** ** Pages of a PDF *)

Lemma collapse_whitespace_chars (text : str) (c : ascii) :
  c ∈ collapse_whitespace text -> c = " "%char \/ isspace c = false.
Proof.
  induction text as [|x r IH]; simpl; [by intros H; inversion H|].
  destruct (isspace x) eqn:Ex.
  - destruct r as [|y r'].
    + intros H. apply list_elem_of_singleton in H. auto.
    + destruct (isspace y) eqn:Ey; [exact IH|].
      intros H. apply elem_of_cons in H as [->|H]; auto.
  - intros H. apply elem_of_cons in H as [->|H]; auto.
Qed.

Lemma strip_elem (text : str) (c : ascii) : c ∈ strip text -> c ∈ text.
Proof.
  intros H. unfold strip in H.
  destruct (lstrip_split text) as (p & Hp & _).
  destruct (rstrip_split (lstrip text)) as (q & Hq & _).
  rewrite Hp, Hq. apply elem_of_app; right. apply elem_of_app; by left.
Qed.

Lemma page_text_of_no_newline (text_blocks : list Block) :
  NL ∉ page_text_of text_blocks.
Proof.
  intros H. unfold page_text_of in H. apply strip_elem in H.
  apply collapse_whitespace_chars in H as [H|H]; discriminate H.
Qed.

(** The pages of a PDF are numbered upwards and their text is on one line. *)
Lemma pdf_all_text_pages (pages : list (list Block)) :
  forall page_num : Z,
    Forall (fun p => page_num < pi_page p /\ (NL ∉ pi_text p))
           (pdf_all_text page_num pages)
    /\ StronglySorted (fun p q => pi_page p <= pi_page q)
                      (pdf_all_text page_num pages).
Proof.
  induction pages as [|page rest IH]; intros n; simpl.
  - split; constructor.
  - destruct (IH (n + 1)) as [Hall Hsorted].
    assert (Hall' : Forall (fun p => n < pi_page p /\ (NL ∉ pi_text p))
                      (pdf_all_text (n + 1) rest)).
    { eapply Forall_impl; [exact Hall|]. intros p [? ?]. split; [lia|done]. }
    destruct (nonempty (page_text_of page)); simpl; [|by split].
    split.
    + constructor; [|done]. simpl. split; [lia|apply page_text_of_no_newline].
    + constructor; [done|]. eapply Forall_impl; [exact Hall|].
      intros p [? _]. simpl. lia.
Qed.

Lemma pdf_chunks_page_order (doc : PdfDocument) (md : gmap string value)
    (chunk_size chunk_overlap : Z) (docs : list Document) :
  0 < chunk_overlap < chunk_size -> md !! "page"%string = None ->
  pdf_lines_fit chunk_size doc ->
  create_document_chunks (pdf_all_text 0 (pdf_pages doc)) md
    chunk_size chunk_overlap = Ok docs ->
  pages_non_decreasing docs.
Proof.
  intros Hsizes Hmd Hfit H.
  destruct (pdf_all_text_pages (pdf_pages doc) 0) as [Hall Hsorted].
  eapply create_document_chunks_page_order; [exact Hsizes|exact Hmd| |exact Hsorted|exact H].
  unfold pdf_lines_fit in Hfit. apply Forall_forall. intros p Hp.
  apply (proj1 (Forall_forall _ _) Hall) in Hp as Hp1.
  apply (proj1 (Forall_forall _ _) Hfit) in Hp as Hp2.
  destruct Hp1 as [? ?]. split; [lia|]. split; done.
Qed.

Lemma page_numbers_map (post : Document -> Document) (docs : list Document) :
  keeps_chunk_fields post -> page_numbers (map post docs) = page_numbers docs.
Proof.
  intros Hpost. induction docs as [|d docs IH]; [reflexivity|].
  unfold page_numbers in *. simpl. destruct (Hpost d) as (_ & _ & ->).
  destruct (page_of d) as [[]|]; simpl; try exact IH. f_equal. exact IH.
Qed.

Lemma pages_non_decreasing_map (post : Document -> Document) (docs : list Document) :
  keeps_chunk_fields post -> pages_non_decreasing docs ->
  pages_non_decreasing (map post docs).
Proof.
  intros Hpost H. unfold pages_non_decreasing. by rewrite page_numbers_map.
Qed.

Lemma pages_non_decreasing_nil : pages_non_decreasing [].
Proof. intros i j p q _ H. inversion H. Qed.

(** C3, amended: for a PDF every marked page line of which, with the blank
    line before it, is shorter than [chunk_size], the ['page'] values of
    the chunks that [extract_text_from_pdf] returns, and of those that
    [process_document_from_bytes] returns for it, never go down. *)
Theorem pdf_pages_in_order_when_lines_fit (doc : PdfDocument)
    (chunk_size chunk_overlap : Z) :
  0 < chunk_overlap < chunk_size -> pdf_lines_fit chunk_size doc ->
  (forall pdf_path w data docs,
      files w !! pdf_path = Some data -> fitz_parse w data = Ok doc ->
      (extract_text_from_pdf pdf_path chunk_size chunk_overlap w).1 = Ok docs ->
      pages_non_decreasing docs)
  /\ (forall doc_bytes filename w docs,
        file_ext_of filename = lit ".pdf" -> fitz_parse w doc_bytes = Ok doc ->
        (process_document_from_bytes doc_bytes filename (Some chunk_size)
           (Some chunk_overlap) w).1 = Ok docs ->
        pages_non_decreasing docs).
Proof.
  intros Hsizes Hfit. split.
  - intros pdf_path w data docs Hfile Hparse H.
    destruct (pdf_all_text 0 (pdf_pages doc)) as [|p ps] eqn:E.
    + unfold extract_text_from_pdf, path_exists, fitz_open in H.
      rewrite bool_decide_eq_true_2 in H by (rewrite Hfile; by eexists).
      rewrite Hfile, Hparse in H. simpl in H. rewrite E in H.
      inversion H. apply pages_non_decreasing_nil.
    + rewrite (extract_pdf_run _ _ _ _ _ _ Hfile Hparse) in H by (by rewrite E).
      eapply pdf_chunks_page_order; [exact Hsizes| |exact Hfit|exact H].
      apply pdf_metadata_dict_ok.
  - intros doc_bytes filename w docs Hext Hparse H.
    rewrite process_document_from_bytes_processed in H.
    unfold processed in H. rewrite Hext, Hparse in H. simpl in H.
    destruct (pdf_all_text 0 (pdf_pages doc)) as [|p ps] eqn:E.
    + inversion H. apply pages_non_decreasing_nil.
    + apply fmap_result_ok in H as (docs0 & H & ->).
      apply pages_non_decreasing_map; [apply set_provenance_keeps|].
      rewrite <- E in H.
      eapply pdf_chunks_page_order; [exact Hsizes| |exact Hfit|exact H].
      apply pdf_metadata_dict_ok.
Qed.

Lemma pdf_pages_in_order_when_lines_fit_witness :
  page_numbers (returned two_page_fitting_run) = [1; 2]
  /\ pages_non_decreasing (returned two_page_fitting_run).
Proof.
  split; [vm_compute; reflexivity|].
  destruct (pdf_pages_in_order_when_lines_fit two_page_pdf 40 5) as [_ H].
  - lia.
  - unfold pdf_lines_fit. vm_compute. repeat constructor.
  - apply (H [] (lit "report.pdf") two_page_world).
    + reflexivity.
    + reflexivity.
    + vm_compute. reflexivity.
Defined.

(** * Further properties of the code

    What the functions of [document_processor.py] do besides: the world
    they leave, the errors they raise, the metadata of the chunks, the pages
    of a PDF and of a DOCX, paths and extensions, and what chunking keeps
    of the text. *)

(** ** The world after a call *)

Lemma extract_text_from_pdf_world (pdf_path : str) (chunk_size chunk_overlap : Z)
    (w : World) :
  (extract_text_from_pdf pdf_path chunk_size chunk_overlap w).2
  = if path_exists w pdf_path then log_call (FitzOpen pdf_path) w else w.
Proof.
  unfold extract_text_from_pdf, fitz_open.
  destruct (path_exists w pdf_path); simpl; [|done].
  destruct (files w !! pdf_path) as [data|]; [|done].
  destruct (fitz_parse w data) as [doc|e]; [|done].
  by destruct (pdf_all_text 0 (pdf_pages doc)).
Qed.

Lemma extract_text_from_docx_world (docx_path : str) (chunk_size chunk_overlap : Z)
    (w : World) :
  (extract_text_from_docx docx_path chunk_size chunk_overlap w).2
  = if path_exists w docx_path then log_call (DocxOpen docx_path) w else w.
Proof.
  unfold extract_text_from_docx, docx_Document.
  destruct (path_exists w docx_path); simpl; [|done].
  destruct (files w !! docx_path) as [data|]; [|done].
  destruct (docx_parse w data) as [doc|e]; [|done].
  by destruct (paragraphs_text_of doc).
Qed.

(** The world that [process_document_from_bytes] leaves. *)
Lemma process_document_from_bytes_world (doc_bytes : list Byte.byte)
    (filename : str) (chunk_size chunk_overlap : option Z) (w : World) :
  let temp_path := next_tmp w ++ file_ext_of filename in
  (process_document_from_bytes doc_bytes filename chunk_size chunk_overlap w).2
  = if create_error (file_ext_of filename) is Some _ then w
    else
      mkWorld (delete temp_path (files w)) (next_tmp w) (fitz_parse w) (docx_parse w)
        (parser_calls w ++
           if str_eqb (file_ext_of filename) (lit ".pdf") then [FitzOpen temp_path]
           else if str_eqb (file_ext_of filename) (lit ".docx")
                   || str_eqb (file_ext_of filename) (lit ".doc")
                then [DocxOpen temp_path]
                else []).
Proof.
  intros temp_path.
  destruct (create_error (file_ext_of filename)) as [e|] eqn:Hc;
    [by rewrite (process_document_from_bytes_not_created _ _ _ _ _ _ Hc)|].
  rewrite (process_document_from_bytes_created _ _ _ _ _ Hc). cbv zeta.
  fold temp_path.
  set (w1 := write_file temp_path doc_bytes w).
  assert (Hex : path_exists w1 temp_path = true) by apply path_exists_write.
  destruct (str_eqb (file_ext_of filename) (lit ".pdf")).
  - pose proof (extract_text_from_pdf_world temp_path
                  (default default_chunk_size chunk_size)
                  (default default_chunk_overlap chunk_overlap) w1) as Hw.
    destruct (extract_text_from_pdf _ _ _ w1) as [r w2]. simpl in Hw. subst w2.
    rewrite Hex. simpl.
    replace (path_exists (log_call (FitzOpen temp_path) w1) temp_path) with true
      by (symmetry; exact Hex).
    unfold remove_file, log_call, w1, write_file; simpl.
    by rewrite delete_insert_eq.
  - destruct (str_eqb (file_ext_of filename) (lit ".docx")
              || str_eqb (file_ext_of filename) (lit ".doc")).
    + pose proof (extract_text_from_docx_world temp_path
                    (default default_chunk_size chunk_size)
                    (default default_chunk_overlap chunk_overlap) w1) as Hw.
      destruct (extract_text_from_docx _ _ _ w1) as [r w2]. simpl in Hw. subst w2.
      rewrite Hex. simpl.
      replace (path_exists (log_call (DocxOpen temp_path) w1) temp_path) with true
        by (symmetry; exact Hex).
      unfold remove_file, log_call, w1, write_file; simpl.
      by rewrite delete_insert_eq.
    + simpl. rewrite Hex. unfold remove_file, w1, write_file; simpl.
      by rewrite delete_insert_eq, app_nil_r.
Qed.

(** X1: whatever the outcome of [process_document_from_bytes], value or
    exception, the scratch file is gone afterwards and every other file is
    as it was; when no scratch file could be created, for an extension
    with a NUL character or too long for a file name, no file has been
    touched. *)
Theorem scratch_file_is_removed (doc_bytes : list Byte.byte) (filename : str)
    (chunk_size chunk_overlap : option Z) (w : World) :
  files (process_document_from_bytes doc_bytes filename chunk_size chunk_overlap w).2
  = if create_error (file_ext_of filename) is Some _ then files w
    else delete (next_tmp w ++ file_ext_of filename) (files w).
Proof.
  rewrite process_document_from_bytes_world.
  by destruct (create_error (file_ext_of filename)).
Qed.

(** X2: [process_document_from_bytes] opens one parser, once, on the
    scratch file: [fitz] for [.pdf], [docx] for [.docx] and for [.doc], and
    none for another extension. *)
Theorem one_parser_call_on_scratch_file (doc_bytes : list Byte.byte)
    (filename : str) (chunk_size chunk_overlap : option Z) (w : World) :
  let temp_path := next_tmp w ++ file_ext_of filename in
  parser_calls
    (process_document_from_bytes doc_bytes filename chunk_size chunk_overlap w).2
  = parser_calls w ++
      if str_eqb (file_ext_of filename) (lit ".pdf") then [FitzOpen temp_path]
      else if str_eqb (file_ext_of filename) (lit ".docx")
              || str_eqb (file_ext_of filename) (lit ".doc")
           then [DocxOpen temp_path]
           else [].
Proof.
  intros temp_path. rewrite process_document_from_bytes_world.
  destruct (create_error (file_ext_of filename)) as [e|] eqn:Hc; [|done].
  destruct (not_created_is_unsupported _ _ Hc) as [-> ->].
  by rewrite app_nil_r.
Qed.

(** ** Provenance of the chunks *)

Lemma process_document_from_bytes_result (doc_bytes : list Byte.byte)
    (filename : str) (chunk_size chunk_overlap : option Z) (w : World) :
  exists documents,
    (process_document_from_bytes doc_bytes filename chunk_size chunk_overlap w).1
    = fmap_result (map (set_provenance filename)) documents.
Proof.
  destruct (create_error (file_ext_of filename)) as [e|] eqn:Hc.
  - rewrite (process_document_from_bytes_not_created _ _ _ _ _ _ Hc).
    by exists (Raise e).
  - rewrite (process_document_from_bytes_created _ _ _ _ _ Hc). cbv zeta.
    match goal with |- context [let '(_, _) := ?x in _] => destruct x as [r w1] end.
    by exists r.
Qed.

(** X3: every chunk that [process_document_from_bytes] returns names the
    file as the caller named it, letter case included, under ['source'] and
    under ['file_name']; the name of the scratch file is in neither. *)
Theorem returned_chunks_name_the_upload (doc_bytes : list Byte.byte)
    (filename : str) (chunk_size chunk_overlap : option Z) (w w' : World)
    (docs : list Document) :
  process_document_from_bytes doc_bytes filename chunk_size chunk_overlap w
  = (Ok docs, w') ->
  Forall (fun d => metadata d !! "source"%string = Some (VStr filename)
                   /\ metadata d !! "file_name"%string = Some (VStr filename)) docs.
Proof.
  intros H.
  destruct (process_document_from_bytes_result doc_bytes filename chunk_size
              chunk_overlap w) as (r & Hr).
  rewrite H in Hr. simpl in Hr. destruct r as [docs0|e]; [|done].
  simpl in Hr. inversion Hr; subst docs.
  apply Forall_forall. intros d Hd. apply list_elem_of_fmap in Hd as (d0 & -> & _).
  unfold set_provenance; simpl. split.
  - rewrite lookup_insert_ne by done. by rewrite lookup_insert_eq.
  - by rewrite lookup_insert_eq.
Qed.

Lemma returned_chunks_name_the_upload_witness :
  Forall (fun d => metadata d !! "source"%string = Some (VStr (lit "report.pdf"))
                   /\ metadata d !! "file_name"%string
                      = Some (VStr (lit "report.pdf")))
         (returned two_page_run).
Proof.
  apply (returned_chunks_name_the_upload [] (lit "report.pdf") (Some 16) (Some 2)
           two_page_world two_page_run.2).
  vm_compute. reflexivity.
Defined.

(** ** Failures of the parsers *)

(** X4: the parser reads the bytes the caller gave, and an exception it
    raises on them comes out of [process_document_from_bytes] unchanged. *)
Theorem parser_error_reaches_caller (doc_bytes : list Byte.byte) (filename : str)
    (chunk_size chunk_overlap : option Z) (w : World) (e : exn) :
  (file_ext_of filename = lit ".pdf" /\ fitz_parse w doc_bytes = Raise e)
  \/ ((file_ext_of filename = lit ".docx" \/ file_ext_of filename = lit ".doc")
      /\ docx_parse w doc_bytes = Raise e) ->
  (process_document_from_bytes doc_bytes filename chunk_size chunk_overlap w).1
  = Raise e.
Proof.
  intros H. rewrite process_document_from_bytes_processed. unfold processed.
  destruct H as [[Hext Hp] | [Hext Hp]].
  - rewrite Hext. simpl. by rewrite Hp.
  - destruct Hext as [Hext | Hext]; rewrite Hext; simpl; by rewrite Hp.
Qed.

Lemma parser_error_reaches_caller_witness :
  (process_document_from_bytes [] (lit "scan.DOC") None None empty_world).1
  = Raise (ParserError (lit "not a DOCX")).
Proof.
  apply (parser_error_reaches_caller [] (lit "scan.DOC") None None empty_world).
  right. split; [right|]; reflexivity.
Defined.

(** ** Chunks within the reach of [int] *)

(** With a chunk size that [int] can read in full, [create_document_chunks]
    returns, and returns a chunk when the text is not blank. *)
Lemma create_document_chunks_succeeds (all_text : list PageInfo)
    (md : gmap string value) (chunk_size chunk_overlap : Z) :
  2 <= chunk_size <= Z.of_nat max_str_digits ->
  0 <= chunk_overlap <= chunk_size ->
  is_Some (md !! "file_name"%string) ->
  ~ blank (combined_text all_text) ->
  exists docs,
    create_document_chunks all_text md chunk_size chunk_overlap = Ok docs
    /\ docs <> [].
Proof.
  intros Hsize Hov Hmd Hnb. unfold create_document_chunks.
  rewrite splitter_valid by lia. simpl.
  destruct (_split_text_ok (mkTextSplitter chunk_size chunk_overlap chunk_separators))
    with (separators := chunk_separators) (text := combined_text all_text)
    as (pieces & Hp & Hok & Hne); simpl; try lia; [apply chunk_separators_empty|].
  unfold split_text. simpl. rewrite Hp. simpl.
  destruct (make_documents_total md pieces Hmd) with (i := 0)
    as (docs & Hdocs & Hl).
  - eapply Forall_impl; [exact Hok|]. intros p (Hpl & _). simpl in Hpl.
    unfold len in *. lia.
  - exists docs. split; [done|]. intros ->. apply Hne; [done|].
    by destruct pieces.
Qed.

(** ** Synthetic pages are runs of whole paragraphs *)

Lemma lstrip_blank_app (b s : str) : blank b -> lstrip (b ++ s) = lstrip s.
Proof. induction 1 as [|c r Hc _ IH]; simpl; [done|]. by rewrite Hc. Qed.

Lemma rstrip_app_blank (s b : str) : blank b -> rstrip (s ++ b) = rstrip s.
Proof.
  intros Hb. unfold rstrip. rewrite reverse_app.
  rewrite lstrip_blank_app; [done|]. unfold blank. by apply Forall_reverse.
Qed.

Lemma strip_app_blank (s b : str) : trimmed s -> blank b -> strip (s ++ b) = s.
Proof.
  intros Ht Hb. destruct s as [|c r].
  - simpl. unfold strip. rewrite (lstrip_blank b Hb). reflexivity.
  - pose proof (trimmed_strip _ Ht) as Hs. unfold strip in *.
    destruct Ht as [Hh _]. rewrite lstrip_nonspace in Hs by eauto.
    change ((c :: r) ++ b) with (c :: (r ++ b)).
    rewrite lstrip_nonspace by eauto.
    change (c :: (r ++ b)) with ((c :: r) ++ b).
    by rewrite rstrip_app_blank.
Qed.

Lemma blank_line_blank : blank [NL; NL].
Proof. repeat constructor. Qed.

Lemma join_cons_cons (sep p q : str) (rest : list str) :
  join sep (p :: q :: rest) = p ++ sep ++ join sep (q :: rest).
Proof. reflexivity. Qed.

Lemma join_snoc (sep : str) (parts : list str) (p : str) :
  parts <> [] -> join sep (parts ++ [p]) = join sep parts ++ sep ++ p.
Proof.
  induction parts as [|a [|b r] IH]; intros Hne; [done|reflexivity|].
  change ((a :: b :: r) ++ [p]) with (a :: b :: (r ++ [p])).
  rewrite !join_cons_cons.
  change (b :: r ++ [p]) with ((b :: r) ++ [p]).
  rewrite IH by done. by rewrite <- !app_assoc.
Qed.

Lemma docx_buffer_snoc (paragraphs_text : list str) (text : str) :
  docx_buffer (paragraphs_text ++ [text])
  = docx_buffer paragraphs_text ++ (text ++ [NL; NL]).
Proof.
  unfold docx_buffer. rewrite map_app, concat_app. simpl. by rewrite app_nil_r.
Qed.

Lemma docx_buffer_join (paragraphs_text : list str) :
  paragraphs_text <> [] ->
  docx_buffer paragraphs_text = join [NL; NL] paragraphs_text ++ [NL; NL].
Proof.
  induction paragraphs_text as [|a [|b r] IH]; intros Hne; [done| |].
  - unfold docx_buffer. simpl. by rewrite app_nil_r.
  - rewrite join_cons_cons. change (docx_buffer (a :: b :: r))
      with ((a ++ [NL; NL]) ++ docx_buffer (b :: r)).
    rewrite IH by done. by rewrite <- !app_assoc.
Qed.

Lemma trimmed_app (a m b : str) :
  a <> [] -> b <> [] -> trimmed a -> trimmed b -> trimmed (a ++ m ++ b).
Proof.
  intros Ha Hb [Hah _] [_ Hbl]. split.
  - intros c r H. destruct a as [|x a]; [done|]. inversion H; subst. eauto.
  - intros x c H. destruct b as [|y b _] using rev_ind; [done|].
    rewrite !app_assoc in H. apply app_inj_tail in H as [_ <-].
    eapply Hbl. reflexivity.
Qed.

Lemma join_trimmed (parts : list str) :
  Forall (fun t => t <> [] /\ trimmed t) parts ->
  parts <> [] -> join [NL; NL] parts <> [] /\ trimmed (join [NL; NL] parts).
Proof.
  induction parts as [|a [|b r] IH]; intros Hall Hne; [done| |].
  - inversion Hall as [|? ? [H1 H2] _]; subst. done.
  - inversion Hall as [|? ? [H1 H2] Hr]; subst.
    destruct (IH Hr) as [H3 H4]; [done|].
    rewrite join_cons_cons. split.
    + by destruct a.
    + by apply trimmed_app.
Qed.

(** The page text that the buffer of a run of paragraphs gives. *)
Lemma strip_docx_buffer (paragraphs_text : list str) :
  Forall (fun t => t <> [] /\ trimmed t) paragraphs_text ->
  strip (docx_buffer paragraphs_text) = join [NL; NL] paragraphs_text.
Proof.
  intros Hall. destruct paragraphs_text as [|a r]; [reflexivity|].
  rewrite docx_buffer_join by done.
  apply strip_app_blank; [|apply blank_line_blank].
  by apply join_trimmed.
Qed.

Lemma len_docx_buffer_app (a b : list str) :
  len (docx_buffer (a ++ b)) = len (docx_buffer a) + len (docx_buffer b).
Proof. unfold docx_buffer. by rewrite map_app, concat_app, len_app. Qed.

Lemma docx_pages_of_cons (first : Z) (g : list str) (groups : list (list str)) :
  docx_pages_of first (g :: groups)
  = mkPageInfo first (join [NL; NL] g) :: docx_pages_of (first + 1) groups.
Proof.
  unfold docx_pages_of. rewrite imap_cons. f_equal.
  - f_equal. simpl. lia.
  - apply imap_ext. intros i x _. simpl. f_equal. lia.
Qed.

(** What the loop of [extract_text_from_docx] has made when it ends, from
    the paragraphs [run] that are in the buffer and those still to come. *)
Lemma docx_all_text_runs (threshold : Z) (paragraphs_text : list str) :
  0 <= threshold ->
  Forall (fun t => t <> [] /\ trimmed t) paragraphs_text ->
  forall (all_text : list PageInfo) (run : list str) (current_page : Z),
    Forall (fun t => t <> [] /\ trimmed t) run ->
    len (docx_buffer run) <= threshold ->
    exists groups,
      docx_all_text threshold paragraphs_text all_text (docx_buffer run) current_page
      = all_text ++ docx_pages_of current_page groups
      /\ concat groups = run ++ paragraphs_text
      /\ Forall (fun g => g <> []) groups
      /\ (forall g, g ∈ removelast groups -> threshold < len (docx_buffer g))
      /\ Forall (fun g => len (docx_buffer (removelast g)) <= threshold) groups.
Proof.
  intros HT Hall. induction Hall as [|text rest Htext Hrest IH];
    intros all_text run current_page Hrun Hlen.
  - simpl. rewrite strip_docx_buffer by done.
    destruct run as [|a r].
    + exists []. simpl. rewrite app_nil_r.
      repeat split; try constructor. intros g Hg. by apply elem_of_nil in Hg.
    + exists [a :: r].
      replace (nonempty (join [NL; NL] (a :: r))) with true.
      2:{ destruct (join_trimmed (a :: r) Hrun) as [Hne _]; [done|].
          by destruct (join [NL; NL] (a :: r)). }
      split; [|split; [|split; [|split]]].
      * rewrite docx_pages_of_cons. reflexivity.
      * simpl. by rewrite !app_nil_r.
      * by constructor.
      * simpl. intros g Hg. by apply elem_of_nil in Hg.
      * constructor; [|constructor].
        assert (a :: r = removelast (a :: r) ++ [List.last (a :: r) []]) as Heq
          by (apply app_removelast_last; done).
        rewrite Heq in Hlen. rewrite len_docx_buffer_app in Hlen.
        pose proof (len_nonneg (docx_buffer [List.last (a :: r) []])). lia.
  - simpl. rewrite <- docx_buffer_snoc.
    assert (Hrun' : Forall (fun t => t <> [] /\ trimmed t) (run ++ [text]))
      by (apply Forall_app; split; [done|by constructor]).
    destruct (threshold <? len (docx_buffer (run ++ [text]))) eqn:E.
    + apply Z.ltb_lt in E.
      destruct (IH (all_text ++ [mkPageInfo current_page
                                   (strip (docx_buffer (run ++ [text])))])
                  [] (current_page + 1)) as (groups & Heq & Hc & Hne & Hbig & Hsmall).
      * constructor.
      * change (len (docx_buffer [])) with 0. lia.
      * exists ((run ++ [text]) :: groups).
        split; [|split; [|split; [|split]]].
        -- change (docx_buffer []) with (@nil ascii) in Heq. rewrite Heq.
           rewrite docx_pages_of_cons, strip_docx_buffer by done.
           by rewrite <- app_assoc.
        -- simpl. rewrite Hc. simpl. by rewrite <- app_assoc.
        -- constructor; [by destruct run|done].
        -- intros g Hg. destruct groups as [|g' gs].
           ++ simpl in Hg. by apply elem_of_nil in Hg.
           ++ change (removelast ((run ++ [text]) :: g' :: gs))
                with ((run ++ [text]) :: removelast (g' :: gs)) in Hg.
              apply elem_of_cons in Hg as [-> | Hg]; [done|by apply Hbig].
        -- constructor; [|done]. by rewrite removelast_last.
    + apply Z.ltb_ge in E.
      destruct (IH all_text (run ++ [text]) current_page Hrun' E)
        as (groups & Heq & Hc & Hne & Hbig & Hsmall).
      exists groups. split; [done|]. split; [|done].
      rewrite Hc. by rewrite <- app_assoc.
Qed.

(** X5: the synthetic pages of a DOCX are runs of whole paragraphs: the
    runs, one after the other, are all the paragraphs in order, none is
    empty, page [k] is the paragraphs of the [k]-th run with a blank line
    between two of them, and the pages are numbered 1, 2, 3, ... *)
Theorem docx_pages_are_runs_of_paragraphs (threshold : Z) (doc : DocxDocument) :
  0 <= threshold ->
  exists groups,
    docx_all_text threshold (paragraphs_text_of doc) [] [] 1 = docx_pages_of 1 groups
    /\ concat groups = paragraphs_text_of doc
    /\ Forall (fun g => g <> []) groups.
Proof.
  intros HT.
  destruct (docx_all_text_runs threshold (paragraphs_text_of doc) HT
              (paragraphs_text_trimmed doc) [] [] 1 (Forall_nil_2 _))
    as (groups & Heq & Hc & Hne & _); [exact HT|].
  exists groups. done.
Qed.

Lemma docx_pages_are_runs_of_paragraphs_witness :
  exists groups,
    docx_all_text page_threshold (paragraphs_text_of docx_five_paragraphs) [] [] 1
    = docx_pages_of 1 groups
    /\ concat groups = paragraphs_text_of docx_five_paragraphs
    /\ Forall (fun g => g <> []) groups.
Proof.
  apply (docx_pages_are_runs_of_paragraphs page_threshold docx_five_paragraphs).
  unfold page_threshold. lia.
Defined.

(** X6: the synthetic pages of a DOCX are cut exactly at the first
    paragraph past the threshold.  The pages are the runs of a division of
    the paragraphs, in order, into runs none of which is empty; the
    paragraphs of every page but the last, each followed by a blank line,
    are longer than the threshold; and those of no page are, once its last
    paragraph is left out. *)
Theorem docx_page_is_cut_past_threshold (threshold : Z) (doc : DocxDocument) :
  0 <= threshold ->
  exists groups,
    docx_all_text threshold (paragraphs_text_of doc) [] [] 1 = docx_pages_of 1 groups
    /\ concat groups = paragraphs_text_of doc
    /\ Forall (fun g => g <> []) groups
    /\ (forall g, g ∈ removelast groups -> threshold < len (docx_buffer g))
    /\ Forall (fun g => len (docx_buffer (removelast g)) <= threshold) groups.
Proof.
  intros HT.
  destruct (docx_all_text_runs threshold (paragraphs_text_of doc) HT
              (paragraphs_text_trimmed doc) [] [] 1 (Forall_nil_2 _))
    as (groups & Heq & Hc & Hne & Hbig & Hsmall); [exact HT|].
  exists groups. done.
Qed.

Lemma docx_page_is_cut_past_threshold_witness :
  map pi_page
    (docx_all_text page_threshold (paragraphs_text_of docx_seven_paragraphs) [] [] 1)
  = [1; 2]
  /\ exists groups,
      docx_all_text page_threshold (paragraphs_text_of docx_seven_paragraphs) [] [] 1
      = docx_pages_of 1 groups
      /\ concat groups = paragraphs_text_of docx_seven_paragraphs
      /\ Forall (fun g => g <> []) groups
      /\ (forall g, g ∈ removelast groups -> page_threshold < len (docx_buffer g))
      /\ Forall (fun g => len (docx_buffer (removelast g)) <= page_threshold) groups.
Proof.
  split; [vm_compute; reflexivity|].
  apply (docx_page_is_cut_past_threshold page_threshold docx_seven_paragraphs).
  unfold page_threshold. lia.
Defined.

(** ** Documents that are processed without an exception *)

Lemma combined_text_not_blank (all_text : list PageInfo) :
  all_text <> [] -> ~ blank (combined_text all_text).
Proof.
  destruct all_text as [|p [|q r]]; intros Hne; [done| |];
    unfold combined_text; simpl map.
  - apply page_line_not_blank.
  - rewrite join_cons_cons. unfold page_line at 1. simpl. by apply not_blank_head.
Qed.

Lemma pdf_all_text_nil (pages : list (list Block)) :
  forall page_num : Z,
    pdf_all_text page_num pages = [] ->
    Forall (fun page => page_text_of page = []) pages.
Proof.
  induction pages as [|page rest IH]; intros n H; [constructor|].
  simpl in H. apply app_eq_nil in H as [H1 H2].
  constructor; [|by eapply IH].
  by destruct (page_text_of page).
Qed.

Lemma stripped_texts_nil (texts : list str) :
  stripped_texts texts = [] -> Forall (fun t => strip t = []) texts.
Proof.
  unfold stripped_texts. induction texts as [|t rest IH]; intros H; [constructor|].
  simpl in H. destruct (strip t) as [|c s] eqn:E.
  - constructor; [done|]. apply IH. by rewrite filter_cons_False in H by done.
  - by rewrite filter_cons_True in H by done.
Qed.

Lemma paragraphs_text_nil (doc : DocxDocument) :
  paragraphs_text_of doc = [] -> docx_has_no_text doc.
Proof.
  unfold paragraphs_text_of. intros H. apply app_eq_nil in H as [H1 H2].
  split; [by apply stripped_texts_nil|].
  apply stripped_texts_nil in H2.
  apply (proj1 (Forall_concat _ _)), (proj1 (Forall_concat _ _)). exact H2.
Qed.

(** X7: with [2 <= chunk_size <= 4300] and [0 <= chunk_overlap <= chunk_size],
    as with the default sizes, a PDF that the parser accepts is processed
    without an exception, and the result is empty exactly when no page has
    text. *)
Theorem parsed_pdf_is_chunked (doc_bytes : list Byte.byte) (filename : str)
    (chunk_size chunk_overlap : option Z) (w : World) (doc : PdfDocument) :
  file_ext_of filename = lit ".pdf" -> fitz_parse w doc_bytes = Ok doc ->
  2 <= default default_chunk_size chunk_size <= 4300 ->
  0 <= default default_chunk_overlap chunk_overlap
    <= default default_chunk_size chunk_size ->
  exists docs,
    (process_document_from_bytes doc_bytes filename chunk_size chunk_overlap w).1
    = Ok docs
    /\ (docs = [] <-> pdf_has_no_text doc).
Proof.
  intros Hext Hparse Hsize Hov.
  rewrite process_document_from_bytes_processed. unfold processed.
  rewrite Hext. simpl str_eqb. cbv iota. rewrite Hparse. simpl.
  destruct (pdf_all_text 0 (pdf_pages doc)) as [|p ps] eqn:E.
  - exists []. split; [done|]. split; [|done]. intros _.
    by apply (pdf_all_text_nil _ 0).
  - destruct (create_document_chunks_succeeds (p :: ps) (pdf_metadata_dict doc [])
                (default default_chunk_size chunk_size)
                (default default_chunk_overlap chunk_overlap))
      as (docs & Hdocs & Hne); [unfold max_str_digits; lia|done| | |].
    + apply pdf_metadata_dict_ok.
    + by apply combined_text_not_blank.
    + rewrite Hdocs. simpl. eexists. split; [reflexivity|]. split.
      * intros H. by destruct docs.
      * intros Hno. by rewrite (pdf_all_text_no_text 0 _ Hno) in E.
Qed.

Lemma parsed_pdf_is_chunked_witness :
  exists docs,
    (process_document_from_bytes [] (lit "report.pdf") None None two_page_world).1
    = Ok docs
    /\ (docs = [] <-> pdf_has_no_text two_page_pdf).
Proof.
  apply (parsed_pdf_is_chunked [] (lit "report.pdf") None None two_page_world
           two_page_pdf); [reflexivity|reflexivity|..];
    unfold default_chunk_size, default_chunk_overlap; simpl; lia.
Defined.

(** X8: with the same sizes, a DOCX that the parser accepts, under the
    extension [.docx] or [.doc], is processed without an exception, and the
    result is empty exactly when no paragraph and no table cell has text. *)
Theorem parsed_docx_is_chunked (doc_bytes : list Byte.byte) (filename : str)
    (chunk_size chunk_overlap : option Z) (w : World) (doc : DocxDocument) :
  file_ext_of filename = lit ".docx" \/ file_ext_of filename = lit ".doc" ->
  docx_parse w doc_bytes = Ok doc ->
  2 <= default default_chunk_size chunk_size <= 4300 ->
  0 <= default default_chunk_overlap chunk_overlap
    <= default default_chunk_size chunk_size ->
  exists docs,
    (process_document_from_bytes doc_bytes filename chunk_size chunk_overlap w).1
    = Ok docs
    /\ (docs = [] <-> docx_has_no_text doc).
Proof.
  intros Hext Hparse Hsize Hov.
  rewrite process_document_from_bytes_processed. unfold processed. cbv zeta.
  rewrite (supported_is_created (file_ext_of filename)) by tauto.
  assert (Hd : str_eqb (file_ext_of filename) (lit ".pdf") = false
               /\ str_eqb (file_ext_of filename) (lit ".docx")
                  || str_eqb (file_ext_of filename) (lit ".doc") = true)
    by (destruct Hext as [-> | ->]; done).
  destruct Hd as [-> ->]. rewrite Hparse. unfold mbind, result_bind.
  destruct (paragraphs_text_of doc) as [|p ps] eqn:E.
  - exists []. split; [done|]. split; [|done]. intros _.
    by apply paragraphs_text_nil.
  - assert (HT : 0 <= page_threshold) by (unfold page_threshold; lia).
    assert (Hps : Forall (fun t => t <> [] /\ trimmed t) (p :: ps))
      by (rewrite <- E; apply paragraphs_text_trimmed).
    destruct (docx_all_text_runs page_threshold (p :: ps) HT Hps [] [] 1
                (Forall_nil_2 _) HT) as (groups & Heq & Hc & _).
    change (docx_buffer []) with (@nil ascii) in Heq.
    destruct (create_document_chunks_succeeds
                (docx_all_text page_threshold (p :: ps) [] [] 1)
                (docx_metadata_dict doc [])
                (default default_chunk_size chunk_size)
                (default default_chunk_overlap chunk_overlap))
      as (docs & Hdocs & Hne); [unfold max_str_digits; lia|done| | |].
    + apply docx_metadata_dict_ok.
    + apply combined_text_not_blank. rewrite Heq.
      destruct groups as [|g gs]; [done|]. by rewrite docx_pages_of_cons.
    + rewrite Hdocs. simpl. eexists. split; [reflexivity|]. split.
      * intros H. by destruct docs.
      * intros Hno. by rewrite (paragraphs_text_no_text _ Hno) in E.
Qed.

Lemma parsed_docx_is_chunked_witness :
  exists docs,
    (process_document_from_bytes [] (lit "minutes.doc") None None
       (docx_world docx_five_paragraphs)).1 = Ok docs
    /\ (docs = [] <-> docx_has_no_text docx_five_paragraphs).
Proof.
  apply (parsed_docx_is_chunked [] (lit "minutes.doc") None None
           (docx_world docx_five_paragraphs) docx_five_paragraphs);
    [right; reflexivity|reflexivity|..];
    unfold default_chunk_size, default_chunk_overlap; simpl; lia.
Defined.

(** ** Metadata of the chunks *)

Lemma make_documents_elem (md : gmap string value) (chunks : list str) :
  forall (i : Z) (docs : list Document) (d : Document),
    make_documents md i chunks = Ok docs -> d ∈ docs ->
    exists j chunk, make_document md j chunk = Ok d.
Proof.
  induction chunks as [|chunk rest IH]; intros i docs d H Hd.
  - simpl in H. inversion H; subst. by apply elem_of_nil in Hd.
  - apply make_documents_cons_inv in H as (doc & docs' & Hdoc & Hr & ->).
    apply elem_of_cons in Hd as [-> | Hd]; [eauto|by eapply IH].
Qed.

Lemma make_document_metadata (md : gmap string value) (i : Z) (chunk : str)
    (d : Document) :
  make_document md i chunk = Ok d ->
  exists (page_num : Z) (source : value),
    md !! "file_name"%string = Some source
    /\ metadata d
       = md ∪ <["page"%string := VInt page_num]>
                (<["chunk"%string := VInt (i + 1)]>
                   (<["source"%string := source]> ∅)).
Proof.
  unfold make_document, getitem. intros H.
  destruct (page_num_of chunk) as [n|e]; [|done]. simpl in H.
  destruct (md !! "file_name"%string) as [v|] eqn:E; [|done]. simpl in H.
  inversion H; subst d. simpl. eauto.
Qed.

(** X9: every chunk of [create_document_chunks] carries the whole metadata of
    the document, each entry as it is, also an entry named ['page'],
    ['chunk'] or ['source']; it has those three keys besides and no other;
    and when the document has no ['source'], that of the chunk is the
    document's ['file_name']. *)
Theorem chunk_metadata_extends_the_documents (all_text : list PageInfo)
    (md : gmap string value) (chunk_size chunk_overlap : Z) (docs : list Document) :
  create_document_chunks all_text md chunk_size chunk_overlap = Ok docs ->
  Forall (fun d =>
            md ⊆ metadata d
            /\ dom (metadata d)
               = dom md ∪ {[ "page"%string; "chunk"%string; "source"%string ]}
            /\ (md !! "source"%string = None ->
                metadata d !! "source"%string = md !! "file_name"%string)) docs.
Proof.
  intros H. apply create_document_chunks_inv in H as (ts & chunks & _ & _ & Hmake).
  apply Forall_forall. intros d Hd.
  destruct (make_documents_elem _ _ _ _ _ Hmake Hd) as (j & chunk & Hdoc).
  apply make_document_metadata in Hdoc as (n & source & Hsrc & ->).
  split; [apply map_union_subseteq_l|]. split.
  - rewrite dom_union_L, !dom_insert_L, dom_empty_L. set_solver.
  - intros Hno. rewrite lookup_union_r by done.
    rewrite !lookup_insert_ne by done. by rewrite lookup_insert_eq.
Qed.

Lemma chunk_metadata_extends_the_documents_witness :
  tagged_chunks = Ok tagged_docs
  /\ Forall (fun d =>
               tagged_metadata ⊆ metadata d
               /\ dom (metadata d)
                  = dom tagged_metadata
                    ∪ {[ "page"%string; "chunk"%string; "source"%string ]}
               /\ (tagged_metadata !! "source"%string = None ->
                   metadata d !! "source"%string
                   = tagged_metadata !! "file_name"%string)) tagged_docs.
Proof.
  split; [vm_compute; reflexivity|].
  apply (chunk_metadata_extends_the_documents [mkPageInfo 1 (lit "alpha beta")]
           tagged_metadata 16 2).
  vm_compute. reflexivity.
Defined.

Lemma extract_pdf_parsed (pdf_path : str) (chunk_size chunk_overlap : Z)
    (w w' : World) (docs : list Document) :
  extract_text_from_pdf pdf_path chunk_size chunk_overlap w = (Ok docs, w') ->
  exists data doc,
    files w !! pdf_path = Some data /\ fitz_parse w data = Ok doc
    /\ (docs = [] \/
        create_document_chunks (pdf_all_text 0 (pdf_pages doc))
          (pdf_metadata_dict doc pdf_path) chunk_size chunk_overlap = Ok docs).
Proof.
  unfold extract_text_from_pdf, fitz_open.
  destruct (path_exists w pdf_path); simpl; [|done].
  destruct (files w !! pdf_path) as [data|]; [|done].
  destruct (fitz_parse w data) as [doc|e] eqn:E; [|done].
  intros H. exists data, doc. split; [done|]. split; [done|].
  destruct (pdf_all_text 0 (pdf_pages doc)); inversion H; auto.
Qed.

Lemma extract_docx_parsed (docx_path : str) (chunk_size chunk_overlap : Z)
    (w w' : World) (docs : list Document) :
  extract_text_from_docx docx_path chunk_size chunk_overlap w = (Ok docs, w') ->
  exists data doc,
    files w !! docx_path = Some data /\ docx_parse w data = Ok doc
    /\ (docs = [] \/
        create_document_chunks
          (docx_all_text page_threshold (paragraphs_text_of doc) [] [] 1)
          (docx_metadata_dict doc docx_path) chunk_size chunk_overlap = Ok docs).
Proof.
  unfold extract_text_from_docx, docx_Document.
  destruct (path_exists w docx_path); simpl; [|done].
  destruct (files w !! docx_path) as [data|]; [|done].
  destruct (docx_parse w data) as [doc|e] eqn:E; [|done].
  intros H. exists data, doc. split; [done|]. split; [done|].
  destruct (paragraphs_text_of doc) eqn:Ep; inversion H; auto.
Qed.

Lemma create_document_chunks_metadata (all_text : list PageInfo)
    (md : gmap string value) (chunk_size chunk_overlap : Z) (docs : list Document)
    (d : Document) :
  create_document_chunks all_text md chunk_size chunk_overlap = Ok docs ->
  d ∈ docs ->
  exists (page_num i : Z) (source : value),
    md !! "file_name"%string = Some source
    /\ metadata d
       = md ∪ <["page"%string := VInt page_num]>
                (<["chunk"%string := VInt (i + 1)]>
                   (<["source"%string := source]> ∅)).
Proof.
  intros H Hd. apply create_document_chunks_inv in H as (ts & chunks & _ & _ & Hmake).
  destruct (make_documents_elem _ _ _ _ _ Hmake Hd) as (j & chunk & Hdoc).
  apply make_document_metadata in Hdoc as (n & source & Hsrc & ->). eauto.
Qed.

(** X10: every chunk that [extract_text_from_pdf] returns names the file by
    the last component of its path, under ['file_name'] and under
    ['source'], says ['pdf'] for its type, and gives under ['total_pages']
    the number of pages of the PDF, those without text counted. *)
Theorem pdf_chunks_describe_the_file (pdf_path : str) (chunk_size chunk_overlap : Z)
    (w w' : World) (docs : list Document) :
  extract_text_from_pdf pdf_path chunk_size chunk_overlap w = (Ok docs, w') ->
  exists data doc,
    files w !! pdf_path = Some data /\ fitz_parse w data = Ok doc
    /\ Forall (fun d =>
                 metadata d !! "file_name"%string = Some (VStr (basename pdf_path))
                 /\ metadata d !! "source"%string = Some (VStr (basename pdf_path))
                 /\ metadata d !! "file_type"%string = Some (VStr (lit "pdf"))
                 /\ metadata d !! "total_pages"%string
                    = Some (VInt (Z.of_nat (length (pdf_pages doc))))) docs.
Proof.
  intros H. apply extract_pdf_parsed in H as (data & doc & Hf & Hp & H).
  exists data, doc. split; [done|]. split; [done|].
  destruct H as [-> | H]; [constructor|].
  apply Forall_forall. intros d Hd.
  destruct (create_document_chunks_metadata _ _ _ _ _ _ H Hd)
    as (n & i & source & Hsrc & ->).
  unfold pdf_metadata_dict in *. simplify_map_eq.
  repeat split; try (apply lookup_union_Some_l; by simplify_map_eq).
Qed.

Lemma pdf_chunks_describe_the_file_witness :
  exists data doc,
    files pdf_world !! lit "/srv/in.pdf" = Some data
    /\ fitz_parse pdf_world data = Ok doc
    /\ Forall (fun d =>
                 metadata d !! "file_name"%string
                 = Some (VStr (basename (lit "/srv/in.pdf")))
                 /\ metadata d !! "source"%string
                    = Some (VStr (basename (lit "/srv/in.pdf")))
                 /\ metadata d !! "file_type"%string = Some (VStr (lit "pdf"))
                 /\ metadata d !! "total_pages"%string
                    = Some (VInt (Z.of_nat (length (pdf_pages doc)))))
         (returned (extract_text_from_pdf (lit "/srv/in.pdf") 16 2 pdf_world)).
Proof.
  apply (pdf_chunks_describe_the_file (lit "/srv/in.pdf") 16 2 pdf_world
           (extract_text_from_pdf (lit "/srv/in.pdf") 16 2 pdf_world).2).
  vm_compute. reflexivity.
Defined.

(** X11: every chunk that [extract_text_from_docx] returns names the file by
    the last component of its path, under ['file_name'] and under
    ['source'], says ['docx'] for its type, also for a [.doc] file, and has
    no ['total_pages']. *)
Theorem docx_chunks_describe_the_file (docx_path : str)
    (chunk_size chunk_overlap : Z) (w w' : World) (docs : list Document) :
  extract_text_from_docx docx_path chunk_size chunk_overlap w = (Ok docs, w') ->
  Forall (fun d =>
            metadata d !! "file_name"%string = Some (VStr (basename docx_path))
            /\ metadata d !! "source"%string = Some (VStr (basename docx_path))
            /\ metadata d !! "file_type"%string = Some (VStr (lit "docx"))
            /\ metadata d !! "total_pages"%string = None) docs.
Proof.
  intros H. apply extract_docx_parsed in H as (data & doc & Hf & Hp & H).
  destruct H as [-> | H]; [constructor|].
  apply Forall_forall. intros d Hd.
  destruct (create_document_chunks_metadata _ _ _ _ _ _ H Hd)
    as (n & i & source & Hsrc & ->).
  unfold docx_metadata_dict in *. simplify_map_eq.
  repeat split; try (apply lookup_union_Some_l; by simplify_map_eq).
Qed.

Lemma docx_chunks_describe_the_file_witness :
  Forall (fun d =>
            metadata d !! "file_name"%string
            = Some (VStr (basename (lit "/srv/in.docx")))
            /\ metadata d !! "source"%string
               = Some (VStr (basename (lit "/srv/in.docx")))
            /\ metadata d !! "file_type"%string = Some (VStr (lit "docx"))
            /\ metadata d !! "total_pages"%string = None)
    (returned (extract_text_from_docx (lit "/srv/in.docx") 1000 100
                 (docx_world docx_five_paragraphs))).
Proof.
  apply (docx_chunks_describe_the_file (lit "/srv/in.docx") 1000 100
           (docx_world docx_five_paragraphs)
           (extract_text_from_docx (lit "/srv/in.docx") 1000 100
              (docx_world docx_five_paragraphs)).2).
  vm_compute. reflexivity.
Defined.

(** ** Errors of [create_document_chunks] *)

(** X12: a metadata dictionary without ['file_name'] is a [KeyError] as soon
    as there is a chunk to build: for every non-empty list of pages whose
    numbers have at most 4300 digits each, so that the page lines are
    formatted, with [2 <= chunk_size <= 4300] and
    [0 <= chunk_overlap <= chunk_size]. *)
Theorem missing_file_name_is_a_key_error (all_text : list PageInfo)
    (md : gmap string value) (chunk_size chunk_overlap : Z) :
  md !! "file_name"%string = None -> all_text <> [] ->
  Forall (fun page_info => formats (pi_page page_info)) all_text ->
  2 <= chunk_size <= 4300 -> 0 <= chunk_overlap <= chunk_size ->
  create_document_chunks all_text md chunk_size chunk_overlap
  = Raise (KeyError "file_name").
Proof.
  intros Hmd Hne _ Hsize Hov. unfold create_document_chunks.
  rewrite splitter_valid by lia. simpl.
  destruct (_split_text_ok (mkTextSplitter chunk_size chunk_overlap chunk_separators))
    with (separators := chunk_separators) (text := combined_text all_text)
    as (pieces & Hp & Hok & Hpieces); simpl; try lia; [apply chunk_separators_empty|].
  unfold split_text. simpl. rewrite Hp. simpl.
  destruct pieces as [|p ps].
  - exfalso. by apply Hpieces; [apply combined_text_not_blank|].
  - inversion Hok as [|? ? (Hlen & _) _]; subst. simpl in Hlen.
    destruct (page_num_of_ok p) as (n & Hn);
      [unfold max_str_digits, len in *; lia|].
    simpl. unfold make_document, getitem. rewrite Hn, Hmd. reflexivity.
Qed.

Lemma missing_file_name_is_a_key_error_witness :
  create_document_chunks [mkPageInfo 1 (lit "alpha beta")]
    {[ "title"%string := VStr (lit "Notes") ]} 16 2
  = Raise (KeyError "file_name").
Proof.
  apply (missing_file_name_is_a_key_error [mkPageInfo 1 (lit "alpha beta")]
           {[ "title"%string := VStr (lit "Notes") ]} 16 2);
    [reflexivity|done| |lia|lia].
  constructor; [|constructor]. unfold formats, max_str_digits. simpl. lia.
Defined.

(** X13: sizes with [chunk_size < chunk_overlap] are refused with a
    [ValueError], but only once there is text to split: for a PDF that the
    parser accepts, [process_document_from_bytes] raises when some page has
    text and returns the empty list when none has. *)
Theorem sizes_are_checked_when_there_is_text (doc_bytes : list Byte.byte)
    (filename : str) (chunk_size chunk_overlap : option Z) (w : World)
    (doc : PdfDocument) :
  file_ext_of filename = lit ".pdf" -> fitz_parse w doc_bytes = Ok doc ->
  default default_chunk_size chunk_size < default default_chunk_overlap chunk_overlap ->
  (pdf_has_no_text doc ->
   (process_document_from_bytes doc_bytes filename chunk_size chunk_overlap w).1
   = Ok [])
  /\ (~ pdf_has_no_text doc ->
      exists msg,
        (process_document_from_bytes doc_bytes filename chunk_size chunk_overlap w).1
        = Raise (ValueError msg)).
Proof.
  intros Hext Hparse Hsizes.
  rewrite process_document_from_bytes_processed. unfold processed.
  rewrite Hext. simpl str_eqb. cbv iota. rewrite Hparse. simpl. split.
  - intros Hno. by rewrite (pdf_all_text_no_text 0 _ Hno).
  - intros Htext. destruct (pdf_all_text 0 (pdf_pages doc)) as [|p ps] eqn:E.
    + exfalso. apply Htext. by apply (pdf_all_text_nil _ 0).
    + unfold create_document_chunks, RecursiveCharacterTextSplitter.
      destruct (default default_chunk_size chunk_size <=? 0); [simpl; eauto|].
      destruct (default default_chunk_overlap chunk_overlap <? 0); [simpl; eauto|].
      replace (default default_chunk_size chunk_size
               <? default default_chunk_overlap chunk_overlap) with true
        by (symmetry; apply Z.ltb_lt; lia).
      simpl. eauto.
Qed.

Lemma sizes_are_checked_when_there_is_text_witness :
  (process_document_from_bytes [] (lit "scan.pdf") (Some 2) (Some 16)
     scanned_world).1 = Ok []
  /\ exists msg,
       (process_document_from_bytes [] (lit "report.pdf") (Some 2) (Some 16)
          two_page_world).1 = Raise (ValueError msg).
Proof.
  split.
  - apply (sizes_are_checked_when_there_is_text [] (lit "scan.pdf") (Some 2)
             (Some 16) scanned_world scanned_pdf); [reflexivity|reflexivity|simpl; lia|].
    repeat constructor.
  - apply (sizes_are_checked_when_there_is_text [] (lit "report.pdf") (Some 2)
             (Some 16) two_page_world two_page_pdf);
      [reflexivity|reflexivity|simpl; lia|].
    intros H. inversion H as [|? ? H1 _]. vm_compute in H1. discriminate.
Defined.

(** ** Page numbers of a PDF *)

Lemma pdf_all_text_elem (pages : list (list Block)) :
  forall (page_num : Z) (p : PageInfo),
    p ∈ pdf_all_text page_num pages <->
    exists (i : nat) (text_blocks : list Block),
      pages !! i = Some text_blocks /\ page_text_of text_blocks <> []
      /\ p = mkPageInfo (page_num + Z.of_nat i + 1) (page_text_of text_blocks).
Proof.
  induction pages as [|page rest IH]; intros n p; simpl.
  - split; [intros H; by apply elem_of_nil in H|]. by intros (i & b & H & _).
  - rewrite elem_of_app, IH. split.
    + intros [H | (i & b & Hi & Hne & ->)].
      * destruct (page_text_of page) as [|c s] eqn:E; simpl in H;
          [by apply elem_of_nil in H|].
        apply list_elem_of_singleton in H as ->.
        exists 0%nat, page. simpl. rewrite E. split; [done|]. split; [done|].
        f_equal. lia.
      * exists (S i), b. simpl. split; [done|]. split; [done|]. f_equal. lia.
    + intros ([|i] & b & Hi & Hne & ->); simpl in Hi.
      * inversion Hi; subst b. left.
        destruct (page_text_of page) as [|c s] eqn:E; [done|]. simpl.
        apply list_elem_of_singleton. f_equal. lia.
      * right. exists i, b. split; [done|]. split; [done|]. f_equal. lia.
Qed.

Lemma pdf_all_text_increasing (pages : list (list Block)) :
  forall page_num : Z,
    Forall (fun p => page_num < pi_page p) (pdf_all_text page_num pages)
    /\ StronglySorted (fun p q => pi_page p < pi_page q)
                      (pdf_all_text page_num pages).
Proof.
  induction pages as [|page rest IH]; intros n; simpl.
  - split; constructor.
  - destruct (IH (n + 1)) as [Hlow Hsorted].
    assert (Hlow' : Forall (fun p => n < pi_page p) (pdf_all_text (n + 1) rest)).
    { eapply Forall_impl; [exact Hlow|]. simpl. intros p Hp. lia. }
    destruct (nonempty (page_text_of page)); simpl; [|done]. split.
    + constructor; [simpl; lia|done].
    + constructor; [done|]. eapply Forall_impl; [exact Hlow|]. simpl. lia.
Qed.

(** X14: the entries that [extract_text_from_pdf] makes of the pages of a PDF
    are those of the pages whose text is not empty, each under the position
    of its page in the PDF counted from 1, in increasing order: a page
    without text is left out and its number is not given to another. *)
Theorem pdf_pages_keep_their_position (pages : list (list Block)) :
  (forall p : PageInfo,
     p ∈ pdf_all_text 0 pages <->
     exists (i : nat) (text_blocks : list Block),
       pages !! i = Some text_blocks /\ page_text_of text_blocks <> []
       /\ p = mkPageInfo (Z.of_nat i + 1) (page_text_of text_blocks))
  /\ StronglySorted (fun p q => pi_page p < pi_page q) (pdf_all_text 0 pages).
Proof.
  split; [|apply pdf_all_text_increasing].
  intros p. rewrite pdf_all_text_elem. by setoid_rewrite Z.add_0_l.
Qed.

(** ** The text of a page *)

Lemma collapse_whitespace_nonspace (c : ascii) (r : str) :
  isspace c = false -> collapse_whitespace (c :: r) = c :: collapse_whitespace r.
Proof. intros H. simpl. by rewrite H. Qed.

Lemma collapse_whitespace_space (c : ascii) (r : str) :
  isspace c = true ->
  collapse_whitespace (c :: r)
  = match r with
    | c' :: _ => if isspace c' then collapse_whitespace r
                 else " "%char :: collapse_whitespace r
    | [] => [" "%char]
    end.
Proof. intros H. simpl. by rewrite H. Qed.

Lemma double_space_cons (a : ascii) (s x y : str) :
  a :: s = x ++ [" "%char; " "%char] ++ y ->
  (a = " "%char /\ exists y', s = " "%char :: y')
  \/ exists x', s = x' ++ [" "%char; " "%char] ++ y.
Proof.
  destruct x as [|b x]; simpl; intros H; inversion H; subst; eauto.
Qed.

Lemma collapse_whitespace_single (text x y : str) :
  collapse_whitespace text <> x ++ [" "%char; " "%char] ++ y.
Proof.
  revert x y. induction text as [|c r IH]; intros x y H.
  - simpl in H. by destruct x.
  - destruct (isspace c) eqn:Ec.
    + rewrite collapse_whitespace_space in H by done. destruct r as [|c' r'].
      * destruct x as [|a [|b x]]; simpl in H; inversion H.
      * destruct (isspace c') eqn:Ec'; [by eapply IH|].
        apply double_space_cons in H as [[_ (y' & Hy)] | (x' & Hx)].
        -- rewrite collapse_whitespace_nonspace in Hy by done.
           inversion Hy; subst. done.
        -- by eapply IH.
    + rewrite collapse_whitespace_nonspace in H by done.
      apply double_space_cons in H as [[-> _] | (x' & Hx)]; [done|by eapply IH].
Qed.

Lemma strip_infix (s : str) : exists p q, s = p ++ strip s ++ q.
Proof.
  destruct (lstrip_split s) as (p & Hp & _).
  destruct (rstrip_split (lstrip s)) as (q & Hq & _).
  exists p, q. unfold strip. by rewrite <- Hq.
Qed.

(** X15: the text kept for a page of a PDF is in normal form: it neither
    begins nor ends with whitespace, its only whitespace characters are
    single spaces, and no two of them are adjacent. *)
Theorem page_text_is_normalised (text_blocks : list Block) :
  trimmed (page_text_of text_blocks)
  /\ (forall c, c ∈ page_text_of text_blocks -> isspace c = true -> c = " "%char)
  /\ (forall x y, page_text_of text_blocks <> x ++ [" "%char; " "%char] ++ y).
Proof.
  unfold page_text_of.
  set (s := collapse_whitespace (join [NL] (omap block_str (sort_blocks text_blocks)))).
  split; [apply strip_trimmed|]. split.
  - intros c Hc Hs. apply strip_elem in Hc.
    apply collapse_whitespace_chars in Hc as [-> | Hc]; [done|congruence].
  - intros x y H. destruct (strip_infix s) as (p & q & Hs).
    rewrite H in Hs. apply (collapse_whitespace_single
      (join [NL] (omap block_str (sort_blocks text_blocks))) (p ++ x) (y ++ q)).
    fold s. rewrite Hs. by rewrite <- !app_assoc.
Qed.

(** ** The order of the blocks *)

Lemma insert_block_perm (b : Block) (l : list Block) :
  insert_block b l ≡ₚ b :: l.
Proof.
  induction l as [|x r IH]; simpl; [done|].
  destruct (Qle_bool (block_1 b) (block_1 x)); [done|].
  rewrite IH. apply Permutation_swap.
Qed.

Lemma insert_block_sorted (b : Block) (l : list Block) :
  StronglySorted (fun a c => (block_1 a <= block_1 c)%Q) l ->
  StronglySorted (fun a c => (block_1 a <= block_1 c)%Q) (insert_block b l).
Proof.
  induction 1 as [|x r Hr IH Hx]; simpl; [repeat constructor|].
  destruct (Qle_bool (block_1 b) (block_1 x)) eqn:E.
  - apply Qle_bool_iff in E. constructor; [by constructor|].
    constructor; [done|]. eapply Forall_impl; [exact Hx|]. simpl.
    intros c Hc. by eapply Qle_trans.
  - constructor; [done|].
    rewrite insert_block_perm. constructor; [|done].
    apply Qlt_le_weak, Qnot_le_lt. rewrite <- Qle_bool_iff. by rewrite E.
Qed.

Lemma insert_block_filter (k : Q) (b : Block) (l : list Block) :
  filter (fun c => Qeq_bool (block_1 c) k = true) (insert_block b l)
  = filter (fun c => Qeq_bool (block_1 c) k = true) (b :: l).
Proof.
  induction l as [|x r IH]; simpl; [done|].
  destruct (Qle_bool (block_1 b) (block_1 x)) eqn:E; [done|].
  rewrite (filter_cons _ x), IH, !filter_cons.
  destruct (decide (Qeq_bool (block_1 x) k = true)) as [Hx|Hx]; [|done].
  destruct (decide (Qeq_bool (block_1 b) k = true)) as [Hb|Hb]; [|done].
  exfalso. apply Qeq_bool_iff in Hx, Hb.
  assert (Qle_bool (block_1 b) (block_1 x) = true); [|congruence].
  apply Qle_bool_iff. rewrite Hx, Hb. apply Qle_refl.
Qed.

(** X16: [sort_blocks], which stands for [text_blocks.sort(key=lambda b: b[1])],
    is a stable sort: its result has the blocks of the page, each as often
    as the page has it, in the order of their vertical position, and the
    blocks at one position are in the order the parser gave them. *)
Theorem sort_blocks_is_a_stable_sort (text_blocks : list Block) :
  sort_blocks text_blocks ≡ₚ text_blocks
  /\ StronglySorted (fun a c => (block_1 a <= block_1 c)%Q) (sort_blocks text_blocks)
  /\ (forall k : Q,
        filter (fun c => Qeq_bool (block_1 c) k = true) (sort_blocks text_blocks)
        = filter (fun c => Qeq_bool (block_1 c) k = true) text_blocks).
Proof.
  unfold sort_blocks. induction text_blocks as [|b l (Hp & Hs & Hf)]; simpl.
  - split; [done|]. split; [constructor|done].
  - split; [|split].
    + rewrite insert_block_perm. by constructor.
    + by apply insert_block_sorted.
    + intros k. rewrite insert_block_filter, !filter_cons, Hf. done.
Qed.

(** ** Paths and extensions *)

Lemma ascii_eqb_true (a b : ascii) : ascii_eqb a b = true <-> a = b.
Proof. apply Ascii.eqb_eq. Qed.

Lemma ascii_eqb_false (a b : ascii) : ascii_eqb a b = false <-> a <> b.
Proof. apply Ascii.eqb_neq. Qed.

Lemma rfind_from_app (c : ascii) (a b : str) (i found : Z) :
  rfind_from c (a ++ b) i found
  = rfind_from c b (i + len a) (rfind_from c a i found).
Proof.
  revert i found. induction a as [|x a IH]; intros i found; simpl.
  - f_equal. unfold len. simpl. lia.
  - rewrite IH. f_equal. unfold len. simpl length. lia.
Qed.

Lemma rfind_from_notin (c : ascii) (p : str) (i found : Z) :
  c ∉ p -> rfind_from c p i found = found.
Proof.
  revert i found. induction p as [|x p IH]; intros i found H; simpl; [done|].
  apply not_elem_of_cons in H as [Hx Hp].
  rewrite IH by done. destruct (ascii_eqb x c) eqn:E; [|done].
  apply ascii_eqb_true in E. congruence.
Qed.

(** [p.rfind(c)] is -1 when [c] is not in [p], and else the index of its
    last occurrence. *)
Lemma rfind_spec (c : ascii) (p : str) :
  ((c ∉ p) /\ rfind c p = -1)
  \/ exists a b, p = a ++ c :: b /\ (c ∉ b) /\ rfind c p = len a.
Proof.
  unfold rfind. induction p as [|x p IH] using rev_ind.
  - left. split; [apply not_elem_of_nil|done].
  - rewrite rfind_from_app. simpl. destruct (ascii_eqb x c) eqn:E.
    + apply ascii_eqb_true in E as ->. right. exists p, [].
      split; [done|]. split; [apply not_elem_of_nil|lia].
    + apply ascii_eqb_false in E. destruct IH as [[Hn Hr] | (a & b & -> & Hb & Hr)].
      * left. split; [|done]. rewrite elem_of_app, list_elem_of_singleton.
        intros [H | H]; [done|congruence].
      * right. exists a, (b ++ [x]). split; [by rewrite <- app_assoc|].
        split; [|done]. rewrite elem_of_app, list_elem_of_singleton.
        intros [H | H]; [done|congruence].
Qed.

Lemma rfind_app_notin (c : ascii) (a b : str) :
  c ∉ b -> rfind c (a ++ b) = rfind c a.
Proof.
  intros H. unfold rfind. rewrite rfind_from_app. by apply rfind_from_notin.
Qed.

Lemma rfind_bounds (c : ascii) (p : str) : -1 <= rfind c p < len p.
Proof.
  destruct (rfind_spec c p) as [[_ ->] | (a & b & -> & _ & ->)].
  - pose proof (len_nonneg p). lia.
  - rewrite len_app. unfold len. simpl length. lia.
Qed.

Lemma take_len_app (a b : str) : take (Z.to_nat (len a)) (a ++ b) = a.
Proof. unfold len. rewrite Nat2Z.id. by rewrite take_app_length. Qed.

Lemma drop_len_app (a b : str) : drop (Z.to_nat (len a)) (a ++ b) = b.
Proof. unfold len. rewrite Nat2Z.id. by rewrite drop_app_length. Qed.

(** X17: [basename] returns what follows the last slash of a path: the path
    is a directory part, empty or ending in a slash, followed by the
    result, and the result has no slash. *)
Theorem basename_is_the_last_component (p : str) :
  ("/"%char ∉ basename p)
  /\ exists d, p = d ++ basename p /\ (d = [] \/ last d = Some "/"%char).
Proof.
  unfold basename.
  destruct (rfind_spec "/"%char p) as [[Hn ->] | (a & b & -> & Hb & ->)].
  - simpl. split; [done|]. exists []. auto.
  - replace (Z.to_nat (len a + 1)) with (Z.to_nat (len (a ++ ["/"%char]))).
    2:{ rewrite len_app. reflexivity. }
    rewrite (cons_middle _ a b), app_assoc, drop_len_app.
    split; [done|]. exists (a ++ ["/"%char]). split; [done|].
    right. by rewrite last_snoc.
Qed.

Lemma rfind_from_ge (c : ascii) (p : str) :
  forall i found : Z, c ∈ p -> i <= rfind_from c p i found.
Proof.
  induction p as [|x r IH]; intros i found H; [by apply elem_of_nil in H|].
  simpl. destruct (decide (c ∈ r)) as [Hr|Hr].
  - specialize (IH (i + 1) (if ascii_eqb x c then i else found) Hr). lia.
  - rewrite rfind_from_notin by done.
    apply elem_of_cons in H as [-> | H]; [|done].
    replace (ascii_eqb x x) with true by (symmetry; by apply ascii_eqb_true). lia.
Qed.

Lemma rfind_last_occurrence (c : ascii) (a b : str) :
  c ∉ b -> rfind c (a ++ c :: b) = len a.
Proof.
  intros H. unfold rfind. rewrite rfind_from_app. simpl.
  replace (ascii_eqb c c) with true by (symmetry; by apply ascii_eqb_true).
  rewrite rfind_from_notin by done. lia.
Qed.

(** X18: [splitext] cuts a path in two parts that give the path back when
    put together; the second part, the extension, is empty or is a dot
    followed by characters that are neither a dot nor a slash. *)
Theorem splitext_cuts_at_the_last_dot (p : str) :
  (splitext p).1 ++ (splitext p).2 = p
  /\ ((splitext p).2 = []
      \/ exists e, (splitext p).2 = "."%char :: e
                   /\ ("."%char ∉ e) /\ ("/"%char ∉ e)).
Proof.
  unfold splitext.
  destruct ((rfind "/"%char p <? rfind "."%char p)
            && existsb (fun c => negb (ascii_eqb c "."%char))
                 (slice p (rfind "/"%char p + 1) (rfind "."%char p))) eqn:E; simpl.
  - split; [apply take_drop|]. right.
    apply andb_true_iff in E as [E _]. apply Z.ltb_lt in E.
    pose proof (rfind_bounds "/"%char p) as Hb.
    destruct (rfind_spec "."%char p) as [[_ Hr] | (a & b & Hp & Hdot & Hr)]; [lia|].
    rewrite Hr in *. subst p. rewrite drop_len_app.
    exists b. split; [done|]. split; [done|]. intros Hs.
    assert (len a + 1 <= rfind "/"%char (a ++ "."%char :: b)); [|lia].
    unfold rfind. rewrite rfind_from_app. simpl.
    etransitivity; [|apply rfind_from_ge; exact Hs]. lia.
  - split; [apply app_nil_r|by left].
Qed.

Lemma lower_char_dot (c : ascii) : lower_char c = "."%char <-> c = "."%char.
Proof.
  destruct c as [[|] [|] [|] [|] [|] [|] [|] [|]]; split; intros H;
    solve [reflexivity | vm_compute in H; discriminate H | discriminate H].
Qed.

Lemma lower_char_slash (c : ascii) : lower_char c = "/"%char <-> c = "/"%char.
Proof.
  destruct c as [[|] [|] [|] [|] [|] [|] [|] [|]]; split; intros H;
    solve [reflexivity | vm_compute in H; discriminate H | discriminate H].
Qed.

Lemma lower_notin (c : ascii) (s : str) :
  (forall x, lower_char x = c <-> x = c) -> c ∉ s -> c ∉ lower s.
Proof.
  intros Hc Hs H. unfold lower in H. apply list_elem_of_fmap in H as (x & Hx & Hin).
  symmetry in Hx. apply (proj1 (Hc x)) in Hx. by subst x.
Qed.

Lemma rfind_from_lower (c : ascii) (s : str) :
  (forall x, lower_char x = c <-> x = c) ->
  forall i found, rfind_from c (lower s) i found = rfind_from c s i found.
Proof.
  intros Hc. induction s as [|x s IH]; intros i found; simpl; [done|].
  rewrite IH. f_equal.
  destruct (ascii_eqb x c) eqn:E.
  - apply ascii_eqb_true in E. subst x.
    replace (ascii_eqb (lower_char c) c) with true; [done|].
    symmetry. apply ascii_eqb_true. by apply Hc.
  - replace (ascii_eqb (lower_char x) c) with false; [done|].
    symmetry. apply ascii_eqb_false. apply ascii_eqb_false in E.
    intros H. by apply (proj1 (Hc x)) in H.
Qed.

Lemma basename_lower (s : str) : basename (lower s) = lower (basename s).
Proof.
  unfold basename, rfind. rewrite (rfind_from_lower _ _ lower_char_slash).
  unfold lower. by rewrite fmap_drop.
Qed.

Lemma slice_last_component (stem rest : str) :
  slice (stem ++ rest) (rfind "/"%char stem + 1) (len stem) = basename stem.
Proof.
  unfold slice, basename. pose proof (rfind_bounds "/"%char stem) as Hb.
  set (n := Z.to_nat (rfind "/"%char stem + 1)).
  assert (Hn : (n <= length stem)%nat) by (unfold n, len in *; lia).
  rewrite drop_app_le by done.
  replace (Z.to_nat (len stem - (rfind "/"%char stem + 1)))
    with (length (drop n stem)).
  2:{ rewrite length_drop. unfold n, len in *. lia. }
  by rewrite take_app_length.
Qed.

(** X19: the extension that [process_document_from_bytes] dispatches on,
    for a file name that ends in a dot and characters [e] that are neither
    dots nor slashes: it is the dot and [e] in lower case when the last
    component of what precedes has a character other than a dot, and it is
    empty when that component is empty or has dots only. *)
Theorem file_ext_of_dotted_name (stem e : str) :
  "."%char ∉ e -> "/"%char ∉ e ->
  (Exists (fun c => c <> "."%char) (basename stem) ->
   file_ext_of (stem ++ "."%char :: e) = "."%char :: lower e)
  /\ (Forall (fun c => c = "."%char) (basename stem) ->
      file_ext_of (stem ++ "."%char :: e) = []).
Proof.
  intros Hdot Hslash. unfold file_ext_of, splitext.
  assert (Hl : lower (stem ++ "."%char :: e) = lower stem ++ "."%char :: lower e).
  { unfold lower. by rewrite map_app. }
  rewrite Hl.
  assert (Hd : rfind "."%char (lower stem ++ "."%char :: lower e) = len (lower stem)).
  { apply rfind_last_occurrence. apply lower_notin; [apply lower_char_dot|done]. }
  assert (Hs : rfind "/"%char (lower stem ++ "."%char :: lower e)
               = rfind "/"%char (lower stem)).
  { apply rfind_app_notin. apply not_elem_of_cons. split; [done|].
    apply lower_notin; [apply lower_char_slash|done]. }
  rewrite Hd, Hs, slice_last_component, basename_lower.
  pose proof (rfind_bounds "/"%char (lower stem)) as Hb.
  replace (rfind "/"%char (lower stem) <? len (lower stem)) with true
    by (symmetry; apply Z.ltb_lt; lia).
  simpl andb. split.
  - intros Hex. apply Exists_exists in Hex as (c & Hc & Hne).
    replace (existsb _ _) with true; [simpl; by rewrite drop_len_app|].
    symmetry. apply existsb_exists. exists (lower_char c). split.
    + apply list_elem_of_In. unfold lower. by apply list_elem_of_fmap_2.
    + apply negb_true_iff, ascii_eqb_false. intros H.
      by apply (proj1 (lower_char_dot c)) in H.
  - intros Hall. replace (existsb _ _) with false; [done|].
    symmetry. apply not_true_iff_false. intros H.
    apply existsb_exists in H as (c & Hc & Hne).
    apply list_elem_of_In in Hc. unfold lower in Hc.
    apply list_elem_of_fmap in Hc as (x & -> & Hx).
    rewrite Forall_forall in Hall. rewrite (Hall x Hx) in Hne. done.
Qed.

Lemma file_ext_of_dotted_name_witness :
  file_ext_of (lit "/in/Q3 Report.v2" ++ "."%char :: lit "PDF") = lit ".pdf"
  /\ file_ext_of (lit "/in/." ++ "."%char :: lit "pdf") = [].
Proof.
  split.
  - apply (file_ext_of_dotted_name (lit "/in/Q3 Report.v2") (lit "PDF"));
      [apply (bool_decide_unpack _); vm_compute; exact I..|].
    vm_compute. apply Exists_cons_hd. done.
  - apply (file_ext_of_dotted_name (lit "/in/.") (lit "pdf"));
      [apply (bool_decide_unpack _); vm_compute; exact I..|].
    vm_compute. repeat constructor.
Defined.

(** ** Chunks are stretches of the text *)

Lemma substring_refl (s : str) : substring s s.
Proof. exists [], []. by rewrite app_nil_r. Qed.

Lemma substring_trans (p s t : str) : substring p s -> substring s t -> substring p t.
Proof.
  intros (a & b & ->) (c & d & ->). exists (c ++ a), (b ++ d).
  by rewrite <- !app_assoc.
Qed.

Lemma substring_strip (s : str) : substring (strip s) s.
Proof. destruct (strip_infix s) as (p & q & H). by exists p, q. Qed.

Lemma substring_concat (w a b : list str) :
  substring (concat w) (concat (a ++ w ++ b)).
Proof. exists (concat a), (concat b). by rewrite !concat_app. Qed.

Lemma substring_elem (s : str) (l : list str) : s ∈ l -> substring s (concat l).
Proof.
  intros H. apply list_elem_of_split in H as (l1 & l2 & ->).
  exists (concat l1), (concat l2). rewrite concat_app. reflexivity.
Qed.

Lemma pop_front_suffix (ts : TextSplitter) (separator : str) (_len : Z)
    (cur : list str) :
  forall (total : Z) (cur' : list str) (total' : Z),
    pop_front ts separator _len cur total = Ok (cur', total') ->
    exists dropped, cur = dropped ++ cur'.
Proof.
  induction cur as [|x r IH]; intros total cur' total' H.
  - simpl in H. destruct (_ || _); [done|]. inversion H. by exists [].
  - rewrite pop_front_cons in H. destruct (_ || _).
    + apply IH in H as (dropped & ->). by exists (x :: dropped).
    + inversion H. by exists [].
Qed.

Lemma runs_inv_init : runs_inv [] (mkMergeState [] [] 0).
Proof. split; simpl; [by exists []|constructor]. Qed.

Lemma runs_inv_step (ts : TextSplitter) (seen : list str) (st st' : MergeState)
    (d : str) :
  runs_inv seen st -> merge_step ts [] st d = Ok st' -> runs_inv (seen ++ [d]) st'.
Proof.
  intros [(a & Ha) Hdocs] H.
  assert (Hdocs' : Forall (fun doc => exists a w b,
                             seen ++ [d] = a ++ w ++ b /\ doc = strip (concat w))
                          (docs st)).
  { eapply Forall_impl; [exact Hdocs|]. intros doc (a0 & w & b & -> & ->).
    exists a0, w, (b ++ [d]). by rewrite <- !app_assoc. }
  assert (Hkeep : runs_inv (seen ++ [d]) (append_split [] st d)).
  { split; simpl; [|done]. exists a. rewrite Ha. by rewrite <- app_assoc. }
  unfold merge_step in H.
  destruct (_chunk_size ts <? _); [|by inversion H; subst].
  destruct (0 <? length (current_doc st))%nat; [|by inversion H; subst].
  destruct (pop_front ts [] (len d) (current_doc st) (total st))
    as [[cur' total']|e] eqn:Hpop; [|done].
  simpl in H. inversion H; subst st'; clear H.
  apply pop_front_suffix in Hpop as (dropped & Hcur).
  split; simpl.
  - exists (a ++ dropped). rewrite Ha, Hcur. by rewrite <- !app_assoc.
  - destruct (_join_docs (current_doc st) []) as [doc|] eqn:Hj; [|done].
    apply Forall_app. split; [done|]. constructor; [|constructor].
    apply _join_docs_some in Hj as [-> _].
    exists a, (current_doc st), [d]. by rewrite Ha, <- app_assoc.
Qed.

Lemma runs_inv_loop (ts : TextSplitter) (splits : list str) :
  forall (seen : list str) (st st' : MergeState),
    runs_inv seen st -> merge_loop ts [] st splits = Ok st' ->
    runs_inv (seen ++ splits) st'.
Proof.
  induction splits as [|d rest IH]; intros seen st st' Hinv H; simpl in H.
  - rewrite app_nil_r. by inversion H; subst.
  - destruct (merge_step ts [] st d) as [st1|e] eqn:Hstep; [|done]. simpl in H.
    rewrite (cons_middle d seen rest), app_assoc.
    eapply IH; [|exact H]. by eapply runs_inv_step.
Qed.

(** Every text that [_merge_splits] returns is a run of consecutive splits,
    joined and stripped. *)
Lemma _merge_splits_runs (ts : TextSplitter) (splits out : list str) :
  _merge_splits ts [] splits = Ok out ->
  Forall (fun p => substring p (concat splits)) out.
Proof.
  unfold _merge_splits. intros H.
  destruct (merge_loop ts [] (mkMergeState [] [] 0) splits) as [st|e] eqn:Hloop;
    [|done].
  simpl in H.
  destruct (runs_inv_loop ts splits [] _ _ runs_inv_init Hloop) as [(a & Ha) Hdocs].
  simpl in Ha.
  assert (Hd : Forall (fun p => substring p (concat splits)) (docs st)).
  { eapply Forall_impl; [exact Hdocs|]. intros p (a0 & w & b & Hs & ->).
    simpl in Hs. rewrite Hs.
    eapply substring_trans; [apply substring_strip|apply substring_concat]. }
  destruct (_join_docs (current_doc st) []) as [doc|] eqn:Hj;
    inversion H; subst out; [|done].
  apply Forall_app. split; [done|]. constructor; [|constructor].
  apply _join_docs_some in Hj as [-> _]. rewrite Ha.
  eapply substring_trans; [apply substring_strip|].
  exists (concat a), []. by rewrite concat_app, app_nil_r.
Qed.

Lemma flush_runs (ts : TextSplitter) (final good res : list str) :
  flush ts [] final good = Ok res ->
  exists out, res = final ++ out
              /\ Forall (fun p => substring p (concat good)) out.
Proof.
  unfold flush. destruct good as [|g good].
  - intros H. inversion H. exists []. by rewrite app_nil_r.
  - destruct (_merge_splits ts [] (g :: good)) as [merged|e] eqn:Hm; [|done].
    simpl. intros H; inversion H. exists merged. split; [done|].
    by apply (_merge_splits_runs ts (g :: good)).
Qed.

Lemma split_loop_runs (ts : TextSplitter)
    (recurse : option (str -> result (list str))) (splits : list str) :
  (forall s out, s ∈ splits ->
     match recurse with None => Ok [s] | Some f => f s end = Ok out ->
     Forall (fun p => substring p s) out) ->
  forall final good res : list str,
    split_loop ts recurse [] splits final good = Ok res ->
    exists out, res = final ++ out
                /\ Forall (fun p => substring p (concat (good ++ splits))) out.
Proof.
  induction splits as [|s rest IH]; intros Hrec final good res H.
  - rewrite app_nil_r. simpl in H. by apply (flush_runs ts).
  - simpl in H. destruct (len s <? _chunk_size ts).
    + apply IH in H as (out & -> & Hout).
      * exists out. split; [done|]. by rewrite <- app_assoc in Hout.
      * intros s' out' Hs'. apply Hrec. by right.
    + destruct (flush ts [] final good) as [final1|e] eqn:Hf; [|done].
      simpl in H.
      destruct (match recurse with None => Ok [s] | Some f => f s end)
        as [other|e] eqn:Hr; [|done].
      simpl in H.
      apply flush_runs in Hf as (out1 & -> & Hout1).
      apply Hrec in Hr; [|by left].
      apply IH in H as (out3 & -> & Hout3).
      2:{ intros s' out' Hs'. apply Hrec. by right. }
      exists (out1 ++ other ++ out3). split; [by rewrite <- !app_assoc|].
      repeat (apply Forall_app; split).
      * eapply Forall_impl; [exact Hout1|]. intros p Hp.
        eapply substring_trans; [exact Hp|].
        exists [], (concat (s :: rest)). by rewrite concat_app.
      * eapply Forall_impl; [exact Hr|]. intros p Hp.
        eapply substring_trans; [exact Hp|].
        apply substring_elem. apply elem_of_app. right. by left.
      * eapply Forall_impl; [exact Hout3|]. intros p Hp.
        eapply substring_trans; [exact Hp|].
        exists (concat (good ++ [s])), [].
        rewrite app_nil_r, <- concat_app, <- app_assoc. reflexivity.
Qed.

Lemma choose_separator_shorter (text : str) (separators : list str) sep new :
  choose_separator text separators = Ok (sep, new) ->
  new = [] \/ (length new < length separators)%nat.
Proof.
  unfold choose_separator. destruct (last separators); [|done].
  destruct (find_separator text separators) as [[s' new']|] eqn:F.
  - intros H; inversion H; subst. by eapply find_separator_shorter.
  - intros H; inversion H. by left.
Qed.

(** Every piece that [_split_text] returns is a stretch of the text. *)
Lemma _split_text_runs (ts : TextSplitter) (separators : list str) :
  forall text pieces,
    _split_text ts text separators = Ok pieces ->
    Forall (fun p => substring p text) pieces.
Proof.
  remember (length separators) as n eqn:Hn. revert separators Hn.
  induction n as [n IH] using (well_founded_induction lt_wf).
  intros separators -> text pieces H. rewrite _split_text_eq in H.
  destruct (choose_separator text separators) as [[sep new]|e] eqn:Hc; [|done].
  destruct (_split_text_with_regex_spec text sep) as (splits & Hs & Hcat & _).
  rewrite Hs in H. simpl in H.
  apply split_loop_runs in H as (out & -> & Hout).
  - simpl in Hout. by rewrite Hcat in Hout.
  - intros s out Hin Hr. destruct new as [|n0 new'].
    + inversion Hr. constructor; [apply substring_refl|constructor].
    + apply choose_separator_shorter in Hc as [Hc|Hc]; [done|].
      by eapply (IH _ Hc _ eq_refl).
Qed.


(** X20: every chunk that [create_document_chunks] returns is a stretch of
    consecutive characters of the combined text of the pages, from which
    the page markers have been deleted: chunking adds no character and
    changes the order of none, whatever the sizes. *)
Theorem chunk_text_is_a_stretch_of_the_pages (all_text : list PageInfo)
    (md : gmap string value) (chunk_size chunk_overlap : Z) (docs : list Document) :
  create_document_chunks all_text md chunk_size chunk_overlap = Ok docs ->
  Forall (fun d => exists chunk,
            substring chunk (combined_text all_text)
            /\ page_content d = sub_page_markers chunk) docs.
Proof.
  intros H. apply create_document_chunks_inv in H as (ts & chunks & _ & Hs & Hm).
  apply _split_text_runs in Hs. apply make_documents_chunks in Hm.
  apply Forall_forall. intros d Hd.
  apply list_elem_of_lookup in Hd as (i & Hi).
  destruct (Forall2_lookup_r _ _ _ _ _ Hm Hi) as (chunk & Hchunk & Hc & _).
  exists chunk. split; [|done].
  eapply (proj1 (Forall_forall _ _) Hs). by eapply list_elem_of_lookup_2.
Qed.

Lemma chunk_text_is_a_stretch_of_the_pages_witness :
  tagged_chunks = Ok tagged_docs
  /\ Forall (fun d => exists chunk,
                substring chunk (combined_text [mkPageInfo 1 (lit "alpha beta")])
                /\ page_content d = sub_page_markers chunk) tagged_docs.
Proof.
  split; [vm_compute; reflexivity|].
  apply (chunk_text_is_a_stretch_of_the_pages [mkPageInfo 1 (lit "alpha beta")]
           tagged_metadata 16 2).
  vm_compute. reflexivity.
Defined.

(** ** The page of a chunk *)

Lemma int_of_digits_str_of_int_ok (n : Z) :
  0 <= n -> (length (str_of_int n) <= max_str_digits)%nat ->
  int_of_digits (str_of_int n) = Ok n.
Proof.
  intros Hn Hlen.
  destruct (int_of_digits (str_of_int n)) as [m|e] eqn:E.
  - by rewrite (int_of_digits_str_of_int n m Hn E).
  - exfalso. revert E. unfold int_of_digits.
    replace (max_str_digits <? length (str_of_int n))%nat with false
      by (symmetry; apply Nat.ltb_ge; lia).
    unfold str_of_int. rewrite string_of_list_ascii_of_string.
    destruct n as [|p|p]; [done| |lia]. simpl.
    assert (Hs : NilZero.string_of_uint (Pos.to_uint p)
                 = NilEmpty.string_of_uint (Pos.to_uint p)).
    { unfold NilZero.string_of_uint. pose proof (DecimalPos.Unsigned.of_to p) as Hof.
      destruct (Pos.to_uint p); [discriminate Hof|reflexivity..]. }
    by rewrite Hs, NilEmpty.usu.
Qed.

(** X21: the page number that [create_document_chunks] writes in front of a
    page is the one it reads back from a chunk that starts with that page:
    for a page number that is not negative and has at most 4300 digits.  A
    negative number is not read back: the chunk gets page 0. *)
Theorem page_number_is_read_back (p : PageInfo) (rest : str) :
  (0 <= pi_page p -> (length (str_of_int (pi_page p)) <= max_str_digits)%nat ->
   page_num_of (page_line p ++ rest) = Ok (pi_page p))
  /\ (pi_page p < 0 -> page_num_of (page_line p ++ rest) = Ok 0).
Proof.
  split.
  - intros Hn Hlen. unfold page_num_of, page_line.
    rewrite <- !app_assoc.
    change (lit ": " ++ pi_text p ++ rest) with (":"%char :: " "%char :: pi_text p ++ rest).
    rewrite match_page_number_page_line by done.
    by apply int_of_digits_str_of_int_ok.
  - intros Hn. unfold page_num_of, page_line, match_page_number.
    rewrite <- !app_assoc, strip_prefix_app_eq.
    destruct (pi_page p) as [|q|q]; [lia..|]. reflexivity.
Qed.

Lemma page_number_is_read_back_witness :
  page_num_of (page_line (mkPageInfo 12 (lit "alpha")) ++ lit " beta") = Ok 12
  /\ page_num_of (page_line (mkPageInfo (-3) (lit "alpha")) ++ lit " beta") = Ok 0.
Proof.
  split.
  - apply (page_number_is_read_back (mkPageInfo 12 (lit "alpha")) (lit " beta"));
      [simpl; lia|vm_compute; lia].
  - apply (page_number_is_read_back (mkPageInfo (-3) (lit "alpha")) (lit " beta")).
    simpl; lia.
Defined.

(** When every page line fits a chunk, every chunk starts with the line of
    a page and has its number; these pages come in their order. *)
Lemma create_document_chunks_pages (all_text : list PageInfo)
    (md : gmap string value) (chunk_size chunk_overlap : Z) (docs : list Document) :
  0 < chunk_size -> 0 <= chunk_overlap <= chunk_size ->
  md !! "page"%string = None -> all_text <> [] ->
  Forall (line_fits chunk_size) all_text ->
  create_document_chunks all_text md chunk_size chunk_overlap = Ok docs ->
  exists ps,
    sublist ps all_text
    /\ Forall2 (fun p doc => page_of doc = Some (VInt (pi_page p))) ps docs.
Proof.
  intros Hsize Hov Hmd Hne Hfit H.
  apply create_document_chunks_inv in H as (ts & chunks & Hts & Hsplit & Hmake).
  rewrite splitter_valid in Hts by lia. inversion Hts; subst ts; clear Hts.
  destruct (split_text_page_lines chunk_size chunk_overlap all_text)
    as (ws & Hws & Hwne & Hheads); try lia; try done.
  rewrite Hws in Hsplit. inversion Hsplit; subst chunks; clear Hsplit.
  destruct (windows_heads ws Hwne) as (hs & Hhs & Hchunks).
  destruct (sublist_Forall2_l (fun p s => line_fits chunk_size p /\ carries p s)
              all_text (page_splits all_text) hs)
    as (ps & Hps & Hcarry);
    [by apply page_splits_carry | by etransitivity |].
  apply make_documents_chunks in Hmake.
  exists ps. split; [done|].
  assert (Hnum : Forall2 (fun p chunk =>
                            0 <= pi_page p
                            /\ page_num_of chunk
                               = int_of_digits (str_of_int (pi_page p)))
                   ps (omap (fun w => _join_docs w []) ws)).
  { eapply Forall2_chain; [|exact Hcarry|exact Hchunks].
    intros p h chunk [Hf Hcar] (t & ->). split; [apply Hf|].
    apply page_num_of_window; [apply Hf|done]. }
  eapply Forall2_chain; [|exact Hnum|exact Hmake].
  intros p chunk doc [Hp0 Hn] [_ Hdoc].
  destruct (Hdoc Hmd) as (n & Hn' & ->). rewrite Hn in Hn'.
  by rewrite (int_of_digits_str_of_int _ _ Hp0 Hn').
Qed.

(** X22: when the marked line of every page, with the blank line before it,
    is shorter than [chunk_size], every chunk has the number of a page of
    the text for its ['page'], and these numbers, in the order of the
    chunks, are a subsequence of the page numbers of the text: no chunk gets
    the default page. *)
Theorem chunk_pages_are_pages_of_the_text (all_text : list PageInfo)
    (md : gmap string value) (chunk_size chunk_overlap : Z) (docs : list Document) :
  0 < chunk_size -> 0 <= chunk_overlap <= chunk_size ->
  md !! "page"%string = None ->
  Forall (line_fits chunk_size) all_text ->
  create_document_chunks all_text md chunk_size chunk_overlap = Ok docs ->
  sublist (map page_of docs) (map (fun p => Some (VInt (pi_page p))) all_text).
Proof.
  intros Hsize Hov Hmd Hfit H.
  destruct all_text as [|p0 rest0] eqn:Eall.
  { apply create_document_chunks_inv in H as (ts & chunks & Hts & Hsplit & Hmake).
    rewrite splitter_valid in Hts by lia. inversion Hts; subst ts; clear Hts.
    unfold split_text, combined_text in Hsplit. simpl in Hsplit.
    rewrite _split_text_short in Hsplit
      by (simpl; first [apply chunk_separators_empty | change (len []) with 0; lia]).
    inversion Hsplit; subst chunks. simpl in Hmake. inversion Hmake; subst.
    constructor. }
  rewrite <- Eall in *.
  destruct (create_document_chunks_pages all_text md chunk_size chunk_overlap docs)
    as (ps & Hps & Hpages); try done; [by subst all_text|].
  replace (map page_of docs) with (map (fun p => Some (VInt (pi_page p))) ps).
  - by apply (fmap_sublist (fun p => Some (VInt (pi_page p)))).
  - clear -Hpages. induction Hpages as [|p doc ps docs Hp _ IH]; [done|].
    simpl. by rewrite Hp, IH.
Qed.

Lemma chunk_pages_are_pages_of_the_text_witness :
  exists docs,
    create_document_chunks
      [mkPageInfo 1 (lit "Intro"); mkPageInfo 2 (lit "alpha beta gamma delta")]
      (pdf_metadata_dict two_page_pdf (lit "report.pdf")) 40 5 = Ok docs
    /\ sublist (map page_of docs)
         (map (fun p => Some (VInt (pi_page p)))
            [mkPageInfo 1 (lit "Intro");
             mkPageInfo 2 (lit "alpha beta gamma delta")]).
Proof.
  eexists. split; [vm_compute; reflexivity|].
  apply (chunk_pages_are_pages_of_the_text
           [mkPageInfo 1 (lit "Intro"); mkPageInfo 2 (lit "alpha beta gamma delta")]
           (pdf_metadata_dict two_page_pdf (lit "report.pdf")) 40 5);
    [lia|lia|reflexivity| |vm_compute; reflexivity].
  apply Forall_cons; split; [|apply Forall_cons; split; [|apply Forall_nil_2]];
    (split; [simpl; lia|split;
       [apply (bool_decide_unpack _); vm_compute; exact I|vm_compute; reflexivity]]).
Defined.

(** ** What the file name decides *)

Lemma fmap_result_compose {A B C : Type} (f : A -> B) (g : B -> C) (r : result A) :
  fmap_result g (fmap_result f r) = fmap_result (fun a => g (f a)) r.
Proof. by destruct r. Qed.

Lemma set_provenance_rest (filename : str) (d : Document) :
  delete "file_name"%string (delete "source"%string (metadata (set_provenance filename d)))
  = delete "file_name"%string (delete "source"%string (metadata d)).
Proof.
  unfold set_provenance. simpl. apply map_eq. intros k.
  destruct (decide (k = "file_name"%string)) as [->|Hf];
    [by rewrite !lookup_delete_eq|].
  rewrite !(lookup_delete_ne _ "file_name"%string) by done.
  destruct (decide (k = "source"%string)) as [->|Hs];
    [by rewrite !lookup_delete_eq|].
  rewrite !(lookup_delete_ne _ "source"%string) by done.
  by rewrite !lookup_insert_ne by done.
Qed.

(** X23: of the file name, [process_document_from_bytes] uses the extension
    and nothing else to make the chunks: two names with the same extension
    after lower-casing give the same outcome, but for the names under
    ['source'] and ['file_name']. *)
Theorem file_name_matters_by_its_extension (doc_bytes : list Byte.byte)
    (filename1 filename2 : str) (chunk_size chunk_overlap : option Z) (w : World) :
  file_ext_of filename1 = file_ext_of filename2 ->
  fmap_result
    (map (fun d => (page_content d,
                    delete "file_name"%string (delete "source"%string (metadata d)))))
    (process_document_from_bytes doc_bytes filename1 chunk_size chunk_overlap w).1
  = fmap_result
      (map (fun d => (page_content d,
                      delete "file_name"%string (delete "source"%string (metadata d)))))
      (process_document_from_bytes doc_bytes filename2 chunk_size chunk_overlap w).1.
Proof.
  intros Hext. rewrite !process_document_from_bytes_processed. unfold processed.
  rewrite Hext.
  assert (Hmap : forall f (r : result (list Document)),
            fmap_result
              (map (fun d => (page_content d,
                              delete "file_name"%string
                                (delete "source"%string (metadata d)))))
              (fmap_result (map (set_provenance f)) r)
            = fmap_result
                (map (fun d => (page_content d,
                                delete "file_name"%string
                                  (delete "source"%string (metadata d))))) r).
  { intros f [l|e]; [|done]. simpl. f_equal. rewrite map_map.
    apply map_ext. intros d. by rewrite set_provenance_rest. }
  destruct (create_error (file_ext_of filename2)); [done|].
  destruct (str_eqb (file_ext_of filename2) (lit ".pdf")).
  - destruct (fitz_parse w doc_bytes) as [doc|e]; [|done]. simpl.
    destruct (pdf_all_text 0 (pdf_pages doc)); [done|]. by rewrite !Hmap.
  - destruct (_ || _); [|done].
    destruct (docx_parse w doc_bytes) as [doc|e]; [|done].
    unfold mbind, result_bind.
    destruct (paragraphs_text_of doc); [done|]. by rewrite !Hmap.
Qed.

Lemma file_name_matters_by_its_extension_witness :
  fmap_result
    (map (fun d => (page_content d,
                    delete "file_name"%string (delete "source"%string (metadata d)))))
    (process_document_from_bytes [] (lit "report.pdf") (Some 16) (Some 2)
       two_page_world).1
  = fmap_result
      (map (fun d => (page_content d,
                      delete "file_name"%string (delete "source"%string (metadata d)))))
      (process_document_from_bytes [] (lit "Scan 0042.PDF") (Some 16) (Some 2)
         two_page_world).1.
Proof.
  apply (file_name_matters_by_its_extension [] (lit "report.pdf")
           (lit "Scan 0042.PDF") (Some 16) (Some 2) two_page_world).
  reflexivity.
Defined.

(** ** Chunks lose nothing but whitespace *)
















(** ** Documents shorter than a chunk *)

Lemma join_cons_concat (sep p : str) (rest : list str) :
  join sep (p :: rest) = concat (p :: map (app sep) rest).
Proof.
  revert p. induction rest as [|q rest IH]; intros p.
  - simpl. by rewrite app_nil_r.
  - rewrite join_cons_cons, IH. simpl. by rewrite <- !app_assoc.
Qed.

(** X25: a text of pages that is shorter than [chunk_size] as a whole, with
    its markers and blank lines, comes back as one chunk, numbered 1: its
    text is the whole text without the markers, and its page is that of
    the first page, whatever pages follow. *)
Theorem short_document_is_one_chunk (p : PageInfo) (rest : list PageInfo)
    (md : gmap string value) (chunk_size chunk_overlap : Z) :
  0 <= chunk_overlap <= chunk_size -> chunk_size <= 4300 ->
  extractor_metadata md -> 0 <= pi_page p ->
  len (combined_text (p :: rest)) < chunk_size ->
  exists d,
    create_document_chunks (p :: rest) md chunk_size chunk_overlap = Ok [d]
    /\ page_content d = sub_page_markers (strip (combined_text (p :: rest)))
    /\ page_of d = Some (VInt (pi_page p))
    /\ chunk_index d = Some (VInt 1).
Proof.
  intros Hov Hmax (Hfile & Hpage & Hchunk) Hn Hshort.
  pose proof (len_nonneg (combined_text (p :: rest))) as Hlen.
  unfold create_document_chunks. rewrite splitter_valid by lia. simpl.
  unfold split_text. simpl _separators.
  rewrite _split_text_short by (simpl; first [apply chunk_separators_empty | done]).
  unfold _join_docs. simpl join.
  destruct (strip (combined_text (p :: rest))) as [|c s] eqn:Es.
  { exfalso. apply strip_nil_blank in Es. revert Es.
    by apply combined_text_not_blank. }
  rewrite <- Es. simpl option_list. simpl.
  assert (Hnum : page_num_of (strip (combined_text (p :: rest))) = Ok (pi_page p)).
  { unfold combined_text. simpl map. rewrite join_cons_concat.
    rewrite (page_num_of_window p) by (done || by left).
    apply int_of_digits_str_of_int_ok; [done|].
    assert (len (str_of_int (pi_page p)) <= len (combined_text (p :: rest))).
    { unfold combined_text. simpl map. rewrite join_cons_concat, len_concat_cons.
      pose proof (len_nonneg (concat (map (app [NL; NL]) (map page_line rest)))).
      unfold page_line at 1. rewrite !len_app.
      pose proof (len_nonneg (lit "Page ")).
      pose proof (len_nonneg (lit ": ")). pose proof (len_nonneg (pi_text p)).
      lia. }
    unfold max_str_digits, len in *. lia. }
  unfold make_document, getitem. rewrite Hnum. destruct Hfile as [v Hv].
  rewrite Hv. simpl. eexists. split; [reflexivity|]. simpl.
  unfold page_of, chunk_index. simpl.
  split; [done|]. split.
  - rewrite lookup_union_r by done. by rewrite lookup_insert_eq.
  - rewrite lookup_union_r by done. rewrite lookup_insert_ne by done.
    by rewrite lookup_insert_eq.
Qed.

Lemma short_document_is_one_chunk_witness :
  exists d,
    create_document_chunks
      [mkPageInfo 1 (lit "Intro"); mkPageInfo 2 (lit "alpha beta gamma delta")]
      (pdf_metadata_dict two_page_pdf (lit "report.pdf")) 1000 100 = Ok [d]
    /\ page_content d
       = sub_page_markers
           (strip (combined_text
                     [mkPageInfo 1 (lit "Intro");
                      mkPageInfo 2 (lit "alpha beta gamma delta")]))
    /\ page_of d = Some (VInt 1)
    /\ chunk_index d = Some (VInt 1).
Proof.
  apply (short_document_is_one_chunk (mkPageInfo 1 (lit "Intro"))
           [mkPageInfo 2 (lit "alpha beta gamma delta")]
           (pdf_metadata_dict two_page_pdf (lit "report.pdf")) 1000 100);
    [lia|lia|apply pdf_metadata_dict_ok|simpl; lia|vm_compute; reflexivity].
Defined.

(** ** Blocks that are not text *)

Lemma insert_block_head (b : Block) (l : list Block) :
  Forall (fun c => (block_1 b <= block_1 c)%Q) l -> insert_block b l = b :: l.
Proof.
  intros [|x r Hx _]; simpl; [done|].
  apply Qle_bool_iff in Hx. by rewrite Hx.
Qed.

Lemma insert_block_filter_out (P : Block -> Prop) `{!forall b, Decision (P b)}
    (b : Block) (l : list Block) :
  ~ P b -> filter P (insert_block b l) = filter P l.
Proof.
  intros Hb. induction l as [|x r IH]; simpl.
  - by rewrite filter_cons_False.
  - destruct (Qle_bool (block_1 b) (block_1 x)).
    + by rewrite filter_cons_False.
    + by rewrite !(filter_cons _ x), IH.
Qed.

Lemma insert_block_filter_in (P : Block -> Prop) `{!forall b, Decision (P b)}
    (b : Block) (l : list Block) :
  P b -> StronglySorted (fun a c => (block_1 a <= block_1 c)%Q) l ->
  filter P (insert_block b l) = insert_block b (filter P l).
Proof.
  intros Hb. induction 1 as [|x r Hr IH Hx].
  - simpl. by rewrite filter_cons_True.
  - simpl. destruct (Qle_bool (block_1 b) (block_1 x)) eqn:E.
    + rewrite filter_cons_True by done. symmetry. apply insert_block_head.
      apply Qle_bool_iff in E.
      assert (Hall : Forall (fun c => (block_1 b <= block_1 c)%Q) (x :: r)).
      { constructor; [done|]. eapply Forall_impl; [exact Hx|]. simpl.
        intros c Hc. by eapply Qle_trans. }
      apply Forall_forall. intros c Hc.
      apply list_elem_of_filter in Hc as [_ Hc].
      by apply (proj1 (Forall_forall _ _) Hall).
    + rewrite !(filter_cons _ x). destruct (decide (P x)); [|exact IH].
      simpl. by rewrite E, IH.
Qed.

Lemma sort_blocks_sorted (l : list Block) :
  StronglySorted (fun a c => (block_1 a <= block_1 c)%Q) (sort_blocks l).
Proof.
  unfold sort_blocks. induction l as [|b l IH]; simpl; [constructor|].
  by apply insert_block_sorted.
Qed.

Lemma sort_blocks_filter (P : Block -> Prop) `{!forall b, Decision (P b)}
    (l : list Block) :
  sort_blocks (filter P l) = filter P (sort_blocks l).
Proof.
  induction l as [|b l IH]; [done|].
  rewrite filter_cons. change (sort_blocks (b :: l)) with (insert_block b (sort_blocks l)).
  destruct (decide (P b)) as [Hb|Hb].
  - change (sort_blocks (b :: filter P l)) with (insert_block b (sort_blocks (filter P l))).
    rewrite IH. symmetry. apply insert_block_filter_in; [done|apply sort_blocks_sorted].
  - rewrite IH. symmetry. by apply insert_block_filter_out.
Qed.

Lemma omap_filter_is_Some {A B : Type} (f : A -> option B) (l : list A) :
  omap f (filter (fun a => is_Some (f a)) l) = omap f l.
Proof.
  induction l as [|a l IH]; [done|].
  destruct (f a) as [b|] eqn:E.
  - rewrite filter_cons_True by (rewrite E; by eexists).
    change (omap f (a :: ?x)) with (match f a with Some y => y :: omap f x
                                    | None => omap f x end).
    by rewrite E, IH.
  - rewrite filter_cons_False by (rewrite E; by intros [? ?]).
    change (omap f (a :: l)) with (match f a with Some y => y :: omap f l
                                   | None => omap f l end).
    by rewrite E, IH.
Qed.

(** X26: the blocks of a page whose content is not a string count for
    nothing in the text of the page: it is the text of the page without
    them. *)
Theorem blocks_without_text_are_ignored (text_blocks : list Block) :
  page_text_of (filter (fun b => is_Some (block_str b)) text_blocks)
  = page_text_of text_blocks.
Proof.
  unfold page_text_of. by rewrite sort_blocks_filter, omap_filter_is_Some.
Qed.

(** ** No pages *)

(** X27: with no page at all, [create_document_chunks] returns the empty list
    for every metadata dictionary, one without ['file_name'] too, when
    [0 < chunk_size] and [0 <= chunk_overlap <= chunk_size]; and it raises a
    [ValueError] when [chunk_size < chunk_overlap]. *)
Theorem no_pages_no_chunks (md : gmap string value) (chunk_size chunk_overlap : Z) :
  (0 < chunk_size -> 0 <= chunk_overlap <= chunk_size ->
   create_document_chunks [] md chunk_size chunk_overlap = Ok [])
  /\ (chunk_size < chunk_overlap ->
      exists msg,
        create_document_chunks [] md chunk_size chunk_overlap
        = Raise (ValueError msg)).
Proof.
  split.
  - intros Hsize Hov. unfold create_document_chunks.
    rewrite splitter_valid by lia. unfold mbind, result_bind. cbv beta iota.
    unfold split_text, combined_text. simpl _separators. simpl join.
    rewrite _split_text_short; [reflexivity|apply chunk_separators_empty|].
    simpl. change (len []) with 0. lia.
  - intros Hlt. unfold create_document_chunks, RecursiveCharacterTextSplitter.
    destruct (chunk_size <=? 0); [simpl; eauto|].
    destruct (chunk_overlap <? 0); [simpl; eauto|].
    replace (chunk_size <? chunk_overlap) with true
      by (symmetry; apply Z.ltb_lt; lia).
    simpl. eauto.
Qed.

Lemma no_pages_no_chunks_witness :
  create_document_chunks [] ∅ 1000 100 = Ok []
  /\ exists msg, create_document_chunks [] ∅ 100 1000 = Raise (ValueError msg).
Proof.
  split.
  - apply (no_pages_no_chunks ∅ 1000 100); lia.
  - apply (no_pages_no_chunks ∅ 100 1000). lia.
Defined.

(** * The round trip of the text

    How the chunks relate to the text they are cut from: the windows of
    [_merge_splits], the chunks as a tiling of the text, and what deleting
    the page markers leaves of them. *)

(** ** Windows of splits *)





(** ** Chunks that tile the text *)



Lemma blank_app (a b : str) : blank (a ++ b) <-> blank a /\ blank b.
Proof. apply Forall_app. Qed.











Lemma rstrip_nil : rstrip [] = [].
Proof. reflexivity. Qed.








(** ** Matches of the marker pattern *)



















(** ** Markers and newlines *)

















(** ** Chunks of blocks *)








(** ** The combined text, cut at the blank lines *)

















Lemma block_blank_prefix (b s c : str) : blank b -> block s c -> block (b ++ s) c.
Proof.
  intros Hb (pre & m & -> & Hpre & Hm & Hc). exists (b ++ pre), m.
  rewrite <- app_assoc. repeat split; try done. by apply blank_app.
Qed.





(** ** The round trip of the text *)


















